(** * Solar-system scene builder and animator (src/app.ts)

    A shallow embedding of the [SolarSystem] class: the per-body scene-graph
    construction ([createBody]), the interval-driven label bob loop
    ([animationPlayPause]), the hover and click handlers
    ([boxAnimationEnter], [boxAnimationExit], [childModelDisplay]) and the
    unused [gearAnimation] loop.

    JavaScript numbers are IEEE 754 binary64 values and are modelled by
    Rocq's primitive floats; the two loop counters only ever hold small
    integers and are modelled in [Z].  The host runtime (actor creation,
    glTF loading, [Math.pow]) is a parameter of the model. *)

From Stdlib Require Import ZArith PrimFloat Lia.
From stdpp Require Import base option list gmap strings.

Set Warnings "-inexact-float".
Set Default Proof Using "Type".

(** ** Data model *)

Record Vector3 := { vx : float; vy : float; vz : float }.

(** [interface DatabaseRecord] *)
Record DatabaseRecord := {
  name : string;
  fileFormat : string;
  parent : string;
  diameter : float;
  modelpositionxAxis : float;
  modelpositionyAxis : float;
  modelpositionzAxis : float;
  modelrotationxAxis : float;
  modelrotationyAxis : float;
  modelrotationzAxis : float;
  labelpositionxAxis : float;
  labelpositionyAxis : float;
  labelpositionzAxis : float;
  appearance : bool;
  distance : float;
  day : float;
  year : float;
  inclination : float;
  obliquity : float;
  retrograde : bool
}.

(** [interface Database]: a JSON object.  [Object.keys] lists the keys in
    order; [database[k]] is the first binding of [k]. *)
Definition Database := list (string * DatabaseRecord).

Definition Object_keys (database : Database) : list string := database.*1.

Fixpoint db_get (database : Database) (key : string) : option DatabaseRecord :=
  match database with
  | [] => None
  | (k, facts) :: rest => if bool_decide (k = key) then Some facts else db_get rest key
  end.

(** [interface CelestialBody]: six actor handles.  An actor handle is the
    index of the actor in the host's actor store. *)
Module CelestialBody.

Record t := mk {
  inclination : nat;
  position : nat;
  obliquity0 : nat;
  obliquity1 : nat;
  model : nat;
  label : nat
}.

End CelestialBody.

(** Rotations are kept as the expressions the program passes to the host. *)
Inductive Rotation :=
| RotationAxis_Forward (angle : float)
| RotationLiteral (x y z : float).

(** An asset of an [MRE.AssetContainer]. [is_prefab a] is [a.prefab !== null];
    [source_uri a] is [a.source.uri]. *)
Record Asset := {
  asset_name : string;
  source_uri : option string;
  is_prefab : bool
}.

(** The part of [MRE.Actor] the program reads or writes. *)
Record Actor := {
  actor_name : string;
  parentId : option nat;
  app_rotation : option Rotation;
  local_position : Vector3;
  local_rotation : option Rotation;
  local_scale : Vector3;
  prefab : option Asset;
  collider_radius : option float;
  appearance_enabled : bool;
  text_contents : option string;
  has_button : bool
}.

Inductive Error :=
| TypeError (message : string)
| HostError (message : string).

Definition Error_toString (e : Error) : string :=
  match e with
  | TypeError m => "TypeError: " +:+ m
  | HostError m => "Error: " +:+ m
  end.

(** Timers of the event loop ([setInterval], [setTimeout]) and the closures
    they run.  A bob or gear closure captures the [celestialBody] looked up
    when the loop was started. *)
Inductive Callback :=
| BobTick (celestialBody : option CelestialBody.t)
| GearTick (celestialBody : option CelestialBody.t)
| PopupShrink.

Inductive TimerKind := SetInterval | SetTimeout.

Record Timer := {
  kind : TimerKind;
  delay : Z;
  callback : Callback
}.

(** Animations handed over to the host. *)
Inductive Destination :=
| LocalPositionY (y : float)
| LocalScale (s : Vector3).

Inductive Tween :=
| AnimateTo (actor : nat) (destination : Destination) (duration : float)
| BoundLoop (container : nat) (animName : string) (model : nat).

(** A [createBody] call suspended at [await this.assets.loadGltf(...)]: the
    five nodes already created, and the container the load was issued on. *)
Record Suspended := {
  s_bodyName : string;
  s_facts : DatabaseRecord;
  s_inclination : nat;
  s_position : nat;
  s_label : nat;
  s_obliquity0 : nat;
  s_obliquity1 : nat;
  s_uri : string;
  s_container : nat
}.

(** The instance fields of [SolarSystem] together with the state of the
    host they refer to. *)
Record State := {
  (* this.* *)
  celestialBodies : gmap string CelestialBody.t;
  assets : nat;
  labelLoopInc : Z;
  gearLoopInc : Z;
  animationLoopIterval : option nat;
  childBoxTimeout : option nat;
  (* host *)
  actors : list Actor;
  containers : list (list Asset);
  timers : list (nat * Timer);
  next_timer : nat;
  awaiting : list Suspended;
  handlers : list string;
  tweens : list Tween;
  log : list string;
  loads : list string
}.

(** The host runtime: [Math.pow], which ECMAScript leaves
    implementation-approximated, the actor names for which actor creation
    throws, and the reply to a glTF load request (the units of the file, as
    name and prefab flag) or its rejection. *)
Record Host := {
  Math_pow : float -> float -> float;
  Actor_Create_throws : string -> option string;
  loadGltf_reply : string -> string + list (string * bool)
}.

(** ** Field updates *)

Definition set_celestialBodies (v : gmap string CelestialBody.t) (st : State) : State :=
  {| celestialBodies := v; assets := assets st; labelLoopInc := labelLoopInc st;
     gearLoopInc := gearLoopInc st; animationLoopIterval := animationLoopIterval st;
     childBoxTimeout := childBoxTimeout st; actors := actors st;
     containers := containers st; timers := timers st; next_timer := next_timer st;
     awaiting := awaiting st; handlers := handlers st; tweens := tweens st;
     log := log st; loads := loads st |}.

Definition set_assets (v : nat) (st : State) : State :=
  {| celestialBodies := celestialBodies st; assets := v; labelLoopInc := labelLoopInc st;
     gearLoopInc := gearLoopInc st; animationLoopIterval := animationLoopIterval st;
     childBoxTimeout := childBoxTimeout st; actors := actors st;
     containers := containers st; timers := timers st; next_timer := next_timer st;
     awaiting := awaiting st; handlers := handlers st; tweens := tweens st;
     log := log st; loads := loads st |}.

Definition set_labelLoopInc (v : Z) (st : State) : State :=
  {| celestialBodies := celestialBodies st; assets := assets st; labelLoopInc := v;
     gearLoopInc := gearLoopInc st; animationLoopIterval := animationLoopIterval st;
     childBoxTimeout := childBoxTimeout st; actors := actors st;
     containers := containers st; timers := timers st; next_timer := next_timer st;
     awaiting := awaiting st; handlers := handlers st; tweens := tweens st;
     log := log st; loads := loads st |}.

Definition set_gearLoopInc (v : Z) (st : State) : State :=
  {| celestialBodies := celestialBodies st; assets := assets st;
     labelLoopInc := labelLoopInc st; gearLoopInc := v;
     animationLoopIterval := animationLoopIterval st;
     childBoxTimeout := childBoxTimeout st; actors := actors st;
     containers := containers st; timers := timers st; next_timer := next_timer st;
     awaiting := awaiting st; handlers := handlers st; tweens := tweens st;
     log := log st; loads := loads st |}.

Definition set_animationLoopIterval (v : option nat) (st : State) : State :=
  {| celestialBodies := celestialBodies st; assets := assets st;
     labelLoopInc := labelLoopInc st; gearLoopInc := gearLoopInc st;
     animationLoopIterval := v; childBoxTimeout := childBoxTimeout st;
     actors := actors st; containers := containers st; timers := timers st;
     next_timer := next_timer st; awaiting := awaiting st; handlers := handlers st;
     tweens := tweens st; log := log st; loads := loads st |}.

Definition set_childBoxTimeout (v : option nat) (st : State) : State :=
  {| celestialBodies := celestialBodies st; assets := assets st;
     labelLoopInc := labelLoopInc st; gearLoopInc := gearLoopInc st;
     animationLoopIterval := animationLoopIterval st; childBoxTimeout := v;
     actors := actors st; containers := containers st; timers := timers st;
     next_timer := next_timer st; awaiting := awaiting st; handlers := handlers st;
     tweens := tweens st; log := log st; loads := loads st |}.

Definition set_actors (v : list Actor) (st : State) : State :=
  {| celestialBodies := celestialBodies st; assets := assets st;
     labelLoopInc := labelLoopInc st; gearLoopInc := gearLoopInc st;
     animationLoopIterval := animationLoopIterval st;
     childBoxTimeout := childBoxTimeout st; actors := v;
     containers := containers st; timers := timers st; next_timer := next_timer st;
     awaiting := awaiting st; handlers := handlers st; tweens := tweens st;
     log := log st; loads := loads st |}.

Definition set_containers (v : list (list Asset)) (st : State) : State :=
  {| celestialBodies := celestialBodies st; assets := assets st;
     labelLoopInc := labelLoopInc st; gearLoopInc := gearLoopInc st;
     animationLoopIterval := animationLoopIterval st;
     childBoxTimeout := childBoxTimeout st; actors := actors st;
     containers := v; timers := timers st; next_timer := next_timer st;
     awaiting := awaiting st; handlers := handlers st; tweens := tweens st;
     log := log st; loads := loads st |}.

Definition set_timers (v : list (nat * Timer)) (st : State) : State :=
  {| celestialBodies := celestialBodies st; assets := assets st;
     labelLoopInc := labelLoopInc st; gearLoopInc := gearLoopInc st;
     animationLoopIterval := animationLoopIterval st;
     childBoxTimeout := childBoxTimeout st; actors := actors st;
     containers := containers st; timers := v; next_timer := next_timer st;
     awaiting := awaiting st; handlers := handlers st; tweens := tweens st;
     log := log st; loads := loads st |}.

Definition set_next_timer (v : nat) (st : State) : State :=
  {| celestialBodies := celestialBodies st; assets := assets st;
     labelLoopInc := labelLoopInc st; gearLoopInc := gearLoopInc st;
     animationLoopIterval := animationLoopIterval st;
     childBoxTimeout := childBoxTimeout st; actors := actors st;
     containers := containers st; timers := timers st; next_timer := v;
     awaiting := awaiting st; handlers := handlers st; tweens := tweens st;
     log := log st; loads := loads st |}.

Definition set_awaiting (v : list Suspended) (st : State) : State :=
  {| celestialBodies := celestialBodies st; assets := assets st;
     labelLoopInc := labelLoopInc st; gearLoopInc := gearLoopInc st;
     animationLoopIterval := animationLoopIterval st;
     childBoxTimeout := childBoxTimeout st; actors := actors st;
     containers := containers st; timers := timers st; next_timer := next_timer st;
     awaiting := v; handlers := handlers st; tweens := tweens st;
     log := log st; loads := loads st |}.

Definition set_handlers (v : list string) (st : State) : State :=
  {| celestialBodies := celestialBodies st; assets := assets st;
     labelLoopInc := labelLoopInc st; gearLoopInc := gearLoopInc st;
     animationLoopIterval := animationLoopIterval st;
     childBoxTimeout := childBoxTimeout st; actors := actors st;
     containers := containers st; timers := timers st; next_timer := next_timer st;
     awaiting := awaiting st; handlers := v; tweens := tweens st;
     log := log st; loads := loads st |}.

Definition set_tweens (v : list Tween) (st : State) : State :=
  {| celestialBodies := celestialBodies st; assets := assets st;
     labelLoopInc := labelLoopInc st; gearLoopInc := gearLoopInc st;
     animationLoopIterval := animationLoopIterval st;
     childBoxTimeout := childBoxTimeout st; actors := actors st;
     containers := containers st; timers := timers st; next_timer := next_timer st;
     awaiting := awaiting st; handlers := handlers st; tweens := v;
     log := log st; loads := loads st |}.

Definition set_log (v : list string) (st : State) : State :=
  {| celestialBodies := celestialBodies st; assets := assets st;
     labelLoopInc := labelLoopInc st; gearLoopInc := gearLoopInc st;
     animationLoopIterval := animationLoopIterval st;
     childBoxTimeout := childBoxTimeout st; actors := actors st;
     containers := containers st; timers := timers st; next_timer := next_timer st;
     awaiting := awaiting st; handlers := handlers st; tweens := tweens st;
     log := v; loads := loads st |}.

Definition set_loads (v : list string) (st : State) : State :=
  {| celestialBodies := celestialBodies st; assets := assets st;
     labelLoopInc := labelLoopInc st; gearLoopInc := gearLoopInc st;
     animationLoopIterval := animationLoopIterval st;
     childBoxTimeout := childBoxTimeout st; actors := actors st;
     containers := containers st; timers := timers st; next_timer := next_timer st;
     awaiting := awaiting st; handlers := handlers st; tweens := tweens st;
     log := log st; loads := v |}.

(** Updates of single actor fields, as the program performs them through an
    actor handle. *)
Definition with_position_y (f : float -> float) (a : Actor) : Actor :=
  {| actor_name := actor_name a; parentId := parentId a; app_rotation := app_rotation a;
     local_position := {| vx := vx (local_position a); vy := f (vy (local_position a));
                          vz := vz (local_position a) |};
     local_rotation := local_rotation a; local_scale := local_scale a;
     prefab := prefab a; collider_radius := collider_radius a;
     appearance_enabled := appearance_enabled a; text_contents := text_contents a;
     has_button := has_button a |}.

Definition with_rotation_x (f : float -> float) (a : Actor) : Actor :=
  {| actor_name := actor_name a; parentId := parentId a; app_rotation := app_rotation a;
     local_position := local_position a;
     local_rotation :=
       match local_rotation a with
       | Some (RotationLiteral x y z) => Some (RotationLiteral (f x) y z)
       | r => r
       end;
     local_scale := local_scale a;
     prefab := prefab a; collider_radius := collider_radius a;
     appearance_enabled := appearance_enabled a; text_contents := text_contents a;
     has_button := has_button a |}.

Definition with_appearance_enabled (b : bool) (a : Actor) : Actor :=
  {| actor_name := actor_name a; parentId := parentId a; app_rotation := app_rotation a;
     local_position := local_position a; local_rotation := local_rotation a;
     local_scale := local_scale a; prefab := prefab a;
     collider_radius := collider_radius a; appearance_enabled := b;
     text_contents := text_contents a; has_button := has_button a |}.

Definition with_text (contents : string) (a : Actor) : Actor :=
  {| actor_name := actor_name a; parentId := parentId a; app_rotation := app_rotation a;
     local_position := local_position a; local_rotation := local_rotation a;
     local_scale := local_scale a; prefab := prefab a;
     collider_radius := collider_radius a; appearance_enabled := appearance_enabled a;
     text_contents := Some contents; has_button := has_button a |}.

Definition with_button (a : Actor) : Actor :=
  {| actor_name := actor_name a; parentId := parentId a; app_rotation := app_rotation a;
     local_position := local_position a; local_rotation := local_rotation a;
     local_scale := local_scale a; prefab := prefab a;
     collider_radius := collider_radius a; appearance_enabled := appearance_enabled a;
     text_contents := text_contents a; has_button := true |}.

Definition update_actor (id : nat) (f : Actor -> Actor) (st : State) : State :=
  set_actors (alter f id (actors st)) st.

(** ** Computations that may throw

    A JavaScript function body is a state transformer that either returns a
    value or throws; the state changes made before a throw persist. *)

Definition M (A : Type) : Type := State -> State * (Error + A).

Definition ret {A} (a : A) : M A := fun st => (st, inr a).

Definition throw {A} (e : Error) : M A := fun st => (st, inl e).

Definition bind {A B} (m : M A) (k : A -> M B) : M B :=
  fun st =>
    match m st with
    | (st1, inl e) => (st1, inl e)
    | (st1, inr a) => k a st1
    end.

Definition modify (f : State -> State) : M unit := fun st => (f st, inr tt).

Definition gets {A} (f : State -> A) : M A := fun st => (st, inr (f st)).

Notation "x <- m ;; k" := (bind m (fun x => k))
  (at level 100, m at next level, right associativity).
Notation "m ;;; k" := (bind m (fun _ => k))
  (at level 100, right associativity).

(** Reading a property of a value that may be [undefined]. *)
Definition deref {A} (o : option A) (what : string) : M A :=
  match o with
  | Some a => ret a
  | None => throw (TypeError ("Cannot read property '" +:+ what +:+ "' of undefined"))
  end.

(** ** Host operations *)

(** [MRE.Actor.Create] and [MRE.Actor.CreateFromPrefab]: the new actor gets
    the next handle. *)
Definition Actor_Create (h : Host) (a : Actor) : M nat :=
  fun st =>
    match Actor_Create_throws h (actor_name a) with
    | Some msg => (st, inl (HostError msg))
    | None => (set_actors (actors st ++ [a]) st, inr (length (actors st)))
    end.

Definition setTimer (k : TimerKind) (ms : Z) (cb : Callback) : M nat :=
  fun st =>
    let id := next_timer st in
    (set_next_timer (S id)
       (set_timers (timers st ++ [(id, {| kind := k; delay := ms; callback := cb |})]) st),
     inr id).

Definition setInterval (cb : Callback) (ms : Z) : M nat := setTimer SetInterval ms cb.
Definition setTimeout (cb : Callback) (ms : Z) : M nat := setTimer SetTimeout ms cb.

Definition remove_timer (id : nat) (l : list (nat * Timer)) : list (nat * Timer) :=
  filter (fun p => p.1 <> id) l.

(** [clearInterval] and [clearTimeout]: no effect on [undefined] or on a
    handle that is no longer live. *)
Definition clearTimer (handle : option nat) : M unit :=
  modify (fun st =>
    match handle with
    | Some id => set_timers (remove_timer id (timers st)) st
    | None => st
    end).

Definition clearInterval := clearTimer.
Definition clearTimeout := clearTimer.

Fixpoint lookup_timer (id : nat) (l : list (nat * Timer)) : option Timer :=
  match l with
  | [] => None
  | (i, t) :: rest => if bool_decide (i = id) then Some t else lookup_timer id rest
  end.

Definition Animation_AnimateTo (actor : nat) (d : Destination) (duration : float) : M unit :=
  modify (fun st => set_tweens (tweens st ++ [AnimateTo actor d duration]) st).

Definition log_info (facility message : string) : M unit :=
  modify (fun st => set_log (log st ++ [facility +:+ ": " +:+ message]) st).

(** [this.assets.prefabs.find(p => p.source.uri === uri)] *)
Definition prefabs (c : list Asset) : list Asset := List.filter is_prefab c.

Definition find_prefab (uri : string) (c : list Asset) : option Asset :=
  List.find (fun p => bool_decide (source_uri p = Some uri)) (prefabs c).

Definition container_assets (st : State) (c : nat) : list Asset :=
  default [] (containers st !! c).

(** [new MRE.AssetContainer(this.context)] *)
Definition new_AssetContainer : M nat :=
  fun st => (set_containers (containers st ++ [[]]) st, inr (length (containers st))).

Definition add_assets (c : nat) (new : list Asset) : M unit :=
  modify (fun st => set_containers (alter (fun old => old ++ new) c (containers st)) st).

(** The assets the SDK builds from a load reply: each unit gets the
    requested uri as its source. *)
Definition gltf_assets (uri : string) (units : list (string * bool)) : list Asset :=
  map (fun u => {| asset_name := u.1; source_uri := Some uri; is_prefab := u.2 |}) units.

(** ** The application *)

Definition DegreesToRadians : float := (3.141592653589793 / 180)%float.

Definition zero3 : Vector3 := {| vx := 0; vy := 0; vz := 0 |}.
Definition one3 : Vector3 := {| vx := 1; vy := 1; vz := 1 |}.

(** An actor with the host's defaults for everything not given. *)
Definition new_actor (n : string) (p : option nat) : Actor :=
  {| actor_name := n; parentId := p; app_rotation := None; local_position := zero3;
     local_rotation := None; local_scale := one3; prefab := None;
     collider_radius := None; appearance_enabled := true; text_contents := None;
     has_button := false |}.

Definition with_app_rotation (r : Rotation) (a : Actor) : Actor :=
  {| actor_name := actor_name a; parentId := parentId a; app_rotation := Some r;
     local_position := local_position a; local_rotation := local_rotation a;
     local_scale := local_scale a; prefab := prefab a;
     collider_radius := collider_radius a; appearance_enabled := appearance_enabled a;
     text_contents := text_contents a; has_button := has_button a |}.

Definition with_local_position (v : Vector3) (a : Actor) : Actor :=
  {| actor_name := actor_name a; parentId := parentId a; app_rotation := app_rotation a;
     local_position := v; local_rotation := local_rotation a;
     local_scale := local_scale a; prefab := prefab a;
     collider_radius := collider_radius a; appearance_enabled := appearance_enabled a;
     text_contents := text_contents a; has_button := has_button a |}.

Definition with_local_rotation (r : Rotation) (a : Actor) : Actor :=
  {| actor_name := actor_name a; parentId := parentId a; app_rotation := app_rotation a;
     local_position := local_position a; local_rotation := Some r;
     local_scale := local_scale a; prefab := prefab a;
     collider_radius := collider_radius a; appearance_enabled := appearance_enabled a;
     text_contents := text_contents a; has_button := has_button a |}.

(** [Math.pow(d, 1 / 3) / 25] and the vector built from its half. *)
Definition scaleMultiplier (h : Host) (d : float) : float :=
  (Math_pow h d (1 / 3) / 25)%float.

Definition scaleValue (h : Host) (d : float) : Vector3 :=
  {| vx := (scaleMultiplier h d / 2)%float;
     vy := (scaleMultiplier h d / 2)%float;
     vz := (scaleMultiplier h d / 2)%float |}.

Definition model_uri (bodyName : string) (facts : DatabaseRecord) : string :=
  "assets/" +:+ bodyName +:+ "." +:+ fileFormat facts.

(** The actor description passed to [MRE.Actor.CreateFromPrefab]. *)
Definition model_actor (h : Host) (bodyName : string) (facts : DatabaseRecord)
    (obliquity1 : nat) (p : Asset) : Actor :=
  {| actor_name := bodyName +:+ "-body";
     parentId := Some obliquity1;
     app_rotation := None;
     local_position := zero3;
     local_rotation := Some (RotationLiteral (modelrotationxAxis facts)
                               (modelrotationyAxis facts) (modelrotationzAxis facts));
     local_scale := scaleValue h (diameter facts);
     prefab := Some p;
     collider_radius := Some 0%float;
     appearance_enabled := true;
     text_contents := None;
     has_button := false |}.

(** [animationPlayPause]: start a bob loop for [bodyName] and store its
    handle in the one instance field. *)
Definition animationPlayPause (bodyName : string) : M unit :=
  celestialBody <- gets (fun st => celestialBodies st !! bodyName);;
  id <- setInterval (BobTick celestialBody) 100;;
  modify (set_animationLoopIterval (Some id)).

(** The closure run by the bob loop every 100 ms. *)
Definition labelLoop_tick (celestialBody : option CelestialBody.t) : M unit :=
  c <- gets labelLoopInc;;
  if (c <? 5)%Z then
    (cb <- deref celestialBody "label";;
     modify (update_actor (CelestialBody.label cb)
               (with_position_y (fun y => (y + 0.01)%float)));;;
     modify (fun st => set_labelLoopInc (labelLoopInc st + 1)%Z st);;;
     c1 <- gets labelLoopInc;;
     if (c1 =? 5)%Z then modify (set_labelLoopInc 10%Z) else ret tt)
  else
    (cb <- deref celestialBody "label";;
     modify (update_actor (CelestialBody.label cb)
               (with_position_y (fun y => (y - 0.01)%float)));;;
     modify (fun st => set_labelLoopInc (labelLoopInc st - 1)%Z st);;;
     c1 <- gets labelLoopInc;;
     if (c1 =? 5)%Z then modify (set_labelLoopInc 0%Z) else ret tt).

(** [gearAnimation]: the same loop on the model's rotation, with its own
    counter.  No handle is kept. *)
Definition gearLoop_tick (celestialBody : option CelestialBody.t) : M unit :=
  c <- gets gearLoopInc;;
  if (c <? 10)%Z then
    (cb <- deref celestialBody "model";;
     modify (update_actor (CelestialBody.model cb)
               (with_rotation_x (fun x => (x + 0.01)%float)));;;
     modify (fun st => set_gearLoopInc (gearLoopInc st + 1)%Z st);;;
     c1 <- gets gearLoopInc;;
     if (c1 =? 10)%Z then modify (set_gearLoopInc 20%Z) else ret tt)
  else
    (cb <- deref celestialBody "model";;
     modify (update_actor (CelestialBody.model cb)
               (with_rotation_x (fun x => (x - 0.01)%float)));;;
     modify (fun st => set_gearLoopInc (gearLoopInc st - 1)%Z st);;;
     c1 <- gets gearLoopInc;;
     if (c1 =? 10)%Z then modify (set_gearLoopInc 0%Z) else ret tt).

Definition gearAnimation (bodyName : string) : M unit :=
  celestialBody <- gets (fun st => celestialBodies st !! bodyName);;
  _ <- setInterval (GearTick celestialBody) 100;;
  ret tt.

(** [boxAnimationEnter] *)
Definition boxAnimationEnter : M unit :=
  handle <- gets animationLoopIterval;;
  clearInterval handle;;;
  boxModel <- gets (fun st => celestialBodies st !! "box_model_cloud");;
  gearModel <- gets (fun st => celestialBodies st !! "only_gear");;
  b <- deref boxModel "position";;
  Animation_AnimateTo (CelestialBody.position b) (LocalPositionY 0.1) 1;;;
  g <- deref gearModel "position";;
  Animation_AnimateTo (CelestialBody.position g) (LocalPositionY 0.350) 1.

(** [boxAnimationExit] *)
Definition boxAnimationExit : M unit :=
  boxModel <- gets (fun st => celestialBodies st !! "box_model_cloud");;
  gearModel <- gets (fun st => celestialBodies st !! "only_gear");;
  b <- deref boxModel "position";;
  Animation_AnimateTo (CelestialBody.position b) (LocalPositionY 0) 1;;;
  g <- deref gearModel "position";;
  Animation_AnimateTo (CelestialBody.position g) (LocalPositionY 0.250) 1;;;
  id <- setTimeout PopupShrink 3000;;
  modify (set_childBoxTimeout (Some id)).

(** The closure scheduled by [boxAnimationExit]. *)
Definition popup_shrink (h : Host) : M unit :=
  popup <- gets (fun st => celestialBodies st !! "popup_model");;
  p <- deref popup "model";;
  Animation_AnimateTo (CelestialBody.model p) (LocalScale (scaleValue h 0)) 1.

(** [childModelDisplay] *)
Definition childModelDisplay (h : Host) : M unit :=
  handle <- gets childBoxTimeout;;
  clearTimeout handle;;;
  celestialBody <- gets (fun st => celestialBodies st !! "popup_model");;
  p <- deref celestialBody "model";;
  modify (update_actor (CelestialBody.model p) (with_appearance_enabled true));;;
  Animation_AnimateTo (CelestialBody.model p) (LocalScale (scaleValue h 1000)) 1.

(** The three handlers registered on a body with a non-empty name. *)
Definition onClick (h : Host) (bodyName : string) : M unit := childModelDisplay h.

Definition onHoverEnter (bodyName : string) : M unit := boxAnimationEnter.

Definition onHoverExit (bodyName : string) : M unit :=
  animationPlayPause bodyName;;;
  boxAnimationExit.

(** ** [createBody] *)

(** The state of the promise an [async] function returns to its caller. *)
Inductive Promise := Resolved | Rejected (e : Error) | Pending.

(** The part of the [try] block that creates the five plain nodes. *)
Definition create_nodes (h : Host) (bodyName : string) (facts : DatabaseRecord)
    : M (nat * nat * nat * nat * nat) :=
  inclination <- Actor_Create h
    (with_app_rotation
       (RotationAxis_Forward (inclination facts * DegreesToRadians)%float)
       (new_actor (bodyName +:+ "-inclination") None));;
  position <- Actor_Create h
    (with_local_position
       {| vx := modelpositionxAxis facts; vy := modelpositionyAxis facts;
          vz := modelpositionzAxis facts |}
       (new_actor (bodyName +:+ "-position") (Some inclination)));;
  label <- Actor_Create h
    (with_local_position
       {| vx := labelpositionxAxis facts; vy := labelpositionyAxis facts;
          vz := labelpositionzAxis facts |}
       (new_actor (bodyName +:+ "-label") (Some position)));;
  obliquity0 <- Actor_Create h (new_actor (bodyName +:+ "-obliquity0") (Some position));;
  obliquity1 <- Actor_Create h
    (with_local_rotation
       (RotationAxis_Forward (obliquity facts * DegreesToRadians)%float)
       (new_actor (bodyName +:+ "-obliquity1") (Some obliquity0)));;
  ret (inclination, position, label, obliquity0, obliquity1).

(** The rest of the [try] block, from [CreateFromPrefab] on, once the
    prefab is known. *)
Definition createBody_finish (h : Host) (bodyName : string) (facts : DatabaseRecord)
    (inclination position label obliquity0 obliquity1 : nat) (p : Asset) : M unit :=
  model <- Actor_Create h (model_actor h bodyName facts obliquity1 p);;
  modify (update_actor model (with_appearance_enabled (appearance facts)));;;
  modify (update_actor model with_button);;;
  modify (update_actor label (with_text (name facts)));;;
  modify (fun st =>
    set_celestialBodies
      (<[bodyName := CelestialBody.mk inclination position obliquity0 obliquity1 model label]>
         (celestialBodies st)) st);;;
  (if bool_decide (name facts <> "") then
     animationPlayPause bodyName;;;
     modify (fun st => set_handlers (handlers st ++ [bodyName]) st)
   else ret tt);;;
  (if bool_decide (bodyName = "only_gear") then
     c <- new_AssetContainer;;
     modify (set_assets c);;;
     add_assets c [{| asset_name := "anim"; source_uri := None; is_prefab := false |}];;;
     modify (fun st => set_tweens (tweens st ++ [BoundLoop c "anim" model]) st)
   else ret tt).

Inductive Progress := Done | Await.

(** The [try] block up to the first suspension point. *)
Definition createBody_try (h : Host) (bodyName : string) (facts : DatabaseRecord)
    : M Progress :=
  nodes <- create_nodes h bodyName facts;;
  let '(inclination, position, label, obliquity0, obliquity1) := nodes in
  c <- gets assets;;
  found <- gets (fun st => find_prefab (model_uri bodyName facts) (container_assets st c));;
  match found with
  | Some p =>
      createBody_finish h bodyName facts inclination position label obliquity0 obliquity1 p;;;
      ret Done
  | None =>
      modify (fun st => set_loads (loads st ++ [model_uri bodyName facts]) st);;;
      modify (fun st =>
        set_awaiting
          (awaiting st ++
             [{| s_bodyName := bodyName; s_facts := facts; s_inclination := inclination;
                 s_position := position; s_label := label; s_obliquity0 := obliquity0;
                 s_obliquity1 := obliquity1; s_uri := model_uri bodyName facts;
                 s_container := c |}]) st);;;
      ret Await
  end.

(** The [try] block after the load has settled. *)
Definition createBody_continue (h : Host) (s : Suspended) : M unit :=
  match loadGltf_reply h (s_uri s) with
  | inl msg => throw (HostError msg)
  | inr units =>
      let modelData := gltf_assets (s_uri s) units in
      add_assets (s_container s) modelData;;;
      a <- deref (List.find is_prefab modelData) "prefab";;
      createBody_finish h (s_bodyName s) (s_facts s) (s_inclination s) (s_position s)
        (s_label s) (s_obliquity0 s) (s_obliquity1 s) a
  end.

(** The [catch] clause. *)
Definition createBody_catch (bodyName : string) (e : Error) : State -> State :=
  fun st =>
    (log_info "app" ("createBody failed " +:+ bodyName +:+ ", " +:+ Error_toString e) st).1.

Definition createBody (h : Host) (database : Database) (bodyName : string)
    : State -> State * Promise :=
  fun st =>
    match db_get database bodyName with
    | None => (st, Rejected (TypeError "Cannot read property 'diameter' of undefined"))
    | Some facts =>
        match createBody_try h bodyName facts st with
        | (st1, inl e) => (createBody_catch bodyName e st1, Resolved)
        | (st1, inr Done) => (st1, Resolved)
        | (st1, inr Await) => (st1, Pending)
        end
    end.

Definition createBody_resume (h : Host) (s : Suspended) : State -> State * Promise :=
  fun st =>
    match createBody_continue h s st with
    | (st1, inl e) => (createBody_catch (s_bodyName s) e st1, Resolved)
    | (st1, inr _) => (st1, Resolved)
    end.

(** [createSolarSystem]: the promises are dropped. *)
Definition createSolarSystem (h : Host) (database : Database) : State -> State :=
  fun st => fold_left (fun s bodyName => (createBody h database bodyName s).1)
              (Object_keys database) st.

(** The instance right after the constructor. *)
Definition init_state : State :=
  {| celestialBodies := ∅; assets := 0; labelLoopInc := 0; gearLoopInc := 0;
     animationLoopIterval := None; childBoxTimeout := None; actors := [];
     containers := [[]]; timers := []; next_timer := 0; awaiting := [];
     handlers := []; tweens := []; log := []; loads := [] |}.

Definition started (h : Host) (database : Database) : State :=
  createSolarSystem h database init_state.

(** ** The event loop *)

Inductive Event :=
| LoadSettled (k : nat)
| TimerFires (id : nat)
| HoverEnter (bodyName : string)
| HoverExit (bodyName : string)
| Click (bodyName : string).

Definition run_callback (h : Host) (cb : Callback) : M unit :=
  match cb with
  | BobTick celestialBody => labelLoop_tick celestialBody
  | GearTick celestialBody => gearLoop_tick celestialBody
  | PopupShrink => popup_shrink h
  end.

(** One turn of the event loop.  The second component is the exception that
    escapes the callback, if any; an event nothing listens to is dropped. *)
Definition step (h : Host) (ev : Event) (st : State) : State * option Error :=
  let run (m : M unit) (s : State) : State * option Error :=
    match m s with
    | (s1, inl e) => (s1, Some e)
    | (s1, inr _) => (s1, None)
    end in
  match ev with
  | LoadSettled k =>
      match awaiting st !! k with
      | Some s => ((createBody_resume h s (set_awaiting (delete k (awaiting st)) st)).1, None)
      | None => (st, None)
      end
  | TimerFires id =>
      match lookup_timer id (timers st) with
      | Some t =>
          match kind t with
          | SetInterval => run (run_callback h (callback t)) st
          | SetTimeout =>
              run (run_callback h (callback t))
                (set_timers (remove_timer id (timers st)) st)
          end
      | None => (st, None)
      end
  | HoverEnter b =>
      if bool_decide (b ∈ handlers st) then run (onHoverEnter b) st else (st, None)
  | HoverExit b =>
      if bool_decide (b ∈ handlers st) then run (onHoverExit b) st else (st, None)
  | Click b =>
      if bool_decide (b ∈ handlers st) then run (onClick h b) st else (st, None)
  end.

Definition run_events (h : Host) (evs : list Event) (st : State) : State :=
  fold_left (fun s ev => (step h ev s).1) evs st.

(** The states the program can be in: after start-up, and after any number
    of events. *)
Inductive reachable (h : Host) (database : Database) : State -> Prop :=
| reachable_started : reachable h database (started h database)
| reachable_step st ev :
    reachable h database st -> reachable h database (step h ev st).1.

(** * Specification vocabulary *)

(** ** Triples *)

(** Hoare triples for computations that may throw: [Q] holds of the result
    and final state on return, [E] of the final state on a throw. *)
Definition triple {A} (P : State -> Prop) (m : M A)
    (Q : A -> State -> Prop) (E : State -> Prop) : Prop :=
  forall st, P st ->
    match m st with
    | (st1, inr a) => Q a st1
    | (st1, inl _) => E st1
    end.

(** ** The scene graph *)

Definition parent_of (l : list Actor) (i : nat) : option (option nat) :=
  parentId <$> l !! i.

(** The actor store [l1] extends [l]: every handle valid in [l] is valid in
    [l1] and has the same parent. *)
Definition actors_grow (l l1 : list Actor) : Prop :=
  forall i p, parent_of l i = Some p -> parent_of l1 i = Some p.

(** The layout documented in [createBody]:
<<
    inclination
        position
            label
            obliquity0
                obliquity1
                    model
>>
    over six distinct handles (listed in creation order). *)
Record chain_ok (l : list Actor) (cb : CelestialBody.t) : Prop := {
  chain_distinct :
    CelestialBody.inclination cb < CelestialBody.position cb /\
    CelestialBody.position cb < CelestialBody.label cb /\
    CelestialBody.label cb < CelestialBody.obliquity0 cb /\
    CelestialBody.obliquity0 cb < CelestialBody.obliquity1 cb /\
    CelestialBody.obliquity1 cb < CelestialBody.model cb;
  chain_inclination : parent_of l (CelestialBody.inclination cb) = Some None;
  chain_position :
    parent_of l (CelestialBody.position cb) = Some (Some (CelestialBody.inclination cb));
  chain_label :
    parent_of l (CelestialBody.label cb) = Some (Some (CelestialBody.position cb));
  chain_obliquity0 :
    parent_of l (CelestialBody.obliquity0 cb) = Some (Some (CelestialBody.position cb));
  chain_obliquity1 :
    parent_of l (CelestialBody.obliquity1 cb) = Some (Some (CelestialBody.obliquity0 cb));
  chain_model :
    parent_of l (CelestialBody.model cb) = Some (Some (CelestialBody.obliquity1 cb))
}.

(** The same for the five nodes created before the model. *)
Record nodes_ok (l : list Actor) (i p lb o0 o1 : nat) : Prop := {
  nodes_distinct : i < p /\ p < lb /\ lb < o0 /\ o0 < o1 /\ o1 < length l;
  nodes_inclination : parent_of l i = Some None;
  nodes_position : parent_of l p = Some (Some i);
  nodes_label : parent_of l lb = Some (Some p);
  nodes_obliquity0 : parent_of l o0 = Some (Some p);
  nodes_obliquity1 : parent_of l o1 = Some (Some o0)
}.

Definition suspended_ok (l : list Actor) (s : Suspended) : Prop :=
  nodes_ok l (s_inclination s) (s_position s) (s_label s) (s_obliquity0 s) (s_obliquity1 s).

(** The six nodes of a body and the parent links the layout prescribes, as
    (child, parent) pairs. *)
Definition body_nodes (cb : CelestialBody.t) : list nat :=
  [CelestialBody.inclination cb; CelestialBody.position cb; CelestialBody.label cb;
   CelestialBody.obliquity0 cb; CelestialBody.obliquity1 cb; CelestialBody.model cb].

Definition body_links (cb : CelestialBody.t) : list (nat * nat) :=
  [(CelestialBody.position cb, CelestialBody.inclination cb);
   (CelestialBody.label cb, CelestialBody.position cb);
   (CelestialBody.obliquity0 cb, CelestialBody.position cb);
   (CelestialBody.obliquity1 cb, CelestialBody.obliquity0 cb);
   (CelestialBody.model cb, CelestialBody.obliquity1 cb)].

(** The names of the five plain nodes of a body. *)
Definition node_names (bodyName : string) : list string :=
  [bodyName +:+ "-inclination"; bodyName +:+ "-position"; bodyName +:+ "-label";
   bodyName +:+ "-obliquity0"; bodyName +:+ "-obliquity1"].

Definition six_names (bodyName : string) : list string :=
  node_names bodyName ++ [bodyName +:+ "-body"].

(** ** Timers *)

(** The bob loop [animationPlayPause] starts for a registered body. *)
Definition bob_timer (cb : CelestialBody.t) : Timer :=
  {| kind := SetInterval; delay := 100; callback := BobTick (Some cb) |}.

Definition shrink_timer : Timer :=
  {| kind := SetTimeout; delay := 3000; callback := PopupShrink |}.

(** The only timers the program starts: a 100 ms bob loop over a registered
    body, or the 3000 ms popup shrink. *)
Definition timer_ok (l : list Actor) (t : Timer) : Prop :=
  match callback t with
  | BobTick (Some cb) => kind t = SetInterval /\ delay t = 100%Z /\ chain_ok l cb
  | PopupShrink => kind t = SetTimeout /\ delay t = 3000%Z
  | _ => False
  end.

(** The state after [clearInterval(handle)] or [clearTimeout(handle)]. *)
Definition cleared (handle : option nat) (st : State) : State :=
  match handle with
  | Some id => set_timers (remove_timer id (timers st)) st
  | None => st
  end.

(** The bob loop started by a hover-exit on [b]. *)
Definition restarted_bob (st : State) (b : string) : nat * Timer :=
  (next_timer st,
   {| kind := SetInterval; delay := 100; callback := BobTick (celestialBodies st !! b) |}).

(** The timers [st1] has on top of those of [st]. *)
Definition started_timers (st st1 : State) (new : list (nat * Timer)) : Prop :=
  timers st1 = timers st ++ new.

(** The live bob loops that move the label of [cb]. *)
Definition bob_loops_on (cb : CelestialBody.t) (st : State) : list (nat * Timer) :=
  List.filter
    (fun p => match callback p.2 with
              | BobTick (Some c) => Nat.eqb (CelestialBody.label c) (CelestialBody.label cb)
              | _ => false
              end)
    (timers st).

(** All live bob loops. *)
Definition bob_loops (st : State) : list (nat * Timer) :=
  List.filter
    (fun p => match callback p.2 with BobTick _ => true | _ => false end) (timers st).

(** ** The invariant *)

(** The invariant of the running program. *)
Record Inv (st : State) : Prop := {
  inv_bodies : forall n cb, celestialBodies st !! n = Some cb -> chain_ok (actors st) cb;
  inv_awaiting : forall s, s ∈ awaiting st -> suspended_ok (actors st) s;
  inv_timers : forall id t, (id, t) ∈ timers st -> timer_ok (actors st) t;
  inv_handlers : forall b, b ∈ handlers st -> is_Some (celestialBodies st !! b);
  inv_gear : gearLoopInc st = 0%Z;
  inv_label : (0 <= labelLoopInc st <= 10)%Z
}.

(** ** Outcomes of a construction *)

(** The [TypeError] of reading property [what] of [undefined]. *)
Definition undefined_error (what : string) : Error :=
  TypeError ("Cannot read property '" +:+ what +:+ "' of undefined").

(** The line the [catch] clause logs. *)
Definition failure_line (bodyName : string) (e : Error) : string :=
  "app: createBody failed " +:+ bodyName +:+ ", " +:+ Error_toString e.

(** The actor store after [createBody_finish] has created the model from
    prefab [a] and set its appearance, its button behaviour and the label's
    text. *)
Definition finished_actors (h : Host) (bodyName : string) (facts : DatabaseRecord)
    (lb o1 : nat) (a : Asset) (l : list Actor) : list Actor :=
  alter (with_text (name facts)) lb
    (alter with_button (length l)
       (alter (with_appearance_enabled (appearance facts)) (length l)
          (l ++ [model_actor h bodyName facts o1 a]))).

(** [st1] is [st] after a [createBody_finish] that returned: the body is
    registered over the five given nodes and a model created at the next
    free handle; a body with a display name got its bob loop and its
    handlers; the body named only_gear got a fresh asset container and a
    looping animation bound to its model; nothing else changed. *)
Definition finished (h : Host) (bodyName : string) (facts : DatabaseRecord)
    (i p lb o0 o1 : nat) (a : Asset) (st st1 : State) : Prop :=
  let cb := CelestialBody.mk i p o0 o1 (length (actors st)) lb in
  celestialBodies st1 = <[bodyName := cb]> (celestialBodies st) /\
  actors st1 = finished_actors h bodyName facts lb o1 a (actors st) /\
  timers st1 =
    timers st ++
      (if bool_decide (name facts <> "") then [(next_timer st, bob_timer cb)] else []) /\
  handlers st1 =
    handlers st ++ (if bool_decide (name facts <> "") then [bodyName] else []) /\
  animationLoopIterval st1 =
    (if bool_decide (name facts <> "") then Some (next_timer st)
     else animationLoopIterval st) /\
  assets st1 =
    (if bool_decide (bodyName = "only_gear") then length (containers st) else assets st) /\
  (forall c, c < length (containers st) -> containers st1 !! c = containers st !! c) /\
  tweens st1 =
    tweens st ++
      (if bool_decide (bodyName = "only_gear")
       then [BoundLoop (length (containers st)) "anim" (length (actors st))] else []) /\
  log st1 = log st /\ loads st1 = loads st /\ awaiting st1 = awaiting st /\
  labelLoopInc st1 = labelLoopInc st /\ gearLoopInc st1 = gearLoopInc st /\
  childBoxTimeout st1 = childBoxTimeout st.

(** The entry of [awaiting] a suspended [createBody] leaves. *)
Definition suspension (bodyName : string) (facts : DatabaseRecord)
    (i p lb o0 o1 c : nat) : Suspended :=
  {| s_bodyName := bodyName; s_facts := facts; s_inclination := i; s_position := p;
     s_label := lb; s_obliquity0 := o0; s_obliquity1 := o1;
     s_uri := model_uri bodyName facts; s_container := c |}.

(** [st1] is [st] after a construction of [bodyName] that failed with [e]:
    the failure is logged with the body name and the error, the actors
    created before the failure stay, and nothing of what the instance keeps
    (registry, timers and their handles, handlers, counters, suspended
    constructions, the container in use) has changed. *)
Definition failed_with (bodyName : string) (e : Error) (st st1 : State) : Prop :=
  log st1 = log st ++ [failure_line bodyName e] /\
  actors_grow (actors st) (actors st1) /\
  celestialBodies st1 = celestialBodies st /\
  timers st1 = timers st /\ handlers st1 = handlers st /\
  awaiting st1 = awaiting st /\ assets st1 = assets st /\
  tweens st1 = tweens st /\ labelLoopInc st1 = labelLoopInc st /\
  animationLoopIterval st1 = animationLoopIterval st /\
  childBoxTimeout st1 = childBoxTimeout st.

(** A construction of [bodyName] has got as far as registering the body, or
    is suspended on its load. *)
Definition attempted (bodyName : string) (st : State) : Prop :=
  is_Some (celestialBodies st !! bodyName) \/
  exists s, s ∈ awaiting st /\ s_bodyName s = bodyName.

(** The model of [bodyName] is registered in [st] and satisfies [P]. *)
Definition model_of (st : State) (bodyName : string) (P : Actor -> Prop) : Prop :=
  exists cb m,
    celestialBodies st !! bodyName = Some cb /\
    actors st !! CelestialBody.model cb = Some m /\ P m.

(** ** The bob and the gear *)

(** [celestialBody.label.transform.local.position.y] *)
Definition label_y (st : State) (cb : CelestialBody.t) : option float :=
  (fun a => vy (local_position a)) <$> actors st !! CelestialBody.label cb.

(** The state a bob tick leads to: the label moved by [dy] and the counter
    set to [c]. *)
Definition bobbed (cb : CelestialBody.t) (dy : float -> float) (c : Z) (st : State) : State :=
  set_labelLoopInc c (update_actor (CelestialBody.label cb) (with_position_y dy) st).

(** The gear effect the program really sets up: a looping animation bound
    to the model of the body named only_gear. *)
Definition gear_bound (st : State) : Prop :=
  forall cb, celestialBodies st !! "only_gear" = Some cb ->
    exists c, BoundLoop c "anim" (CelestialBody.model cb) ∈ tweens st.

(** From [st] to [st1] no tween request is lost, and the registry is the
    same or has one more entry, which, for only_gear, comes with its bound
    loop. *)
Definition evolves (st st1 : State) : Prop :=
  (forall t, t ∈ tweens st -> t ∈ tweens st1) /\
  (celestialBodies st1 = celestialBodies st \/
   exists bodyName cb,
     celestialBodies st1 = <[bodyName := cb]> (celestialBodies st) /\
     (bodyName = "only_gear" ->
      exists c, BoundLoop c "anim" (CelestialBody.model cb) ∈ tweens st1)).

(** ** The handlers *)

Definition popup_target (h : Host) : Vector3 := scaleValue h 1000.

(** The nodes the handlers animate: the position nodes of the entries
    box_model_cloud and only_gear and the model of the entry popup_model,
    as far as they are registered. *)
Definition fixed_nodes (st : State) : list nat :=
  match celestialBodies st !! "box_model_cloud" with
  | Some b => [CelestialBody.position b]
  | None => []
  end ++
  match celestialBodies st !! "only_gear" with
  | Some g => [CelestialBody.position g]
  | None => []
  end ++
  match celestialBodies st !! "popup_model" with
  | Some p => [CelestialBody.model p]
  | None => []
  end.

Definition tween_actor (t : Tween) : nat :=
  match t with
  | AnimateTo a _ _ => a
  | BoundLoop _ _ m => m
  end.

(** From [st] to [st1] only tweens on [targets] were requested, and only
    actors among [targets] were written to. *)
Definition touches_only (targets : list nat) (st st1 : State) : Prop :=
  (exists new, tweens st1 = tweens st ++ new /\
     forall t, t ∈ new -> tween_actor t ∈ targets) /\
  length (actors st1) = length (actors st) /\
  forall i, i ∉ targets -> actors st1 !! i = actors st !! i.

(** ** Asset containers *)

(** [createBody] calls interleaved with events. *)
Inductive Op :=
| Build (bodyName : string)
| Happens (ev : Event).

Definition run_op (h : Host) (database : Database) (op : Op) (st : State) : State :=
  match op with
  | Build bodyName => (createBody h database bodyName st).1
  | Happens ev => (step h ev st).1
  end.

Definition run_ops (h : Host) (database : Database) (ops : list Op) (st : State) : State :=
  fold_left (fun s op => run_op h database op s) ops st.

(** Every asset container of [st] is still there in [st1], with the same
    assets and possibly more after them. *)
Definition containers_grow (st st1 : State) : Prop :=
  forall c l, containers st !! c = Some l ->
    exists more, containers st1 !! c = Some (l ++ more).

(** * Tactics *)

(** Reduce the projections of updated states, and nothing else. *)
Ltac state_simpl :=
  cbn [celestialBodies assets labelLoopInc gearLoopInc animationLoopIterval
       childBoxTimeout actors containers timers next_timer awaiting handlers tweens
       log loads
       set_celestialBodies set_assets set_labelLoopInc set_gearLoopInc
       set_animationLoopIterval set_childBoxTimeout set_actors set_containers
       set_timers set_next_timer set_awaiting set_handlers set_tweens set_log
       set_loads update_actor fst snd].

(** Run the monadic plumbing, leaving the application's data alone. *)
Ltac monad_simpl :=
  cbv beta iota zeta delta
    [bind ret throw gets modify deref clearInterval clearTimeout clearTimer
     setInterval setTimeout setTimer Animation_AnimateTo log_info
     new_AssetContainer add_assets];
  state_simpl.

(** Split a conjunction of closed facts and evaluate each. *)
Ltac evaluate :=
  repeat match goal with |- _ /\ _ => split end;
  vm_compute; reflexivity.

(** * A host and databases to run the model on *)

(** An approximation of [Math.pow] for exponents in (0,1), the only ones
    the program passes, by repeated square roots along the binary digits of
    the exponent. *)
Fixpoint pow_frac (fuel : nat) (b e : float) : float :=
  match fuel with
  | O => 1%float
  | S n =>
      let r := PrimFloat.sqrt b in
      let e2 := (e * 2)%float in
      if (1 <=? e2)%float then (r * pow_frac n r (e2 - 1))%float else pow_frac n r e2
  end.

Definition pow_by_roots (b e : float) : float :=
  if (b <? 0)%float then nan
  else if (b =? 0)%float then 0%float
  else pow_frac 60 b e.

(** A host that refuses nothing and answers every load with a mesh and a
    prefab. *)
Definition quiet_host : Host :=
  {| Math_pow := pow_by_roots;
     Actor_Create_throws := fun _ => None;
     loadGltf_reply := fun uri => inr [("mesh", false); ("scene", true)] |}.

(** A host that refuses the label of the box, and one whose gear file has
    no prefab. *)
Definition refusing_host : Host :=
  {| Math_pow := pow_by_roots;
     Actor_Create_throws :=
       fun n => if bool_decide (n = "box_model_cloud-label") then Some "refused" else None;
     loadGltf_reply :=
       fun uri => if bool_decide (uri = "assets/only_gear.glb")
                  then inr [("mesh", false)] else inr [("mesh", false); ("scene", true)] |}.

Definition body_record (display : string) (d : float) (visible : bool) : DatabaseRecord :=
  {| name := display; fileFormat := "glb"; parent := ""; diameter := d;
     modelpositionxAxis := 0; modelpositionyAxis := 0; modelpositionzAxis := 0;
     modelrotationxAxis := 0; modelrotationyAxis := 0; modelrotationzAxis := 0;
     labelpositionxAxis := 0; labelpositionyAxis := 0.4; labelpositionzAxis := 0;
     appearance := visible; distance := 0; day := 0; year := 0; inclination := 0;
     obliquity := 0; retrograde := false |}.

Definition box_record : DatabaseRecord := body_record "Box" 1000 true.

(** A database with one body of diameter 0. *)
Definition speck_record : DatabaseRecord := body_record "Speck" 0 true.

(** The three bodies the handlers refer to: two with a display name, and a
    hidden popup. *)
Definition demo_db : Database :=
  [("box_model_cloud", body_record "Box" 1000 true);
   ("only_gear", body_record "Gear" 8 true);
   ("popup_model", body_record "" 1000 false)].

(** The same scene without the popup. *)
Definition no_popup_db : Database :=
  [("box_model_cloud", body_record "Box" 1000 true);
   ("only_gear", body_record "Gear" 8 true)].

Definition speck_db : Database := [("speck", speck_record)].

Definition box_uri : string := "assets/box_model_cloud.glb".

Definition scene_units : list (string * bool) := [("mesh", false); ("scene", true)].

Definition box_prefab : Asset :=
  {| asset_name := "scene"; source_uri := Some box_uri; is_prefab := true |}.

(** The demo scene right after start-up, with its three loads pending, and
    the pieces of the first of them. *)
Definition demo_started : State := started quiet_host demo_db.

Definition box_suspended : Suspended :=
  suspension "box_model_cloud" box_record 0 1 2 3 4 0.

(** The demo scene once the three loads have settled, in request order. *)
Definition demo_running : State :=
  run_events quiet_host [LoadSettled 0; LoadSettled 0; LoadSettled 0]
    (started quiet_host demo_db).

Definition demo_box : CelestialBody.t := CelestialBody.mk 0 1 3 4 15 2.
Definition demo_gear : CelestialBody.t := CelestialBody.mk 5 6 8 9 16 7.
Definition demo_popup : CelestialBody.t := CelestialBody.mk 10 11 13 14 17 12.

Definition no_popup_running : State :=
  run_events quiet_host [LoadSettled 0; LoadSettled 0] (started quiet_host no_popup_db).

Definition no_popup_box : CelestialBody.t := CelestialBody.mk 0 1 3 4 10 2.

(** One hover cycle on the box; and two cycles that overlap, as with two
    pointers. *)
Definition box_cycle : list Event :=
  [HoverEnter "box_model_cloud"; HoverExit "box_model_cloud"].

(** Two hover cycles in a row, on the box and then on the gear, as when the
    pointer sweeps over both bodies. *)
Definition two_cycles : list Event :=
  [HoverEnter "box_model_cloud"; HoverExit "box_model_cloud";
   HoverEnter "only_gear"; HoverExit "only_gear"].

Definition overlapping_cycles : list Event :=
  [HoverEnter "box_model_cloud"; HoverEnter "only_gear";
   HoverExit "box_model_cloud"; HoverExit "only_gear"].

(** [n] rounds of the two bob loops of the demo scene, each firing once per
    100 ms in the order they were started. *)
Definition bob_rounds (n : nat) : list Event :=
  concat (replicate n [TimerFires 0; TimerFires 1]).

Definition demo_swept : State := run_events quiet_host two_cycles demo_running.

Definition demo_clicked : State :=
  (step quiet_host (Click "box_model_cloud") demo_swept).1.



(** * Further vocabulary *)

(** ** What stays of an actor *)

(** [a1] is a later version of [a]: name, parent, rotations, scale, the x
    and z of its position, prefab, collider and button behaviour are the
    same, and an actor that was visible still is. *)
Definition keeps (a a1 : Actor) : Prop :=
  actor_name a1 = actor_name a /\ parentId a1 = parentId a /\
  app_rotation a1 = app_rotation a /\ local_rotation a1 = local_rotation a /\
  local_scale a1 = local_scale a /\
  vx (local_position a1) = vx (local_position a) /\
  vz (local_position a1) = vz (local_position a) /\
  prefab a1 = prefab a /\ collider_radius a1 = collider_radius a /\
  has_button a1 = has_button a /\
  (appearance_enabled a = true -> appearance_enabled a1 = true).

(** The actor store [l1] is a later version of [l]: no actor is gone, each
    is kept in the sense above, and a text that changed is the display name
    of the body whose label the actor is. *)
Definition actors_step (database : Database) (l l1 : list Actor) : Prop :=
  forall i a, l !! i = Some a ->
    exists a1, l1 !! i = Some a1 /\ keeps a a1 /\
      (text_contents a1 = text_contents a \/
       exists b facts,
         actor_name a = b +:+ "-label" /\ db_get database b = Some facts /\
         text_contents a1 = Some (name facts)).

(** ** What is known of a construction *)

(** A suspended construction carries the record of its body and the path
    made from it, and its label node is the actor of that name. *)
Record suspended_from (database : Database) (l : list Actor) (s : Suspended) : Prop := {
  sf_facts : db_get database (s_bodyName s) = Some (s_facts s);
  sf_uri : s_uri s = model_uri (s_bodyName s) (s_facts s);
  sf_label : actor_name <$> l !! s_label s = Some (s_bodyName s +:+ "-label")
}.

(** The label and the model of a registered body, as [createBody] made
    them. *)
Record as_built (h : Host) (b : string) (facts : DatabaseRecord)
    (l : list Actor) (cb : CelestialBody.t) : Prop := {
  ab_label :
    exists a, l !! CelestialBody.label cb = Some a /\
      actor_name a = b +:+ "-label" /\ text_contents a = Some (name facts);
  ab_model :
    exists m p, l !! CelestialBody.model cb = Some m /\
      actor_name m = b +:+ "-body" /\
      local_scale m = scaleValue h (diameter facts) /\
      local_rotation m =
        Some (RotationLiteral (modelrotationxAxis facts) (modelrotationyAxis facts)
                (modelrotationzAxis facts)) /\
      collider_radius m = Some 0%float /\ has_button m = true /\
      prefab m = Some p /\ is_prefab p = true /\
      source_uri p = Some (model_uri b facts)
}.

(** What every reachable state knows about its constructions. *)
Record Built (h : Host) (database : Database) (st : State) : Prop := {
  bt_awaiting : forall s, s ∈ awaiting st -> suspended_from database (actors st) s;
  bt_bodies : forall b cb, celestialBodies st !! b = Some cb ->
    exists facts, db_get database b = Some facts /\ as_built h b facts (actors st) cb;
  bt_handlers : forall b, b ∈ handlers st ->
    exists facts, db_get database b = Some facts /\ name facts <> ""
}.

(** [st1] is [st] after a [createBody_finish] that returned, timer
    allocation included. *)
Definition finished_fully (h : Host) (bodyName : string) (facts : DatabaseRecord)
    (i p lb o0 o1 : nat) (a : Asset) (st st1 : State) : Prop :=
  finished h bodyName facts i p lb o0 o1 a st st1 /\
  next_timer st1 =
    (if bool_decide (name facts <> "") then S (next_timer st) else next_timer st).

(** The host accepts the five plain nodes of a body. *)
Definition accepted (h : Host) (bodyName : string) : bool :=
  forallb (fun n => bool_decide (Actor_Create_throws h n = None)) (node_names bodyName).

(** From [st] to [st1] no body was registered, no construction suspended
    and no handler added, and the actors are later versions of the ones
    before. *)
Definition calm (database : Database) (st st1 : State) : Prop :=
  celestialBodies st1 = celestialBodies st /\
  (forall s, s ∈ awaiting st1 -> s ∈ awaiting st) /\
  handlers st1 = handlers st /\
  actors_step database (actors st) (actors st1).

(** Nothing has been finished yet: the instance is as the constructor left
    it, but for actors, suspended constructions, loads and log lines. *)
Definition pristine (st : State) : Prop :=
  celestialBodies st = ∅ /\ timers st = [] /\ handlers st = [] /\ tweens st = [] /\
  containers st = [[]] /\ assets st = 0 /\ next_timer st = 0 /\
  animationLoopIterval st = None /\ childBoxTimeout st = None /\
  labelLoopInc st = 0%Z /\ gearLoopInc st = 0%Z.

(** Handlers are there for exactly the registered bodies with a display
    name. *)
Definition wired (database : Database) (st : State) : Prop :=
  forall b cb facts,
    celestialBodies st !! b = Some cb -> db_get database b = Some facts ->
    name facts <> "" -> b ∈ handlers st.

(** The values the bob counter takes, in the order it takes them. *)
Definition bob_phases : list Z := [0; 1; 2; 3; 4; 10; 9; 8; 7; 6]%Z.

(** The event is a tick of a live bob loop. *)
Definition bob_tick (st : State) (ev : Event) : bool :=
  match ev with
  | TimerFires id =>
      match lookup_timer id (timers st) with
      | Some t => match callback t with BobTick _ => true | _ => false end
      | None => false
      end
  | _ => false
  end.

(** ** Timer handles *)

(** The handles in [l] are distinct and below [n], the next handle the
    host hands out: no handle is ever reused. *)
Definition fresh_list (l : list (nat * Timer)) (n : nat) : Prop :=
  NoDup l.*1 /\ forall id, id ∈ l.*1 -> id < n.

Definition timers_fresh (st : State) : Prop := fresh_list (timers st) (next_timer st).

(** The handle stored in [animationLoopIterval] is that of a live bob
    loop. *)
Definition stored_loop_live (st : State) : bool :=
  match animationLoopIterval st with
  | Some id =>
      match lookup_timer id (timers st) with
      | Some t => match callback t with BobTick _ => true | _ => false end
      | None => false
      end
  | None => false
  end.

(** ** Bodies are built once *)

(** No two suspended constructions are for the same body, and none is for
    a body already registered. *)
Definition pending_fresh (st : State) : Prop :=
  NoDup (s_bodyName <$> awaiting st) /\
  forall s, s ∈ awaiting st -> celestialBodies st !! s_bodyName s = None.

(** Every key of the database is registered or has its construction
    suspended. *)
Definition all_attempted (database : Database) (st : State) : Prop :=
  forall k, k ∈ Object_keys database -> attempted k st.

(** The number of loads that settle in the course of [evs] from [st]: the
    events [LoadSettled k] that find a suspended construction at place [k]
    of [awaiting]. *)
Fixpoint settles (h : Host) (evs : list Event) (st : State) : nat :=
  match evs with
  | [] => 0
  | ev :: evs =>
      match ev with
      | LoadSettled k => match awaiting st !! k with Some _ => 1 | None => 0 end
      | _ => 0
      end + settles h evs (step h ev st).1
  end.

(** Each place of [ks] is that of a load still outstanding at its turn,
    [n] loads being outstanding at first: an order in which [length ks]
    loads can settle. *)
Fixpoint outstanding (n : nat) (ks : list nat) : bool :=
  match ks with
  | [] => true
  | k :: ks => (k <? n) && outstanding (n - 1) ks
  end.

(** A host that accepts every actor and answers every load with a
    prefab. *)
Definition obliging (h : Host) : Prop :=
  (forall n, Actor_Create_throws h n = None) /\
  forall uri, exists units a,
    loadGltf_reply h uri = inr units /\
    List.find is_prefab (gltf_assets uri units) = Some a.

(** ** The log *)

(** A line the [catch] clause of [createBody] writes for a body of the
    database: the host refused an actor or the load, or the loaded file had
    no prefab. *)
Definition logged_failure (database : Database) (line : string) : Prop :=
  exists bodyName e,
    is_Some (db_get database bodyName) /\ line = failure_line bodyName e /\
    ((exists msg, e = HostError msg) \/ e = undefined_error "prefab").

(** * Process entry: [started] and [startedImpl] *)

(** [Array.prototype.join()], with its default separator. *)
Definition Array_join (l : list string) : string := String.concat "," l.

(** [String.prototype.includes] *)
Fixpoint String_includes (s searchString : string) : bool :=
  if String.prefix searchString s then true
  else
    match s with
    | EmptyString => false
    | String _ rest => String_includes rest searchString
    end.

(** [startedImpl] *)
Definition startedImpl (h : Host) (database : Database) : State -> State :=
  createSolarSystem h database.

(** The instance once [started] has returned: [startedImpl] has run, or is
    scheduled to run after [delay] milliseconds. *)
Inductive Instance :=
| Waiting (delay : Z) (st : State)
| Live (st : State).

(** [started] *)
Definition SolarSystem_started (h : Host) (database : Database)
    (execArgv : list string) (st : State) : Instance :=
  let delay := 1000%Z in
  let argv := Array_join execArgv in
  let isDebug := String_includes argv "inspect" || String_includes argv "debug" in
  if isDebug then Waiting delay st else Live (startedImpl h database st).

(** The scheduled [startedImpl] runs. *)
Definition delay_over (h : Host) (database : Database) (i : Instance) : Instance :=
  match i with
  | Waiting _ st => Live (startedImpl h database st)
  | Live st => Live st
  end.

(** [searchString] occurs in [s]. *)
Definition occurs_in (searchString s : string) : Prop :=
  exists before after, s = before +:+ searchString +:+ after.

(** The separator [join] puts between the arguments. *)
Definition comma : Ascii.ascii := Ascii.ascii_of_nat 44.

Fixpoint no_comma (s : string) : bool :=
  match s with
  | EmptyString => true
  | String c rest => negb (Ascii.eqb c comma) && no_comma rest
  end.

(** * The gear loop, had it been started *)

(** The state a gear tick leads to: the model turned by [dx] about its x
    axis and the counter set to [c]. *)
Definition geared (cb : CelestialBody.t) (dx : float -> float) (c : Z) (st : State) : State :=
  set_gearLoopInc c (update_actor (CelestialBody.model cb) (with_rotation_x dx) st).

(** The values the gear counter would take, in the order it would take
    them. *)
Definition gear_phases : list Z :=
  [0; 1; 2; 3; 4; 5; 6; 7; 8; 9; 20; 19; 18; 17; 16; 15; 14; 13; 12; 11]%Z.

(** * [Math.pow] and the cube root *)

(** The cases of [Math.pow(base, 1 / 3)] that ECMAScript fixes exactly
    (Number::exponentiate): a base of +0 or -0 gives +0, and a negative
    finite base gives NaN, the exponent not being an integer.  For every
    other base the result is implementation-approximated. *)
Definition ECMAScript_pow (h : Host) : Prop :=
  Math_pow h 0 (1 / 3) = 0%float /\
  Math_pow h (-0) (1 / 3) = 0%float /\
  forall d, (d <? 0)%float = true -> d <> neg_infinity -> Math_pow h d (1 / 3) = nan.

(** The scale as the specification words it: the cube root of the diameter
    divided by 25, halved, on each axis.  [r] is a cube root of [d] when
    its cube is [d]. *)
Definition is_cube_root (r d : float) : Prop := (r * r * r)%float = d.

Definition cube_root_scale (r : float) : Vector3 :=
  {| vx := (r / 25 / 2)%float; vy := (r / 25 / 2)%float; vz := (r / 25 / 2)%float |}.

Definition nan3 : Vector3 := {| vx := nan; vy := nan; vz := nan |}.

(** A database with one body of diameter -8. *)
Definition minus_record : DatabaseRecord := body_record "Minus" (-8) true.

Definition minus_db : Database := [("minus", minus_record)].

(** * Building a body again *)



(** * The variant (src/app - Copy.ts)

    The second copy of the [SolarSystem] class.  It differs from the first
    in [createBody]: the position node sits at the origin and the label at
    (0, 0.4, 0) whatever the record says, the model is always loaded from
    the glb file of the key, has no rotation and a collider of radius 0.5;
    the hover handlers are closures over the body's own name and position
    node; there is no click handler, no popup and no gear; and every body
    gets its bob loop.  It has one counter, [loopInc], and one asset
    container. *)

Module Copy.

(** The closures [createBody] hands to [onHover]: they capture [bodyName]
    and [position]. *)
Record Hover := {
  h_bodyName : string;
  h_position : nat
}.

(** The closure [animationPlayPause] hands to [setInterval] captures
    [celestialBody]. *)
Record Interval := {
  delay : Z;
  celestialBody : option CelestialBody.t
}.

(** A [createBody] call suspended at [await this.assets.loadGltf(...)]. *)
Record Suspended := {
  s_bodyName : string;
  s_facts : DatabaseRecord;
  s_inclination : nat;
  s_position : nat;
  s_label : nat;
  s_obliquity0 : nat;
  s_obliquity1 : nat;
  s_uri : string
}.

(** The instance fields and the state of the host they refer to.  [assets]
    holds the assets of the one container; [hovers] maps the actor with the
    button behaviour to its closures. *)
Record State := {
  (* this.* *)
  celestialBodies : gmap string CelestialBody.t;
  assets : list Asset;
  loopInc : Z;
  animationLoopIterval : option nat;
  (* host *)
  actors : list Actor;
  timers : list (nat * Interval);
  next_timer : nat;
  awaiting : list Suspended;
  hovers : list (nat * Hover);
  tweens : list Tween;
  log : list string;
  loads : list string
}.

(** ** Field updates *)

Definition set_celestialBodies (v : gmap string CelestialBody.t) (st : State) : State :=
  {| celestialBodies := v; assets := assets st; loopInc := loopInc st;
     animationLoopIterval := animationLoopIterval st; actors := actors st;
     timers := timers st; next_timer := next_timer st; awaiting := awaiting st;
     hovers := hovers st; tweens := tweens st; log := log st; loads := loads st |}.

Definition set_assets (v : list Asset) (st : State) : State :=
  {| celestialBodies := celestialBodies st; assets := v; loopInc := loopInc st;
     animationLoopIterval := animationLoopIterval st; actors := actors st;
     timers := timers st; next_timer := next_timer st; awaiting := awaiting st;
     hovers := hovers st; tweens := tweens st; log := log st; loads := loads st |}.

Definition set_loopInc (v : Z) (st : State) : State :=
  {| celestialBodies := celestialBodies st; assets := assets st; loopInc := v;
     animationLoopIterval := animationLoopIterval st; actors := actors st;
     timers := timers st; next_timer := next_timer st; awaiting := awaiting st;
     hovers := hovers st; tweens := tweens st; log := log st; loads := loads st |}.

Definition set_animationLoopIterval (v : option nat) (st : State) : State :=
  {| celestialBodies := celestialBodies st; assets := assets st; loopInc := loopInc st;
     animationLoopIterval := v; actors := actors st; timers := timers st;
     next_timer := next_timer st; awaiting := awaiting st; hovers := hovers st;
     tweens := tweens st; log := log st; loads := loads st |}.

Definition set_actors (v : list Actor) (st : State) : State :=
  {| celestialBodies := celestialBodies st; assets := assets st; loopInc := loopInc st;
     animationLoopIterval := animationLoopIterval st; actors := v; timers := timers st;
     next_timer := next_timer st; awaiting := awaiting st; hovers := hovers st;
     tweens := tweens st; log := log st; loads := loads st |}.

Definition set_timers (v : list (nat * Interval)) (st : State) : State :=
  {| celestialBodies := celestialBodies st; assets := assets st; loopInc := loopInc st;
     animationLoopIterval := animationLoopIterval st; actors := actors st; timers := v;
     next_timer := next_timer st; awaiting := awaiting st; hovers := hovers st;
     tweens := tweens st; log := log st; loads := loads st |}.

Definition set_next_timer (v : nat) (st : State) : State :=
  {| celestialBodies := celestialBodies st; assets := assets st; loopInc := loopInc st;
     animationLoopIterval := animationLoopIterval st; actors := actors st;
     timers := timers st; next_timer := v; awaiting := awaiting st; hovers := hovers st;
     tweens := tweens st; log := log st; loads := loads st |}.

Definition set_awaiting (v : list Suspended) (st : State) : State :=
  {| celestialBodies := celestialBodies st; assets := assets st; loopInc := loopInc st;
     animationLoopIterval := animationLoopIterval st; actors := actors st;
     timers := timers st; next_timer := next_timer st; awaiting := v; hovers := hovers st;
     tweens := tweens st; log := log st; loads := loads st |}.

Definition set_hovers (v : list (nat * Hover)) (st : State) : State :=
  {| celestialBodies := celestialBodies st; assets := assets st; loopInc := loopInc st;
     animationLoopIterval := animationLoopIterval st; actors := actors st;
     timers := timers st; next_timer := next_timer st; awaiting := awaiting st;
     hovers := v; tweens := tweens st; log := log st; loads := loads st |}.

Definition set_tweens (v : list Tween) (st : State) : State :=
  {| celestialBodies := celestialBodies st; assets := assets st; loopInc := loopInc st;
     animationLoopIterval := animationLoopIterval st; actors := actors st;
     timers := timers st; next_timer := next_timer st; awaiting := awaiting st;
     hovers := hovers st; tweens := v; log := log st; loads := loads st |}.

Definition set_log (v : list string) (st : State) : State :=
  {| celestialBodies := celestialBodies st; assets := assets st; loopInc := loopInc st;
     animationLoopIterval := animationLoopIterval st; actors := actors st;
     timers := timers st; next_timer := next_timer st; awaiting := awaiting st;
     hovers := hovers st; tweens := tweens st; log := v; loads := loads st |}.

Definition set_loads (v : list string) (st : State) : State :=
  {| celestialBodies := celestialBodies st; assets := assets st; loopInc := loopInc st;
     animationLoopIterval := animationLoopIterval st; actors := actors st;
     timers := timers st; next_timer := next_timer st; awaiting := awaiting st;
     hovers := hovers st; tweens := tweens st; log := log st; loads := v |}.

Definition update_actor (id : nat) (f : Actor -> Actor) (st : State) : State :=
  set_actors (alter f id (actors st)) st.

(** ** Computations that may throw *)

Definition M (A : Type) : Type := State -> State * (Error + A).

Definition ret {A} (a : A) : M A := fun st => (st, inr a).

Definition throw {A} (e : Error) : M A := fun st => (st, inl e).

Definition bind {A B} (m : M A) (k : A -> M B) : M B :=
  fun st =>
    match m st with
    | (st1, inl e) => (st1, inl e)
    | (st1, inr a) => k a st1
    end.

Definition modify (f : State -> State) : M unit := fun st => (f st, inr tt).

Definition gets {A} (f : State -> A) : M A := fun st => (st, inr (f st)).

Declare Scope copy_scope.
Notation "x <- m ;; k" := (bind m (fun x => k))
  (at level 100, m at next level, right associativity) : copy_scope.
Notation "m ;;; k" := (bind m (fun _ => k))
  (at level 100, right associativity) : copy_scope.
Local Open Scope copy_scope.

Definition deref {A} (o : option A) (what : string) : M A :=
  match o with
  | Some a => ret a
  | None => throw (TypeError ("Cannot read property '" +:+ what +:+ "' of undefined"))
  end.

(** ** Host operations *)

Definition Actor_Create (h : Host) (a : Actor) : M nat :=
  fun st =>
    match Actor_Create_throws h (actor_name a) with
    | Some msg => (st, inl (HostError msg))
    | None => (set_actors (actors st ++ [a]) st, inr (length (actors st)))
    end.

Definition setInterval (celestialBody : option CelestialBody.t) (ms : Z) : M nat :=
  fun st =>
    let id := next_timer st in
    (set_next_timer (S id)
       (set_timers (timers st ++ [(id, {| delay := ms; celestialBody := celestialBody |})])
          st),
     inr id).

Definition remove_timer (id : nat) (l : list (nat * Interval)) : list (nat * Interval) :=
  filter (fun p => p.1 <> id) l.

Definition clearInterval (handle : option nat) : M unit :=
  modify (fun st =>
    match handle with
    | Some id => set_timers (remove_timer id (timers st)) st
    | None => st
    end).

Fixpoint lookup_timer (id : nat) (l : list (nat * Interval)) : option Interval :=
  match l with
  | [] => None
  | (i, t) :: rest => if bool_decide (i = id) then Some t else lookup_timer id rest
  end.

Fixpoint lookup_hover (actor : nat) (l : list (nat * Hover)) : option Hover :=
  match l with
  | [] => None
  | (a, c) :: rest => if bool_decide (a = actor) then Some c else lookup_hover actor rest
  end.

Definition Animation_AnimateTo (actor : nat) (d : Destination) (duration : float) : M unit :=
  modify (fun st => set_tweens (tweens st ++ [AnimateTo actor d duration]) st).

Definition log_info (facility message : string) : M unit :=
  modify (fun st => set_log (log st ++ [facility +:+ ": " +:+ message]) st).

(** ** The application *)

Definition model_uri (bodyName : string) : string := "assets/" +:+ bodyName +:+ ".glb".

(** The actor description passed to [MRE.Actor.CreateFromPrefab]. *)
Definition model_actor (h : Host) (bodyName : string) (facts : DatabaseRecord)
    (obliquity1 : nat) (p : Asset) : Actor :=
  {| actor_name := bodyName +:+ "-body";
     parentId := Some obliquity1;
     app_rotation := None;
     local_position := zero3;
     local_rotation := None;
     local_scale := scaleValue h (diameter facts);
     prefab := Some p;
     collider_radius := Some 0.5%float;
     appearance_enabled := true;
     text_contents := None;
     has_button := false |}.

(** [animationPlayPause] *)
Definition animationPlayPause (bodyName : string) : M unit :=
  celestialBody <- gets (fun st => celestialBodies st !! bodyName);;
  id <- setInterval celestialBody 100;;
  modify (set_animationLoopIterval (Some id)).

(** The closure run by the bob loop every 100 ms. *)
Definition loop_tick (celestialBody : option CelestialBody.t) : M unit :=
  c <- gets loopInc;;
  if (c <? 5)%Z then
    (cb <- deref celestialBody "label";;
     modify (update_actor (CelestialBody.label cb)
               (with_position_y (fun y => (y + 0.01)%float)));;;
     modify (fun st => set_loopInc (loopInc st + 1)%Z st);;;
     c1 <- gets loopInc;;
     if (c1 =? 5)%Z then modify (set_loopInc 10%Z) else ret tt)
  else
    (cb <- deref celestialBody "label";;
     modify (update_actor (CelestialBody.label cb)
               (with_position_y (fun y => (y - 0.01)%float)));;;
     modify (fun st => set_loopInc (loopInc st - 1)%Z st);;;
     c1 <- gets loopInc;;
     if (c1 =? 5)%Z then modify (set_loopInc 0%Z) else ret tt).

(** The two closures passed to [buttonBehavior.onHover]. *)
Definition onHoverEnter (c : Hover) : M unit :=
  handle <- gets animationLoopIterval;;
  clearInterval handle;;;
  Animation_AnimateTo (h_position c) (LocalPositionY 0.05) 1.

Definition onHoverExit (c : Hover) : M unit :=
  animationPlayPause (h_bodyName c);;;
  Animation_AnimateTo (h_position c) (LocalPositionY 0) 1.

(** ** [createBody] *)

(** The part of the [try] block that creates the five plain nodes. *)
Definition create_nodes (h : Host) (bodyName : string) (facts : DatabaseRecord)
    : M (nat * nat * nat * nat * nat) :=
  inclination <- Actor_Create h
    (with_app_rotation
       (RotationAxis_Forward (inclination facts * DegreesToRadians)%float)
       (new_actor (bodyName +:+ "-inclination") None));;
  position <- Actor_Create h
    (with_local_position {| vx := 0; vy := 0; vz := 0 |}
       (new_actor (bodyName +:+ "-position") (Some inclination)));;
  label <- Actor_Create h
    (with_local_position {| vx := 0; vy := 0.4; vz := 0 |}
       (new_actor (bodyName +:+ "-label") (Some position)));;
  obliquity0 <- Actor_Create h (new_actor (bodyName +:+ "-obliquity0") (Some position));;
  obliquity1 <- Actor_Create h
    (with_local_rotation
       (RotationAxis_Forward (obliquity facts * DegreesToRadians)%float)
       (new_actor (bodyName +:+ "-obliquity1") (Some obliquity0)));;
  ret (inclination, position, label, obliquity0, obliquity1).

(** The rest of the [try] block, from [CreateFromPrefab] on. *)
Definition createBody_finish (h : Host) (bodyName : string) (facts : DatabaseRecord)
    (inclination position label obliquity0 obliquity1 : nat) (p : Asset) : M unit :=
  model <- Actor_Create h (model_actor h bodyName facts obliquity1 p);;
  modify (update_actor model with_button);;;
  modify (fun st =>
    set_hovers
      (hovers st ++ [(model, {| h_bodyName := bodyName; h_position := position |})]) st);;;
  modify (update_actor label (with_text (name facts)));;;
  modify (fun st =>
    set_celestialBodies
      (<[bodyName := CelestialBody.mk inclination position obliquity0 obliquity1 model label]>
         (celestialBodies st)) st);;;
  animationPlayPause bodyName.

(** The [try] block up to the first suspension point. *)
Definition createBody_try (h : Host) (bodyName : string) (facts : DatabaseRecord)
    : M Progress :=
  nodes <- create_nodes h bodyName facts;;
  let '(inclination, position, label, obliquity0, obliquity1) := nodes in
  found <- gets (fun st => find_prefab (model_uri bodyName) (assets st));;
  match found with
  | Some p =>
      createBody_finish h bodyName facts inclination position label obliquity0 obliquity1 p;;;
      ret Done
  | None =>
      modify (fun st => set_loads (loads st ++ [model_uri bodyName]) st);;;
      modify (fun st =>
        set_awaiting
          (awaiting st ++
             [{| s_bodyName := bodyName; s_facts := facts; s_inclination := inclination;
                 s_position := position; s_label := label; s_obliquity0 := obliquity0;
                 s_obliquity1 := obliquity1; s_uri := model_uri bodyName |}]) st);;;
      ret Await
  end.

(** The [try] block after the load has settled. *)
Definition createBody_continue (h : Host) (s : Suspended) : M unit :=
  match loadGltf_reply h (s_uri s) with
  | inl msg => throw (HostError msg)
  | inr units =>
      let modelData := gltf_assets (s_uri s) units in
      modify (fun st => set_assets (assets st ++ modelData) st);;;
      a <- deref (List.find is_prefab modelData) "prefab";;
      createBody_finish h (s_bodyName s) (s_facts s) (s_inclination s) (s_position s)
        (s_label s) (s_obliquity0 s) (s_obliquity1 s) a
  end.

(** The [catch] clause. *)
Definition createBody_catch (bodyName : string) (e : Error) : State -> State :=
  fun st =>
    (log_info "app" ("createBody failed " +:+ bodyName +:+ ", " +:+ Error_toString e) st).1.

Definition createBody (h : Host) (database : Database) (bodyName : string)
    : State -> State * Promise :=
  fun st =>
    match db_get database bodyName with
    | None => (st, Rejected (TypeError "Cannot read property 'diameter' of undefined"))
    | Some facts =>
        match createBody_try h bodyName facts st with
        | (st1, inl e) => (createBody_catch bodyName e st1, Resolved)
        | (st1, inr Done) => (st1, Resolved)
        | (st1, inr Await) => (st1, Pending)
        end
    end.

Definition createBody_resume (h : Host) (s : Suspended) : State -> State * Promise :=
  fun st =>
    match createBody_continue h s st with
    | (st1, inl e) => (createBody_catch (s_bodyName s) e st1, Resolved)
    | (st1, inr _) => (st1, Resolved)
    end.

(** [createSolarSystem]: the promises are dropped. *)
Definition createSolarSystem (h : Host) (database : Database) : State -> State :=
  fun st => fold_left (fun s bodyName => (createBody h database bodyName s).1)
              (Object_keys database) st.

(** The instance right after the constructor. *)
Definition init_state : State :=
  {| celestialBodies := ∅; assets := []; loopInc := 0; animationLoopIterval := None;
     actors := []; timers := []; next_timer := 0; awaiting := []; hovers := [];
     tweens := []; log := []; loads := [] |}.

Definition started (h : Host) (database : Database) : State :=
  createSolarSystem h database init_state.

(** ** The event loop *)

(** Hover events are addressed to the actor under the pointer. *)
Inductive Event :=
| LoadSettled (k : nat)
| TimerFires (id : nat)
| HoverEnter (actor : nat)
| HoverExit (actor : nat).

(** One turn of the event loop.  The second component is the exception that
    escapes the callback, if any; an event nothing listens to is dropped. *)
Definition step (h : Host) (ev : Event) (st : State) : State * option Error :=
  let run (m : M unit) (s : State) : State * option Error :=
    match m s with
    | (s1, inl e) => (s1, Some e)
    | (s1, inr _) => (s1, None)
    end in
  match ev with
  | LoadSettled k =>
      match awaiting st !! k with
      | Some s => ((createBody_resume h s (set_awaiting (delete k (awaiting st)) st)).1, None)
      | None => (st, None)
      end
  | TimerFires id =>
      match lookup_timer id (timers st) with
      | Some t => run (loop_tick (celestialBody t)) st
      | None => (st, None)
      end
  | HoverEnter a =>
      match lookup_hover a (hovers st) with
      | Some c => run (onHoverEnter c) st
      | None => (st, None)
      end
  | HoverExit a =>
      match lookup_hover a (hovers st) with
      | Some c => run (onHoverExit c) st
      | None => (st, None)
      end
  end.

Definition run_events (h : Host) (evs : list Event) (st : State) : State :=
  fold_left (fun s ev => (step h ev s).1) evs st.

Inductive reachable (h : Host) (database : Database) : State -> Prop :=
| reachable_started : reachable h database (started h database)
| reachable_step st ev :
    reachable h database st -> reachable h database (step h ev st).1.

(** The number of loads that settle in the course of [evs] from [st]: the
    events [LoadSettled k] that find a suspended construction at place [k]
    of [awaiting]. *)
Fixpoint settles (h : Host) (evs : list Event) (st : State) : nat :=
  match evs with
  | [] => 0
  | ev :: evs =>
      match ev with
      | LoadSettled k => match awaiting st !! k with Some _ => 1 | None => 0 end
      | _ => 0
      end + settles h evs (step h ev st).1
  end.

(** The pointer enters or leaves a model. *)
Definition is_hover (ev : Event) : bool :=
  match ev with
  | HoverEnter _ | HoverExit _ => true
  | _ => false
  end.

(** ** Specification vocabulary *)

(** The closures of the model hang the model under the position node they
    captured: model, obliquity1, obliquity0, position. *)
Definition hover_ok (l : list Actor) (model : nat) (c : Hover) : Prop :=
  exists o0 o1,
    parent_of l model = Some (Some o1) /\ parent_of l o1 = Some (Some o0) /\
    parent_of l o0 = Some (Some (h_position c)).

(** The state after a [createBody_finish] that returned: the model is
    created at the next free handle with its button behaviour and its two
    hover closures, the label has its text, the body is registered and its
    bob loop runs under the next timer handle, which is stored. *)
Definition finished (h : Host) (bodyName : string) (facts : DatabaseRecord)
    (i p lb o0 o1 : nat) (a : Asset) (st : State) : State :=
  let model := length (actors st) in
  let cb := CelestialBody.mk i p o0 o1 model lb in
  set_animationLoopIterval (Some (next_timer st))
    (set_next_timer (S (next_timer st))
       (set_timers
          (timers st ++ [(next_timer st, {| delay := 100; celestialBody := Some cb |})])
          (set_celestialBodies (<[bodyName := cb]> (celestialBodies st))
             (set_actors
                (alter (with_text (name facts)) lb
                   (alter with_button model
                      (actors st ++ [model_actor h bodyName facts o1 a])))
                (set_hovers
                   (hovers st ++ [(model, {| h_bodyName := bodyName; h_position := p |})])
                   st))))).

(** The entry of [awaiting] a suspended [createBody] leaves. *)
Definition suspension (bodyName : string) (facts : DatabaseRecord)
    (i p lb o0 o1 : nat) : Suspended :=
  {| s_bodyName := bodyName; s_facts := facts; s_inclination := i; s_position := p;
     s_label := lb; s_obliquity0 := o0; s_obliquity1 := o1; s_uri := model_uri bodyName |}.

(** The invariant of the running variant. *)
Record Inv (st : State) : Prop := {
  inv_bodies : forall n cb, celestialBodies st !! n = Some cb ->
    chain_ok (actors st) cb /\
    lookup_hover (CelestialBody.model cb) (hovers st) =
      Some {| h_bodyName := n; h_position := CelestialBody.position cb |};
  inv_awaiting : forall s, s ∈ awaiting st ->
    nodes_ok (actors st) (s_inclination s) (s_position s) (s_label s)
      (s_obliquity0 s) (s_obliquity1 s);
  inv_timers : forall id t, (id, t) ∈ timers st ->
    delay t = 100%Z /\ exists cb, celestialBody t = Some cb /\ chain_ok (actors st) cb;
  inv_hovers : forall a c, (a, c) ∈ hovers st ->
    a < length (actors st) /\ hover_ok (actors st) a c /\
    is_Some (celestialBodies st !! h_bodyName c);
  inv_loopInc : (0 <= loopInc st <= 10)%Z
}.

(** Every actor of [l] is still there in [l1], kept in the sense of
    [keeps]. *)
Definition actors_kept (l l1 : list Actor) : Prop :=
  forall i a, l !! i = Some a -> exists a1, l1 !! i = Some a1 /\ keeps a a1.

(** The model of body [b] as the variant makes it. *)
Definition model_as_built (h : Host) (b : string) (facts : DatabaseRecord) (m : Actor)
    : Prop :=
  actor_name m = b +:+ "-body" /\
  local_scale m = scaleValue h (diameter facts) /\
  local_rotation m = None /\ collider_radius m = Some 0.5%float /\
  has_button m = true /\ appearance_enabled m = true /\
  exists p, prefab m = Some p /\ is_prefab p = true /\ source_uri p = Some (model_uri b).

(** What every reachable state of the variant knows about its
    constructions. *)
Record Built (h : Host) (database : Database) (st : State) : Prop := {
  bt_awaiting : forall s, s ∈ awaiting st ->
    db_get database (s_bodyName s) = Some (s_facts s) /\
    s_uri s = model_uri (s_bodyName s);
  bt_bodies : forall b cb, celestialBodies st !! b = Some cb ->
    exists facts m,
      db_get database b = Some facts /\
      actors st !! CelestialBody.model cb = Some m /\ model_as_built h b facts m
}.

(** The demo scene of the variant once its three loads have settled, in
    request order, and the model, position node and closures of its gear. *)
Definition demo_running : State :=
  run_events quiet_host [LoadSettled 0; LoadSettled 0; LoadSettled 0]
    (started quiet_host demo_db).

Definition demo_gear_closures : Hover := {| h_bodyName := "only_gear"; h_position := 6 |}.

End Copy.

(** * The two files side by side *)

(** The first name of [names] the host refuses, with its place and the
    message of the refusal. *)
Fixpoint first_refused (h : Host) (names : list string) : option (nat * string) :=
  match names with
  | [] => None
  | n :: rest =>
      match Actor_Create_throws h n with
      | Some msg => Some (0, msg)
      | None => (fun r : nat * string => (S r.1, r.2)) <$> first_refused h rest
      end
  end.

(** The five plain nodes [createBody] creates from handle [n] on, in
    src/app.ts and in the variant. *)
Definition five_nodes (bodyName : string) (facts : DatabaseRecord) (n : nat) : list Actor :=
  [with_app_rotation (RotationAxis_Forward (inclination facts * DegreesToRadians)%float)
     (new_actor (bodyName +:+ "-inclination") None);
   with_local_position
     {| vx := modelpositionxAxis facts; vy := modelpositionyAxis facts;
        vz := modelpositionzAxis facts |}
     (new_actor (bodyName +:+ "-position") (Some n));
   with_local_position
     {| vx := labelpositionxAxis facts; vy := labelpositionyAxis facts;
        vz := labelpositionzAxis facts |}
     (new_actor (bodyName +:+ "-label") (Some (n + 1)));
   new_actor (bodyName +:+ "-obliquity0") (Some (n + 1));
   with_local_rotation (RotationAxis_Forward (obliquity facts * DegreesToRadians)%float)
     (new_actor (bodyName +:+ "-obliquity1") (Some (n + 3)))].

Definition copy_five_nodes (bodyName : string) (facts : DatabaseRecord) (n : nat)
    : list Actor :=
  [with_app_rotation (RotationAxis_Forward (inclination facts * DegreesToRadians)%float)
     (new_actor (bodyName +:+ "-inclination") None);
   with_local_position {| vx := 0; vy := 0; vz := 0 |}
     (new_actor (bodyName +:+ "-position") (Some n));
   with_local_position {| vx := 0; vy := 0.4; vz := 0 |}
     (new_actor (bodyName +:+ "-label") (Some (n + 1)));
   new_actor (bodyName +:+ "-obliquity0") (Some (n + 1));
   with_local_rotation (RotationAxis_Forward (obliquity facts * DegreesToRadians)%float)
     (new_actor (bodyName +:+ "-obliquity1") (Some (n + 3)))].

(** An actor without what the two files set differently: its local
    position and rotation, its collider and its visibility. *)
Definition plain (a : Actor) : Actor :=
  {| actor_name := actor_name a; parentId := parentId a; app_rotation := app_rotation a;
     local_position := zero3; local_rotation := None; local_scale := local_scale a;
     prefab := prefab a; collider_radius := None; appearance_enabled := true;
     text_contents := text_contents a; has_button := has_button a |}.

(** The same construction, suspended in both files. *)
Definition same_suspended (s : Suspended) (c : Copy.Suspended) : Prop :=
  s_bodyName s = Copy.s_bodyName c /\ s_facts s = Copy.s_facts c /\
  s_inclination s = Copy.s_inclination c /\ s_position s = Copy.s_position c /\
  s_label s = Copy.s_label c /\ s_obliquity0 s = Copy.s_obliquity0 c /\
  s_obliquity1 s = Copy.s_obliquity1 c /\ s_uri s = Copy.s_uri c.

(** A state of src/app.ts and a state of the variant show the same scene:
    the same actors under the same handles but for placement, collider and
    visibility, the same registry, the same constructions suspended, the
    same log and the same loads requested. *)
Record same_scene (st : State) (c : Copy.State) : Prop := {
  same_actors : plain <$> actors st = plain <$> Copy.actors c;
  same_bodies : celestialBodies st = Copy.celestialBodies c;
  same_awaiting : Forall2 same_suspended (awaiting st) (Copy.awaiting c);
  same_log : log st = Copy.log c;
  same_loads : loads st = Copy.loads c
}.

(** Every record of the database names the glb format. *)
Definition all_glb (database : Database) : Prop :=
  forall k facts, db_get database k = Some facts -> fileFormat facts = "glb".

(** * Lemmas *)

(** ** Rules for triples *)

Section Triples.

Context {A B : Type}.

Lemma triple_ret (a : A) (P : State -> Prop) Q E :
  (forall st, P st -> Q a st) -> triple P (ret a) Q E.
Proof. intros H st HP. simpl. auto. Qed.

Lemma triple_throw e (P : State -> Prop) (Q : A -> State -> Prop) (E : State -> Prop) :
  (forall st, P st -> E st) -> triple P (throw e) Q E.
Proof. intros H st HP. simpl. auto. Qed.

Lemma triple_bind (m : M A) (k : A -> M B) P R Q E :
  triple P m R E -> (forall a, triple (R a) (k a) Q E) -> triple P (bind m k) Q E.
Proof.
  intros Hm Hk st HP. unfold bind. specialize (Hm st HP).
  destruct (m st) as [st1 [e | a]]; [exact Hm |]. apply Hk, Hm.
Qed.

Lemma triple_modify f (P : State -> Prop) Q E :
  (forall st, P st -> Q tt (f st)) -> triple P (modify f) Q E.
Proof. intros H st HP. simpl. auto. Qed.

Lemma triple_gets (f : State -> A) (P : State -> Prop) Q E :
  (forall st, P st -> Q (f st) st) -> triple P (gets f) Q E.
Proof. intros H st HP. simpl. auto. Qed.

Lemma triple_weaken (m : M A) (P P1 : State -> Prop) (Q Q1 : A -> State -> Prop)
    (E E1 : State -> Prop) :
  triple P1 m Q1 E1 ->
  (forall st, P st -> P1 st) -> (forall a st, Q1 a st -> Q a st) ->
  (forall st, E1 st -> E st) ->
  triple P m Q E.
Proof.
  intros H HP HQ HE st Hst. specialize (H st (HP st Hst)).
  destruct (m st) as [st1 [e | a]]; auto.
Qed.

Lemma triple_deref (o : option A) what (P : State -> Prop) Q (E : State -> Prop) :
  (forall a st, o = Some a -> P st -> Q a st) ->
  (forall st, o = None -> P st -> E st) ->
  triple P (deref o what) Q E.
Proof. intros HS HN st HP. destruct o; simpl; auto. Qed.

End Triples.

(** ** Actor stores *)

Lemma actors_grow_refl l : actors_grow l l.
Proof. intros i p H. exact H. Qed.

Lemma actors_grow_trans l1 l2 l3 :
  actors_grow l1 l2 -> actors_grow l2 l3 -> actors_grow l1 l3.
Proof. intros H12 H23 i p H. auto. Qed.

Lemma actors_grow_app l a : actors_grow l (l ++ [a]).
Proof.
  intros i p H. unfold parent_of in *.
  destruct (l !! i) as [x |] eqn:Hx; [| discriminate].
  by rewrite (lookup_app_l_Some _ _ _ _ Hx).
Qed.

Lemma actors_grow_alter l i f :
  (forall a, parentId (f a) = parentId a) -> actors_grow l (alter f i l).
Proof.
  intros Hf j p H. unfold parent_of in *.
  destruct (decide (i = j)) as [-> |].
  - rewrite list_lookup_alter_eq. destruct (l !! j); [| discriminate].
    simpl in *. by rewrite Hf.
  - by rewrite list_lookup_alter_ne.
Qed.

Lemma actors_grow_length l l1 i :
  actors_grow l l1 -> i < length l -> i < length l1.
Proof.
  intros H Hi. destruct (lookup_lt_is_Some_2 l i Hi) as [x Hx].
  specialize (H i (parentId x)). unfold parent_of in H. rewrite Hx in H.
  specialize (H eq_refl). destruct (l1 !! i) eqn:E; [| discriminate].
  eauto using lookup_lt_Some.
Qed.

Lemma parent_of_lt l i p : parent_of l i = Some p -> i < length l.
Proof.
  unfold parent_of. destruct (l !! i) eqn:E; [| discriminate].
  intros _. eauto using lookup_lt_Some.
Qed.

Lemma parent_of_last l a : parent_of (l ++ [a]) (length l) = Some (parentId a).
Proof. unfold parent_of. by rewrite list_lookup_middle. Qed.

Lemma chain_ok_grow l l1 cb : actors_grow l l1 -> chain_ok l cb -> chain_ok l1 cb.
Proof. intros H [C0 C1 C2 C3 C4 C5 C6]. constructor; auto. Qed.

Lemma nodes_ok_grow l l1 i p lb o0 o1 :
  actors_grow l l1 -> nodes_ok l i p lb o0 o1 -> nodes_ok l1 i p lb o0 o1.
Proof.
  intros H [N0 N1 N2 N3 N4 N5]. constructor; auto.
  repeat split; try tauto. apply (actors_grow_length l); tauto.
Qed.

Lemma timer_ok_grow l l1 t : actors_grow l l1 -> timer_ok l t -> timer_ok l1 t.
Proof.
  unfold timer_ok. intros H. destruct (callback t) as [[cb |] | |]; auto.
  intros (? & ? & ?). eauto using chain_ok_grow.
Qed.

Lemma chain_ok_model l i p lb o0 o1 a :
  nodes_ok l i p lb o0 o1 -> parentId a = Some o1 ->
  chain_ok (l ++ [a]) (CelestialBody.mk i p o0 o1 (length l) lb).
Proof.
  intros [N0 N1 N2 N3 N4 N5] Ha. pose proof (actors_grow_app l a) as Hg.
  constructor; simpl; auto; try tauto.
  rewrite parent_of_last. by rewrite Ha.
Qed.

(** ** The invariant under field updates *)

Lemma Inv_set_actors st l1 :
  Inv st -> actors_grow (actors st) l1 -> Inv (set_actors l1 st).
Proof.
  intros [Hb Hw Ht Hh Hge Hl] Hg. constructor; simpl; auto.
  - intros n cb H. eauto using chain_ok_grow.
  - intros s H. eapply nodes_ok_grow; eauto. by apply Hw.
  - intros id t H. eauto using timer_ok_grow.
Qed.

Lemma Inv_update_actor st id f :
  (forall a, parentId (f a) = parentId a) -> Inv st -> Inv (update_actor id f st).
Proof. intros Hf H. apply Inv_set_actors; [done |]. by apply actors_grow_alter. Qed.

Lemma Inv_frame st st1 :
  Inv st ->
  celestialBodies st1 = celestialBodies st -> actors st1 = actors st ->
  awaiting st1 = awaiting st -> timers st1 = timers st ->
  handlers st1 = handlers st -> gearLoopInc st1 = gearLoopInc st ->
  labelLoopInc st1 = labelLoopInc st ->
  Inv st1.
Proof.
  intros [I1 I2 I3 I4 I5 I6] Hb Ha Hw Ht Hh Hg Hl.
  constructor; rewrite ?Hb, ?Ha, ?Hw, ?Ht, ?Hh, ?Hg, ?Hl; auto.
Qed.

Lemma Inv_frame_timers st st1 :
  Inv st ->
  celestialBodies st1 = celestialBodies st -> actors st1 = actors st ->
  awaiting st1 = awaiting st ->
  (forall id t, (id, t) ∈ timers st1 -> (id, t) ∈ timers st \/ timer_ok (actors st) t) ->
  handlers st1 = handlers st -> gearLoopInc st1 = gearLoopInc st ->
  labelLoopInc st1 = labelLoopInc st ->
  Inv st1.
Proof.
  intros [I1 I2 I3 I4 I5 I6] Hb Ha Hw Ht Hh Hg Hl.
  constructor; rewrite ?Hb, ?Ha, ?Hw, ?Hh, ?Hg, ?Hl; auto.
  intros id t H. destruct (Ht id t H); eauto.
Qed.

Lemma Inv_register st b cb :
  Inv st -> chain_ok (actors st) cb ->
  Inv (set_celestialBodies (<[b := cb]> (celestialBodies st)) st).
Proof.
  intros [I1 I2 I3 I4 I5 I6] Hcb. constructor; simpl; auto.
  - intros n cb1. rewrite lookup_insert. case_decide; [| by eauto].
    intros [= <-]. done.
  - intros b1 Hb1. rewrite lookup_insert. case_decide; eauto.
Qed.

Lemma Inv_add_timer st id t :
  Inv st -> timer_ok (actors st) t -> Inv (set_timers (timers st ++ [(id, t)]) st).
Proof.
  intros [I1 I2 I3 I4 I5 I6] Ht. constructor; simpl; auto.
  intros id1 t1. rewrite elem_of_app, list_elem_of_singleton.
  intros [H | [= -> ->]]; eauto.
Qed.

Lemma Inv_remove_timer st id :
  Inv st -> Inv (set_timers (remove_timer id (timers st)) st).
Proof.
  intros [I1 I2 I3 I4 I5 I6]. constructor; simpl; auto.
  intros id1 t1. unfold remove_timer. rewrite list_elem_of_filter. intros [_ H]. eauto.
Qed.

Lemma Inv_add_handler st b :
  Inv st -> is_Some (celestialBodies st !! b) -> Inv (set_handlers (handlers st ++ [b]) st).
Proof.
  intros [I1 I2 I3 I4 I5 I6] Hb. constructor; simpl; auto.
  intros b1. rewrite elem_of_app, list_elem_of_singleton. intros [H | ->]; eauto.
Qed.

Lemma Inv_add_awaiting st s :
  Inv st -> suspended_ok (actors st) s -> Inv (set_awaiting (awaiting st ++ [s]) st).
Proof.
  intros [I1 I2 I3 I4 I5 I6] Hs. constructor; simpl; auto.
  intros s1. rewrite elem_of_app, list_elem_of_singleton. intros [H | ->]; eauto.
Qed.

Lemma Inv_delete_awaiting st k :
  Inv st -> Inv (set_awaiting (delete k (awaiting st)) st).
Proof.
  intros [I1 I2 I3 I4 I5 I6]. constructor; simpl; auto.
  intros s Hs. eauto using list_elem_of_delete_inv.
Qed.

Lemma Inv_set_labelLoopInc st v :
  Inv st -> (0 <= v <= 10)%Z -> Inv (set_labelLoopInc v st).
Proof. intros [I1 I2 I3 I4 I5 I6] Hv. constructor; simpl; auto. Qed.

Lemma with_position_y_parent f a : parentId (with_position_y f a) = parentId a.
Proof. reflexivity. Qed.

Lemma with_appearance_enabled_parent b a : parentId (with_appearance_enabled b a) = parentId a.
Proof. reflexivity. Qed.

Lemma with_text_parent s a : parentId (with_text s a) = parentId a.
Proof. reflexivity. Qed.

Lemma with_button_parent a : parentId (with_button a) = parentId a.
Proof. reflexivity. Qed.

#[local] Hint Resolve with_position_y_parent with_appearance_enabled_parent
  with_text_parent with_button_parent : core.

(** ** The invariant under the operations *)

Lemma Inv_init : Inv init_state.
Proof.
  constructor; simpl.
  - intros n cb H. by rewrite lookup_empty in H.
  - intros s H. by apply not_elem_of_nil in H.
  - intros id t H. by apply not_elem_of_nil in H.
  - intros b H. by apply not_elem_of_nil in H.
  - done.
  - lia.
Qed.

Lemma animationPlayPause_Inv bodyName :
  triple (fun st => Inv st /\ is_Some (celestialBodies st !! bodyName))
    (animationPlayPause bodyName)
    (fun _ st => Inv st /\ is_Some (celestialBodies st !! bodyName)) Inv.
Proof.
  intros st [HI [cb Hcb]]. unfold animationPlayPause, bind, gets, setInterval, setTimer, modify.
  simpl. split; [| by eauto].
  eapply Inv_frame with (st := set_timers _ st); [| reflexivity ..].
  apply Inv_add_timer; [done |]. unfold timer_ok. simpl. rewrite Hcb.
  split; [done |]. split; [done |]. by eapply inv_bodies.
Qed.

Lemma labelLoop_tick_Inv ocb : triple Inv (labelLoop_tick ocb) (fun _ => Inv) Inv.
Proof.
  intros st HI. pose proof (inv_label st HI) as Hl.
  unfold labelLoop_tick, bind, gets, modify. simpl.
  destruct (Z.ltb_spec (labelLoopInc st) 5); destruct ocb as [cb |]; simpl; try done.
  - destruct (Z.eqb_spec (labelLoopInc st + 1) 5); simpl.
    + apply Inv_set_labelLoopInc; [| lia].
      apply Inv_set_labelLoopInc; [| lia]. by apply Inv_update_actor.
    + apply Inv_set_labelLoopInc; [| lia]. by apply Inv_update_actor.
  - destruct (Z.eqb_spec (labelLoopInc st - 1) 5); simpl.
    + apply Inv_set_labelLoopInc; [| lia].
      apply Inv_set_labelLoopInc; [| lia]. by apply Inv_update_actor.
    + apply Inv_set_labelLoopInc; [| lia]. by apply Inv_update_actor.
Qed.

Lemma Animation_AnimateTo_Inv a d t :
  triple Inv (Animation_AnimateTo a d t) (fun _ => Inv) Inv.
Proof. intros st HI. simpl. eapply Inv_frame; eauto. Qed.

Lemma clearTimer_Inv handle : triple Inv (clearTimer handle) (fun _ => Inv) Inv.
Proof. intros st HI. simpl. destruct handle; [by apply Inv_remove_timer | done]. Qed.

Lemma boxAnimationEnter_Inv : triple Inv boxAnimationEnter (fun _ => Inv) Inv.
Proof.
  intros st HI. unfold boxAnimationEnter, bind, gets. simpl.
  pose proof (clearTimer_Inv (animationLoopIterval st) st HI) as H0.
  simpl in H0. set (st0 := match animationLoopIterval st with Some _ => _ | None => _ end) in *.
  assert (Hb : celestialBodies st0 = celestialBodies st)
    by (subst st0; by destruct (animationLoopIterval st)).
  rewrite !Hb.
  destruct (celestialBodies st !! "box_model_cloud") as [b |]; simpl; [| done].
  destruct (celestialBodies st !! "only_gear") as [g |]; simpl.
  - eapply Inv_frame with (st := st0); eauto.
  - eapply Inv_frame with (st := st0); eauto.
Qed.

Lemma boxAnimationExit_Inv : triple Inv boxAnimationExit (fun _ => Inv) Inv.
Proof.
  intros st HI. unfold boxAnimationExit, bind, gets. simpl.
  destruct (celestialBodies st !! "box_model_cloud") as [b |]; simpl; [| done].
  destruct (celestialBodies st !! "only_gear") as [g |]; simpl.
  - eapply Inv_frame_timers with (st := st); [done | reflexivity .. | | done | done | done].
    simpl. intros id t. rewrite elem_of_app, list_elem_of_singleton.
    intros [H | [= -> ->]]; [by left | right]. by split.
  - eapply Inv_frame; eauto.
Qed.

Lemma popup_shrink_Inv h : triple Inv (popup_shrink h) (fun _ => Inv) Inv.
Proof.
  intros st HI. unfold popup_shrink, bind, gets. simpl.
  destruct (celestialBodies st !! "popup_model") as [p |]; simpl; [| done].
  eapply Inv_frame; eauto.
Qed.

Lemma childModelDisplay_Inv h : triple Inv (childModelDisplay h) (fun _ => Inv) Inv.
Proof.
  intros st HI. unfold childModelDisplay, bind, gets. simpl.
  pose proof (clearTimer_Inv (childBoxTimeout st) st HI) as H0.
  simpl in H0. set (st0 := match childBoxTimeout st with Some _ => _ | None => _ end) in *.
  assert (Hb : celestialBodies st0 = celestialBodies st)
    by (subst st0; by destruct (childBoxTimeout st)).
  rewrite !Hb.
  destruct (celestialBodies st !! "popup_model") as [p |]; simpl; [| done].
  eapply Inv_frame with (st := update_actor _ _ st0); [| reflexivity ..].
  by apply Inv_update_actor.
Qed.

Lemma onHoverExit_Inv b :
  triple (fun st => Inv st /\ is_Some (celestialBodies st !! b))
    (onHoverExit b) (fun _ => Inv) Inv.
Proof.
  unfold onHoverExit. eapply triple_bind; [apply animationPlayPause_Inv |].
  intros []. eapply triple_weaken; [apply boxAnimationExit_Inv | | |]; simpl; tauto.
Qed.

(** ** Node creation *)

Lemma set_actors_id st : set_actors (actors st) st = st.
Proof. by destruct st. Qed.

Lemma set_actors_set_actors l l1 st : set_actors l1 (set_actors l st) = set_actors l1 st.
Proof. reflexivity. Qed.

Ltac parent_of_tac :=
  repeat first [ exact (parent_of_last _ _) | apply actors_grow_app ].

(** [create_nodes] only appends to the actor store.  It throws exactly when
    the host refuses one of the five names, and otherwise returns five fresh
    handles linked as documented. *)
Lemma create_nodes_run h bodyName facts st :
  exists l1,
    (create_nodes h bodyName facts st).1 = set_actors l1 st /\
    actors_grow (actors st) l1 /\
    match (create_nodes h bodyName facts st).2 with
    | inl e =>
        exists n msg, n ∈ node_names bodyName /\
          Actor_Create_throws h n = Some msg /\ e = HostError msg
    | inr (i, p, lb, o0, o1) =>
        nodes_ok l1 i p lb o0 o1 /\ length (actors st) <= i /\
        forall n, n ∈ node_names bodyName -> Actor_Create_throws h n = None
    end.
Proof.
  unfold create_nodes, bind, Actor_Create, node_names. cbn [actor_name with_app_rotation
    with_local_position with_local_rotation new_actor].
  destruct (Actor_Create_throws h (bodyName +:+ "-inclination")) as [m1 |] eqn:E1.
  { exists (actors st). rewrite set_actors_id. split; [done |].
    split; [apply actors_grow_refl |]. simpl. eexists _, _. split; [| done]. set_solver. }
  cbn [actors set_actors].
  destruct (Actor_Create_throws h (bodyName +:+ "-position")) as [m2 |] eqn:E2.
  { eexists. split; [reflexivity |]. split; [apply actors_grow_app |].
    simpl. eexists _, _. split; [| done]. set_solver. }
  cbn [actors set_actors].
  destruct (Actor_Create_throws h (bodyName +:+ "-label")) as [m3 |] eqn:E3.
  { eexists. split; [reflexivity |].
    split; [eauto using actors_grow_trans, actors_grow_app |].
    simpl. eexists _, _. split; [| done]. set_solver. }
  cbn [actors set_actors].
  destruct (Actor_Create_throws h (bodyName +:+ "-obliquity0")) as [m4 |] eqn:E4.
  { eexists. split; [reflexivity |].
    split; [eauto using actors_grow_trans, actors_grow_app |].
    simpl. eexists _, _. split; [| done]. set_solver. }
  cbn [actors set_actors].
  destruct (Actor_Create_throws h (bodyName +:+ "-obliquity1")) as [m5 |] eqn:E5.
  { eexists. split; [reflexivity |].
    split; [eauto 6 using actors_grow_trans, actors_grow_app |].
    simpl. eexists _, _. split; [| done]. set_solver. }
  cbn [actors set_actors ret fst snd].
  eexists. split; [reflexivity |].
  split; [eauto 7 using actors_grow_trans, actors_grow_app |].
  split; [| split; [lia |]].
  - constructor.
    + rewrite !length_app. simpl. lia.
    + parent_of_tac.
    + parent_of_tac.
    + parent_of_tac.
    + parent_of_tac.
    + parent_of_tac.
  - intros n Hn. set_unfold in Hn.
    destruct Hn as [-> | [-> | [-> | [-> | [-> | []]]]]]; assumption.
Qed.

(** ** [createBody] keeps the invariant *)

Lemma update_actor_chain id f st cb :
  (forall a, parentId (f a) = parentId a) ->
  Inv st /\ chain_ok (actors st) cb ->
  Inv (update_actor id f st) /\ chain_ok (actors (update_actor id f st)) cb.
Proof.
  intros Hf [HI Hc]. split; [by apply Inv_update_actor |].
  simpl. eapply chain_ok_grow; [| done]. by apply actors_grow_alter.
Qed.

Section Preservation.

Variable h : Host.

Lemma createBody_finish_Inv bodyName facts i p lb o0 o1 a :
  triple (fun st => Inv st /\ nodes_ok (actors st) i p lb o0 o1)
    (createBody_finish h bodyName facts i p lb o0 o1 a)
    (fun _ => Inv) Inv.
Proof.
  unfold createBody_finish.
  eapply triple_bind with
    (R := fun model st => Inv st /\ chain_ok (actors st) (CelestialBody.mk i p o0 o1 model lb)).
  { intros st [HI HN]. unfold Actor_Create.
    destruct (Actor_Create_throws h _); [done |]. split.
    - apply Inv_set_actors; [done |]. apply actors_grow_app.
    - simpl. by apply chain_ok_model. }
  intros model.
  set (P6 := fun st => Inv st /\ chain_ok (actors st) (CelestialBody.mk i p o0 o1 model lb)).
  eapply triple_bind with (R := fun _ => P6);
    [apply triple_modify; intros st H; apply update_actor_chain, H; auto |].
  intros [].
  eapply triple_bind with (R := fun _ => P6);
    [apply triple_modify; intros st H; apply update_actor_chain, H; auto |].
  intros [].
  eapply triple_bind with (R := fun _ => P6);
    [apply triple_modify; intros st H; apply update_actor_chain, H; auto |].
  intros [].
  eapply triple_bind with
    (R := fun _ st => Inv st /\ is_Some (celestialBodies st !! bodyName)).
  { apply triple_modify. intros st [HI Hc]. split; [by apply Inv_register |].
    simpl. rewrite lookup_insert_eq. eauto. }
  intros [].
  eapply triple_bind with (R := fun _ => Inv).
  { case_bool_decide.
    - eapply triple_bind; [apply animationPlayPause_Inv |]. intros [].
      apply triple_modify. intros st [HI Hs]. by apply Inv_add_handler.
    - apply triple_ret. tauto. }
  intros [].
  case_bool_decide; [| by apply triple_ret].
  intros st HI. unfold bind, new_AssetContainer, modify, add_assets. simpl.
  eapply Inv_frame; eauto.
Qed.

Lemma createBody_try_Inv bodyName facts :
  triple Inv (createBody_try h bodyName facts) (fun _ => Inv) Inv.
Proof.
  intros st HI. unfold createBody_try, bind at 1.
  destruct (create_nodes_run h bodyName facts st) as (l1 & Hst & Hg & Hr).
  destruct (create_nodes h bodyName facts st) as [st1 [e | [[[[i p] lb] o0] o1]]];
    simpl in Hst, Hr; subst st1.
  { by apply Inv_set_actors. }
  destruct Hr as (HN & _ & _).
  assert (HI1 : Inv (set_actors l1 st)) by by apply Inv_set_actors.
  unfold bind at 1, gets at 1. unfold bind at 1, gets at 1.
  destruct (find_prefab _ _) as [a |].
  - unfold bind at 1.
    pose proof (createBody_finish_Inv bodyName facts i p lb o0 o1 a
                  (set_actors l1 st) (conj HI1 HN)) as Hf.
    destruct (createBody_finish _ _ _ _ _ _ _ _ _ _) as [st2 [e | []]]; done.
  - unfold bind, modify, ret. simpl.
    eapply Inv_frame with (st := set_awaiting _ (set_actors l1 st)); [| reflexivity ..].
    by apply (Inv_add_awaiting (set_actors l1 st)).
Qed.

Lemma createBody_catch_Inv bodyName e st : Inv st -> Inv (createBody_catch bodyName e st).
Proof. intros HI. eapply Inv_frame; eauto. Qed.

Lemma createBody_Inv db bodyName st : Inv st -> Inv (createBody h db bodyName st).1.
Proof.
  intros HI. unfold createBody. destruct (db_get db bodyName) as [facts |]; [| done].
  pose proof (createBody_try_Inv bodyName facts st HI) as H.
  destruct (createBody_try h bodyName facts st) as [st1 [e | [|]]]; simpl; auto.
  by apply createBody_catch_Inv.
Qed.

Lemma add_assets_Inv c new st : Inv st -> Inv (add_assets c new st).1.
Proof. intros HI. eapply Inv_frame; eauto. Qed.

Lemma createBody_resume_Inv s st :
  Inv st -> suspended_ok (actors st) s -> Inv (createBody_resume h s st).1.
Proof.
  intros HI Hs. unfold createBody_resume, createBody_continue.
  destruct (loadGltf_reply h (s_uri s)) as [msg | units].
  { simpl. by apply createBody_catch_Inv. }
  unfold bind at 1.
  pose proof (add_assets_Inv (s_container s) (gltf_assets (s_uri s) units) st HI) as HI1.
  destruct (add_assets _ _ st) as [st1 [e | []]] eqn:Ea; simpl in HI1.
  { discriminate Ea. }
  assert (actors st1 = actors st) as Hact by (by injection Ea as <-).
  unfold bind at 1.
  destruct (List.find is_prefab _) as [a |]; simpl.
  - assert (Hs1 : suspended_ok (actors st1) s) by (by rewrite Hact).
    pose proof (createBody_finish_Inv (s_bodyName s) (s_facts s) (s_inclination s)
                  (s_position s) (s_label s) (s_obliquity0 s) (s_obliquity1 s) a st1
                  (conj HI1 Hs1)) as Hf.
    destruct (createBody_finish _ _ _ _ _ _ _ _ _ _) as [st2 [e | []]]; simpl; auto.
    by apply createBody_catch_Inv.
  - by apply createBody_catch_Inv.
Qed.

Lemma createSolarSystem_Inv db st : Inv st -> Inv (createSolarSystem h db st).
Proof.
  unfold createSolarSystem. generalize (Object_keys db) as keys.
  intros keys. revert st. induction keys as [| k keys IH]; intros st HI; simpl; [done |].
  apply IH. by apply createBody_Inv.
Qed.

Lemma lookup_timer_elem id l t : lookup_timer id l = Some t -> (id, t) ∈ l.
Proof.
  induction l as [| [i t1] l IH]; simpl; [done |].
  case_bool_decide as Hi.
  - intros [= ->]. subst i. apply elem_of_cons. by left.
  - intros H. apply elem_of_cons. right. auto.
Qed.

Lemma run_callback_Inv t st :
  Inv st -> timer_ok (actors st) t -> Inv (run_callback h (callback t) st).1.
Proof.
  intros HI Ht. unfold timer_ok in Ht.
  destruct (callback t) as [[cb |] | ocb |]; try done; simpl.
  - pose proof (labelLoop_tick_Inv (Some cb) st HI) as H.
    by destruct (labelLoop_tick (Some cb) st) as [s1 [e | []]].
  - pose proof (popup_shrink_Inv h st HI) as H.
    by destruct (popup_shrink h st) as [s1 [e | []]].
Qed.

Lemma step_Inv ev st : Inv st -> Inv (step h ev st).1.
Proof.
  intros HI. destruct ev as [k | id | b | b | b]; simpl.
  - destruct (awaiting st !! k) as [s |] eqn:Hk; [| done]. simpl.
    apply createBody_resume_Inv; [by apply Inv_delete_awaiting |].
    simpl. apply (inv_awaiting st HI). apply list_elem_of_lookup. eauto.
  - destruct (lookup_timer id (timers st)) as [t |] eqn:Hid; [| done].
    pose proof (inv_timers st HI id t (lookup_timer_elem _ _ _ Hid)) as Ht.
    destruct (kind t).
    + pose proof (run_callback_Inv t st HI Ht) as H.
      by destruct (run_callback h (callback t) st) as [s1 [e | []]].
    + pose proof (run_callback_Inv t _ (Inv_remove_timer st id HI) Ht) as H.
      by destruct (run_callback h (callback t) _) as [s1 [e | []]].
  - case_bool_decide as Hb; [| done].
    pose proof (boxAnimationEnter_Inv st HI) as H. unfold onHoverEnter.
    by destruct (boxAnimationEnter st) as [s1 [e | []]].
  - case_bool_decide as Hb; [| done].
    pose proof (onHoverExit_Inv b st (conj HI (inv_handlers st HI b Hb))) as H.
    by destruct (onHoverExit b st) as [s1 [e | []]].
  - case_bool_decide as Hb; [| done].
    pose proof (childModelDisplay_Inv h st HI) as H. unfold onClick.
    by destruct (childModelDisplay h st) as [s1 [e | []]].
Qed.

Lemma reachable_Inv db st : reachable h db st -> Inv st.
Proof.
  induction 1 as [| st ev _ IH].
  - apply createSolarSystem_Inv, Inv_init.
  - by apply step_Inv.
Qed.

End Preservation.

(** ** What [createBody_finish] does *)

Lemma createBody_finish_throws h bodyName facts i p lb o0 o1 a st msg :
  Actor_Create_throws h (bodyName +:+ "-body") = Some msg ->
  createBody_finish h bodyName facts i p lb o0 o1 a st = (st, inl (HostError msg)).
Proof.
  intros Hm. unfold createBody_finish, bind at 1, Actor_Create.
  cbn [actor_name model_actor]. by rewrite Hm.
Qed.

Lemma createBody_finish_returns h bodyName facts i p lb o0 o1 a st :
  Actor_Create_throws h (bodyName +:+ "-body") = None ->
  exists st1,
    createBody_finish h bodyName facts i p lb o0 o1 a st = (st1, inr tt) /\
    finished h bodyName facts i p lb o0 o1 a st st1.
Proof.
  intros Hm. unfold finished, createBody_finish, bind at 1, Actor_Create.
  cbn [actor_name model_actor]. rewrite Hm.
  destruct (bool_decide (name facts <> "")); destruct (bool_decide (bodyName = "only_gear"));
    unfold animationPlayPause, new_AssetContainer, add_assets, setInterval, setTimer,
      bind, modify, gets, ret;
    state_simpl; rewrite ?lookup_insert_eq;
    (eexists; split; [reflexivity |]);
    state_simpl; rewrite ?app_nil_r; repeat split; try reflexivity;
    intros c Hc; rewrite ?list_lookup_alter_ne by lia; by rewrite ?lookup_app_l by done.
Qed.

(** ** What [createBody] and its continuation do *)

Lemma createBody_catch_run bodyName e st :
  createBody_catch bodyName e st = set_log (log st ++ [failure_line bodyName e]) st.
Proof. reflexivity. Qed.

Lemma createBody_unfold h db bodyName facts st :
  db_get db bodyName = Some facts ->
  createBody h db bodyName st =
    match create_nodes h bodyName facts st with
    | (st1, inl e) => (createBody_catch bodyName e st1, Resolved)
    | (st1, inr (i, p, lb, o0, o1)) =>
        match find_prefab (model_uri bodyName facts) (container_assets st1 (assets st1)) with
        | Some a =>
            match createBody_finish h bodyName facts i p lb o0 o1 a st1 with
            | (st2, inl e) => (createBody_catch bodyName e st2, Resolved)
            | (st2, inr _) => (st2, Resolved)
            end
        | None =>
            (set_awaiting
               (awaiting st1 ++ [suspension bodyName facts i p lb o0 o1 (assets st1)])
               (set_loads (loads st1 ++ [model_uri bodyName facts]) st1),
             Pending)
        end
    end.
Proof.
  intros Hdb. unfold createBody. rewrite Hdb. unfold createBody_try, bind at 1.
  destruct (create_nodes h bodyName facts st) as [st1 [e | [[[[i p] lb] o0] o1]]]; [done |].
  unfold bind at 1, gets at 1. unfold bind at 1, gets at 1.
  destruct (find_prefab _ _) as [a |].
  - unfold bind at 1.
    by destruct (createBody_finish _ _ _ _ _ _ _ _ _ _) as [st2 [e | []]].
  - reflexivity.
Qed.

(** The three ways a [createBody] call on a known body can go up to its
    first suspension point: a node is refused and the failure is logged;
    the prefab is found and the body is finished (or the model is refused
    and the failure is logged); or a load is requested and the call
    suspends. *)
Lemma createBody_cases h db bodyName facts st :
  db_get db bodyName = Some facts ->
  exists l1, actors_grow (actors st) l1 /\
    ((exists n msg,
        n ∈ node_names bodyName /\ Actor_Create_throws h n = Some msg /\
        createBody h db bodyName st =
          (createBody_catch bodyName (HostError msg) (set_actors l1 st), Resolved)) \/
     (exists i p lb o0 o1,
        nodes_ok l1 i p lb o0 o1 /\ length (actors st) <= i /\
        (forall n, n ∈ node_names bodyName -> Actor_Create_throws h n = None) /\
        match find_prefab (model_uri bodyName facts) (container_assets st (assets st)) with
        | Some a =>
            match Actor_Create_throws h (bodyName +:+ "-body") with
            | Some msg =>
                createBody h db bodyName st =
                  (createBody_catch bodyName (HostError msg) (set_actors l1 st), Resolved)
            | None =>
                exists st2,
                  finished h bodyName facts i p lb o0 o1 a (set_actors l1 st) st2 /\
                  createBody h db bodyName st = (st2, Resolved)
            end
        | None =>
            createBody h db bodyName st =
              (set_awaiting
                 (awaiting st ++ [suspension bodyName facts i p lb o0 o1 (assets st)])
                 (set_loads (loads st ++ [model_uri bodyName facts]) (set_actors l1 st)),
               Pending)
        end)).
Proof.
  intros Hdb. rewrite (createBody_unfold h db bodyName facts st Hdb).
  destruct (create_nodes_run h bodyName facts st) as (l1 & Hst & Hg & Hr).
  exists l1. split; [done |].
  destruct (create_nodes h bodyName facts st) as [st1 [e | [[[[i p] lb] o0] o1]]];
    simpl in Hst, Hr; subst st1.
  { left. destruct Hr as (n & msg & Hn & Hm & ->). eauto. }
  right. destruct Hr as (HN & Hi & Hnone). exists i, p, lb, o0, o1.
  repeat (split; [done |]).
  change (container_assets (set_actors l1 st) (assets (set_actors l1 st)))
    with (container_assets st (assets st)).
  destruct (find_prefab _ _) as [a |].
  - destruct (Actor_Create_throws h (bodyName +:+ "-body")) as [msg |] eqn:Hm.
    + by rewrite (createBody_finish_throws _ _ _ _ _ _ _ _ _ _ _ Hm).
    + destruct (createBody_finish_returns h bodyName facts i p lb o0 o1 a
                  (set_actors l1 st) Hm) as (st2 & -> & Hf).
      exists st2. by split.
  - reflexivity.
Qed.

(** The ways the continuation after the load can go. *)
Lemma createBody_resume_cases h s st :
  match loadGltf_reply h (s_uri s) with
  | inl msg =>
      createBody_resume h s st =
        (createBody_catch (s_bodyName s) (HostError msg) st, Resolved)
  | inr units =>
      let st1 := (add_assets (s_container s) (gltf_assets (s_uri s) units) st).1 in
      match List.find is_prefab (gltf_assets (s_uri s) units) with
      | None =>
          createBody_resume h s st =
            (createBody_catch (s_bodyName s) (undefined_error "prefab") st1, Resolved)
      | Some a =>
          match Actor_Create_throws h (s_bodyName s +:+ "-body") with
          | Some msg =>
              createBody_resume h s st =
                (createBody_catch (s_bodyName s) (HostError msg) st1, Resolved)
          | None =>
              exists st2,
                finished h (s_bodyName s) (s_facts s) (s_inclination s) (s_position s)
                  (s_label s) (s_obliquity0 s) (s_obliquity1 s) a st1 st2 /\
                createBody_resume h s st = (st2, Resolved)
          end
      end
  end.
Proof.
  assert (Hu : forall units,
            loadGltf_reply h (s_uri s) = inr units ->
            createBody_resume h s st =
              let st1 := (add_assets (s_container s) (gltf_assets (s_uri s) units) st).1 in
              match List.find is_prefab (gltf_assets (s_uri s) units) with
              | None => (createBody_catch (s_bodyName s) (undefined_error "prefab") st1,
                         Resolved)
              | Some a =>
                  match createBody_finish h (s_bodyName s) (s_facts s) (s_inclination s)
                          (s_position s) (s_label s) (s_obliquity0 s) (s_obliquity1 s)
                          a st1 with
                  | (st2, inl e) => (createBody_catch (s_bodyName s) e st2, Resolved)
                  | (st2, inr _) => (st2, Resolved)
                  end
              end).
  { intros units Hr. unfold createBody_resume, createBody_continue. rewrite Hr.
    cbv zeta. unfold bind at 1. cbn [add_assets modify fst]. unfold bind at 1.
    destruct (List.find is_prefab _) as [a |]; [| done]. cbn [deref ret].
    by destruct (createBody_finish _ _ _ _ _ _ _ _ _ _) as [st2 [e | []]]. }
  destruct (loadGltf_reply h (s_uri s)) as [msg | units] eqn:Hr.
  { unfold createBody_resume, createBody_continue. by rewrite Hr. }
  rewrite (Hu units eq_refl). cbv zeta.
  destruct (List.find is_prefab _) as [a |]; [| done].
  destruct (Actor_Create_throws h (s_bodyName s +:+ "-body")) as [msg |] eqn:Hm.
  - by rewrite (createBody_finish_throws _ _ _ _ _ _ _ _ _ _ _ Hm).
  - destruct (createBody_finish_returns h (s_bodyName s) (s_facts s) (s_inclination s)
                (s_position s) (s_label s) (s_obliquity0 s) (s_obliquity1 s) a
                (add_assets (s_container s) (gltf_assets (s_uri s) units) st).1 Hm)
      as (st2 & Hrun & Hf).
    rewrite Hrun. exists st2. by split.
Qed.

(** ** What the handlers do *)

Lemma boxAnimationEnter_run st :
  let st0 := cleared (animationLoopIterval st) st in
  boxAnimationEnter st =
    match celestialBodies st !! "box_model_cloud", celestialBodies st !! "only_gear" with
    | Some b, Some g =>
        (set_tweens (tweens st ++
           [AnimateTo (CelestialBody.position b) (LocalPositionY 0.1) 1;
            AnimateTo (CelestialBody.position g) (LocalPositionY 0.350) 1]) st0, inr tt)
    | Some b, None =>
        (set_tweens (tweens st ++
           [AnimateTo (CelestialBody.position b) (LocalPositionY 0.1) 1]) st0,
         inl (undefined_error "position"))
    | None, _ => (st0, inl (undefined_error "position"))
    end.
Proof.
  unfold boxAnimationEnter, cleared, undefined_error. monad_simpl.
  destruct (animationLoopIterval st); state_simpl;
    destruct (celestialBodies st !! "box_model_cloud");
    destruct (celestialBodies st !! "only_gear");
    state_simpl; rewrite <- ?app_assoc; reflexivity.
Qed.

Lemma boxAnimationExit_run st :
  boxAnimationExit st =
    match celestialBodies st !! "box_model_cloud", celestialBodies st !! "only_gear" with
    | Some b, Some g =>
        (set_childBoxTimeout (Some (next_timer st))
           (set_next_timer (S (next_timer st))
              (set_timers (timers st ++ [(next_timer st, shrink_timer)])
                 (set_tweens (tweens st ++
                    [AnimateTo (CelestialBody.position b) (LocalPositionY 0) 1;
                     AnimateTo (CelestialBody.position g) (LocalPositionY 0.250) 1]) st))),
         inr tt)
    | Some b, None =>
        (set_tweens (tweens st ++
           [AnimateTo (CelestialBody.position b) (LocalPositionY 0) 1]) st,
         inl (undefined_error "position"))
    | None, _ => (st, inl (undefined_error "position"))
    end.
Proof.
  unfold boxAnimationExit, undefined_error, shrink_timer. monad_simpl.
  destruct (celestialBodies st !! "box_model_cloud");
    destruct (celestialBodies st !! "only_gear");
    state_simpl; rewrite <- ?app_assoc; reflexivity.
Qed.

Lemma animationPlayPause_run bodyName st :
  animationPlayPause bodyName st =
    (set_animationLoopIterval (Some (next_timer st))
       (set_next_timer (S (next_timer st))
          (set_timers
             (timers st ++
                [(next_timer st,
                  {| kind := SetInterval; delay := 100;
                     callback := BobTick (celestialBodies st !! bodyName) |})]) st)),
     inr tt).
Proof. reflexivity. Qed.

Lemma childModelDisplay_run h st :
  let st0 := cleared (childBoxTimeout st) st in
  childModelDisplay h st =
    match celestialBodies st !! "popup_model" with
    | Some p =>
        (set_tweens (tweens st ++
           [AnimateTo (CelestialBody.model p) (LocalScale (popup_target h)) 1])
           (update_actor (CelestialBody.model p) (with_appearance_enabled true) st0),
         inr tt)
    | None => (st0, inl (undefined_error "model"))
    end.
Proof.
  unfold childModelDisplay, cleared, undefined_error, popup_target. monad_simpl.
  destruct (childBoxTimeout st); state_simpl;
    destruct (celestialBodies st !! "popup_model"); state_simpl; reflexivity.
Qed.

Lemma popup_shrink_run h st :
  popup_shrink h st =
    match celestialBodies st !! "popup_model" with
    | Some p =>
        (set_tweens (tweens st ++
           [AnimateTo (CelestialBody.model p) (LocalScale (scaleValue h 0)) 1]) st, inr tt)
    | None => (st, inl (undefined_error "model"))
    end.
Proof.
  unfold popup_shrink, undefined_error. monad_simpl.
  destruct (celestialBodies st !! "popup_model"); state_simpl; reflexivity.
Qed.

Lemma onHoverExit_run b st :
  let n := next_timer st in
  let st0 :=
    set_animationLoopIterval (Some n)
      (set_next_timer (S n) (set_timers (timers st ++ [restarted_bob st b]) st)) in
  onHoverExit b st =
    match celestialBodies st !! "box_model_cloud", celestialBodies st !! "only_gear" with
    | Some bx, Some g =>
        (set_childBoxTimeout (Some (S n))
           (set_next_timer (S (S n))
              (set_timers (timers st ++ [restarted_bob st b; (S n, shrink_timer)])
                 (set_tweens (tweens st ++
                    [AnimateTo (CelestialBody.position bx) (LocalPositionY 0) 1;
                     AnimateTo (CelestialBody.position g) (LocalPositionY 0.250) 1]) st0))),
         inr tt)
    | Some bx, None =>
        (set_tweens (tweens st ++
           [AnimateTo (CelestialBody.position bx) (LocalPositionY 0) 1]) st0,
         inl (undefined_error "position"))
    | None, _ => (st0, inl (undefined_error "position"))
    end.
Proof.
  cbv zeta. unfold onHoverExit, bind. rewrite animationPlayPause_run, boxAnimationExit_run.
  state_simpl. unfold restarted_bob.
  destruct (celestialBodies st !! "box_model_cloud");
    [destruct (celestialBodies st !! "only_gear") |];
    state_simpl; rewrite <- ?app_assoc; reflexivity.
Qed.

(** ** The bound gear animation *)

Lemma evolves_frame st st1 :
  tweens st1 = tweens st -> celestialBodies st1 = celestialBodies st -> evolves st st1.
Proof. intros Ht Hb. split; [by rewrite Ht | by left]. Qed.

Lemma evolves_tweens st st1 new :
  tweens st1 = tweens st ++ new -> celestialBodies st1 = celestialBodies st ->
  evolves st st1.
Proof.
  intros Ht Hb. split; [| by left]. intros t H. rewrite Ht, elem_of_app. by left.
Qed.

Lemma gear_bound_evolves st st1 : gear_bound st -> evolves st st1 -> gear_bound st1.
Proof.
  intros Hg [Ht [Hb | (b & cb & Hb & Hnew)]] cb1; rewrite Hb.
  - intros H. destruct (Hg cb1 H) as [c Hc]. eauto.
  - rewrite lookup_insert. case_decide as Hd.
    + intros [= <-]. auto.
    + intros H. destruct (Hg cb1 H) as [c Hc]. eauto.
Qed.

Lemma finished_evolves h bodyName facts i p lb o0 o1 a st0 st st1 :
  tweens st = tweens st0 -> celestialBodies st = celestialBodies st0 ->
  finished h bodyName facts i p lb o0 o1 a st st1 -> evolves st0 st1.
Proof.
  intros Ht0 Hb0 (Hb & _ & _ & _ & _ & _ & _ & Ht & _). split.
  - intros t H. rewrite Ht, Ht0, elem_of_app. by left.
  - right. eexists _, _. rewrite <- Hb0. split; [exact Hb |].
    intros ->. rewrite Ht. eexists. rewrite elem_of_app. right.
    rewrite bool_decide_eq_true_2 by done. apply list_elem_of_singleton. reflexivity.
Qed.

Lemma createBody_evolves h db bodyName st : evolves st (createBody h db bodyName st).1.
Proof.
  destruct (db_get db bodyName) as [facts |] eqn:Hdb.
  2: { unfold createBody. rewrite Hdb. by apply evolves_frame. }
  destruct (createBody_cases h db bodyName facts st Hdb)
    as (l1 & _ & [(n & msg & _ & _ & ->) | (i & p & lb & o0 & o1 & _ & _ & _ & H)]).
  { by apply evolves_frame. }
  destruct (find_prefab _ _) as [a |].
  - destruct (Actor_Create_throws h (bodyName +:+ "-body")) as [msg |].
    + rewrite H. by apply evolves_frame.
    + destruct H as (st2 & Hf & ->).
      eapply finished_evolves; [| | exact Hf]; reflexivity.
  - rewrite H. by apply evolves_frame.
Qed.

Lemma createBody_resume_evolves h s st : evolves st (createBody_resume h s st).1.
Proof.
  pose proof (createBody_resume_cases h s st) as H.
  destruct (loadGltf_reply h (s_uri s)) as [msg | units].
  { rewrite H. by apply evolves_frame. }
  cbv zeta in H. destruct (List.find is_prefab _) as [a |].
  - destruct (Actor_Create_throws h (s_bodyName s +:+ "-body")) as [msg |].
    + rewrite H. by apply evolves_frame.
    + destruct H as (st2 & Hf & ->).
      eapply finished_evolves; [| | exact Hf]; reflexivity.
  - rewrite H. by apply evolves_frame.
Qed.

Lemma labelLoop_tick_frame ocb st :
  let st1 := (labelLoop_tick ocb st).1 in
  celestialBodies st1 = celestialBodies st /\ tweens st1 = tweens st /\
  timers st1 = timers st /\ gearLoopInc st1 = gearLoopInc st /\
  childBoxTimeout st1 = childBoxTimeout st /\
  animationLoopIterval st1 = animationLoopIterval st.
Proof.
  unfold labelLoop_tick. monad_simpl.
  destruct (labelLoopInc st <? 5)%Z; destruct ocb; monad_simpl;
    try (destruct (_ =? 5)%Z); monad_simpl; done.
Qed.

Lemma gearLoop_tick_frame ocb st :
  let st1 := (gearLoop_tick ocb st).1 in
  celestialBodies st1 = celestialBodies st /\ tweens st1 = tweens st /\
  timers st1 = timers st /\ labelLoopInc st1 = labelLoopInc st.
Proof.
  unfold gearLoop_tick. monad_simpl.
  destruct (gearLoopInc st <? 10)%Z; destruct ocb; monad_simpl;
    try (destruct (_ =? 10)%Z); monad_simpl; done.
Qed.

Lemma cleared_frame handle st :
  celestialBodies (cleared handle st) = celestialBodies st /\
  tweens (cleared handle st) = tweens st /\ actors (cleared handle st) = actors st.
Proof. by destruct handle. Qed.

Lemma run_callback_evolves h cb st : evolves st (run_callback h cb st).1.
Proof.
  destruct cb as [ocb | ocb |]; simpl.
  - destruct (labelLoop_tick_frame ocb st) as (Hb & Ht & _). by apply evolves_frame.
  - destruct (gearLoop_tick_frame ocb st) as (Hb & Ht & _). by apply evolves_frame.
  - rewrite popup_shrink_run.
    destruct (celestialBodies st !! "popup_model"); simpl.
    + by eapply evolves_tweens.
    + by apply evolves_frame.
Qed.

Lemma step_evolves h ev st : evolves st (step h ev st).1.
Proof.
  destruct ev as [k | id | b | b | b]; cbn [step].
  - destruct (awaiting st !! k) as [s |]; [| by apply evolves_frame]. cbn [fst].
    destruct (createBody_resume_evolves h s (set_awaiting (delete k (awaiting st)) st))
      as [Ht Hb].
    split; [exact Ht | exact Hb].
  - destruct (lookup_timer id (timers st)) as [t |]; [| by apply evolves_frame].
    destruct (kind t).
    + pose proof (run_callback_evolves h (callback t) st) as H.
      by destruct (run_callback h (callback t) st) as [s1 [e | []]].
    + pose proof (run_callback_evolves h (callback t)
                    (set_timers (remove_timer id (timers st)) st)) as H.
      by destruct (run_callback h (callback t) _) as [s1 [e | []]].
  - case_bool_decide as Hb; [| by apply evolves_frame].
    unfold onHoverEnter. rewrite boxAnimationEnter_run. cbv zeta.
    destruct (cleared_frame (animationLoopIterval st) st) as (Hc & Ht & _).
    destruct (celestialBodies st !! "box_model_cloud");
      [destruct (celestialBodies st !! "only_gear") |]; cbn [fst].
    + by eapply evolves_tweens.
    + by eapply evolves_tweens.
    + by apply evolves_frame.
  - case_bool_decide as Hb; [| by apply evolves_frame].
    unfold onHoverExit, bind at 1. rewrite animationPlayPause_run, boxAnimationExit_run.
    state_simpl.
    destruct (celestialBodies st !! "box_model_cloud");
      [destruct (celestialBodies st !! "only_gear") |]; cbn [fst].
    + by eapply evolves_tweens.
    + by eapply evolves_tweens.
    + by apply evolves_frame.
  - case_bool_decide as Hb; [| by apply evolves_frame].
    unfold onClick. rewrite childModelDisplay_run. cbv zeta.
    destruct (cleared_frame (childBoxTimeout st) st) as (Hc & Ht & _).
    destruct (celestialBodies st !! "popup_model"); cbn [fst].
    + by eapply evolves_tweens.
    + by apply evolves_frame.
Qed.

Lemma reachable_gear_bound h db st : reachable h db st -> gear_bound st.
Proof.
  induction 1 as [| st ev _ IH].
  - unfold started, createSolarSystem.
    assert (Hfold : forall keys st0, gear_bound st0 ->
              gear_bound (fold_left (fun s k => (createBody h db k s).1) keys st0)).
    { induction keys as [| k keys IHk]; intros st0 H0; simpl; [done |].
      apply IHk. eapply gear_bound_evolves; [exact H0 | apply createBody_evolves]. }
    apply Hfold. intros cb H. simpl in H. by rewrite lookup_empty in H.
  - eapply gear_bound_evolves; [exact IH | apply step_evolves].
Qed.

(** ** Asset containers only grow *)

Lemma containers_grow_refl st : containers_grow st st.
Proof. intros c l H. exists []. by rewrite app_nil_r. Qed.

Lemma containers_grow_eq st st1 : containers st1 = containers st -> containers_grow st st1.
Proof. intros H c l Hc. exists []. by rewrite H, app_nil_r. Qed.

Lemma containers_grow_trans st1 st2 st3 :
  containers_grow st1 st2 -> containers_grow st2 st3 -> containers_grow st1 st3.
Proof.
  intros H12 H23 c l Hc. destruct (H12 c l Hc) as [m1 H1].
  destruct (H23 c _ H1) as [m2 H2]. exists (m1 ++ m2). by rewrite app_assoc.
Qed.

Lemma containers_grow_add_assets c new st :
  containers_grow st (add_assets c new st).1.
Proof.
  intros c1 l Hc. cbn [add_assets modify fst]. state_simpl.
  destruct (decide (c = c1)) as [-> |].
  - exists new. by rewrite list_lookup_alter_eq, Hc.
  - exists []. by rewrite list_lookup_alter_ne, app_nil_r.
Qed.

Lemma containers_grow_finished h bodyName facts i p lb o0 o1 a st st1 :
  finished h bodyName facts i p lb o0 o1 a st st1 -> containers_grow st st1.
Proof.
  intros (_ & _ & _ & _ & _ & _ & Hc & _) c l Hl. exists [].
  rewrite app_nil_r, Hc; [done |]. eauto using lookup_lt_Some.
Qed.

Lemma find_prefab_app uri l more a :
  find_prefab uri l = Some a -> find_prefab uri (l ++ more) = Some a.
Proof.
  unfold find_prefab, prefabs. rewrite List.filter_app.
  generalize (List.filter is_prefab l) as l1. intros l1.
  induction l1 as [| x l1 IH]; simpl; [done |]. by destruct (bool_decide _).
Qed.

Lemma find_prefab_loaded uri old units a0 :
  List.find is_prefab (gltf_assets uri units) = Some a0 ->
  is_Some (find_prefab uri (old ++ gltf_assets uri units)).
Proof.
  intros Hf. unfold find_prefab, prefabs. rewrite List.filter_app.
  induction (List.filter is_prefab old) as [| x l1 IH]; simpl.
  - clear old. induction units as [| [n b] units IH]; simpl in *; [done |].
    destruct b; simpl in *.
    + rewrite bool_decide_eq_true_2 by done. eauto.
    + auto.
  - destruct (bool_decide _); eauto.
Qed.

Lemma createBody_containers_grow h db bodyName st :
  containers_grow st (createBody h db bodyName st).1.
Proof.
  destruct (db_get db bodyName) as [facts |] eqn:Hdb.
  2: { unfold createBody. rewrite Hdb. apply containers_grow_refl. }
  destruct (createBody_cases h db bodyName facts st Hdb)
    as (l1 & _ & [(n & msg & _ & _ & ->) | (i & p & lb & o0 & o1 & _ & _ & _ & H)]).
  { by apply containers_grow_eq. }
  destruct (find_prefab _ _) as [a |].
  - destruct (Actor_Create_throws h (bodyName +:+ "-body")) as [msg |].
    + rewrite H. by apply containers_grow_eq.
    + destruct H as (st2 & Hf & ->).
      eapply containers_grow_trans; [| eapply containers_grow_finished, Hf].
      by apply containers_grow_eq.
  - rewrite H. by apply containers_grow_eq.
Qed.

Lemma createBody_resume_containers_grow h s st :
  containers_grow st (createBody_resume h s st).1.
Proof.
  pose proof (createBody_resume_cases h s st) as H.
  destruct (loadGltf_reply h (s_uri s)) as [msg | units].
  { rewrite H. by apply containers_grow_eq. }
  cbv zeta in H.
  pose proof (containers_grow_add_assets (s_container s) (gltf_assets (s_uri s) units) st)
    as Hadd.
  destruct (List.find is_prefab _) as [a |].
  - destruct (Actor_Create_throws h (s_bodyName s +:+ "-body")) as [msg |].
    + rewrite H. eapply containers_grow_trans; [exact Hadd |]. by apply containers_grow_eq.
    + destruct H as (st2 & Hf & ->).
      eapply containers_grow_trans; [exact Hadd |]. eapply containers_grow_finished, Hf.
  - rewrite H. eapply containers_grow_trans; [exact Hadd |]. by apply containers_grow_eq.
Qed.

Lemma labelLoop_tick_containers ocb st :
  containers (labelLoop_tick ocb st).1 = containers st.
Proof.
  unfold labelLoop_tick. monad_simpl.
  destruct (labelLoopInc st <? 5)%Z; destruct ocb; monad_simpl;
    try (destruct (_ =? 5)%Z); monad_simpl; done.
Qed.

Lemma gearLoop_tick_containers ocb st :
  containers (gearLoop_tick ocb st).1 = containers st.
Proof.
  unfold gearLoop_tick. monad_simpl.
  destruct (gearLoopInc st <? 10)%Z; destruct ocb; monad_simpl;
    try (destruct (_ =? 10)%Z); monad_simpl; done.
Qed.

Lemma cleared_containers handle st : containers (cleared handle st) = containers st.
Proof. by destruct handle. Qed.

Lemma run_callback_containers h cb st :
  containers (run_callback h cb st).1 = containers st.
Proof.
  destruct cb as [ocb | ocb |]; simpl.
  - apply labelLoop_tick_containers.
  - apply gearLoop_tick_containers.
  - rewrite popup_shrink_run. by destruct (celestialBodies st !! "popup_model").
Qed.

Lemma step_containers_grow h ev st : containers_grow st (step h ev st).1.
Proof.
  destruct ev as [k | id | b | b | b]; cbn [step].
  - destruct (awaiting st !! k) as [s |]; [| apply containers_grow_refl]. cbn [fst].
    apply (createBody_resume_containers_grow h s (set_awaiting (delete k (awaiting st)) st)).
  - destruct (lookup_timer id (timers st)) as [t |]; [| apply containers_grow_refl].
    apply containers_grow_eq. destruct (kind t).
    + pose proof (run_callback_containers h (callback t) st) as H.
      by destruct (run_callback h (callback t) st) as [s1 [e | []]].
    + pose proof (run_callback_containers h (callback t)
                    (set_timers (remove_timer id (timers st)) st)) as H.
      by destruct (run_callback h (callback t) _) as [s1 [e | []]].
  - case_bool_decide as Hb; [| apply containers_grow_refl].
    apply containers_grow_eq.
    unfold onHoverEnter. rewrite boxAnimationEnter_run. cbv zeta.
    pose proof (cleared_containers (animationLoopIterval st) st) as Hc.
    destruct (celestialBodies st !! "box_model_cloud");
      [destruct (celestialBodies st !! "only_gear") |]; cbn [fst]; by state_simpl.
  - case_bool_decide as Hb; [| apply containers_grow_refl].
    apply containers_grow_eq. rewrite onHoverExit_run. cbv zeta.
    destruct (celestialBodies st !! "box_model_cloud");
      [destruct (celestialBodies st !! "only_gear") |]; cbn [fst]; by state_simpl.
  - case_bool_decide as Hb; [| apply containers_grow_refl].
    apply containers_grow_eq.
    unfold onClick. rewrite childModelDisplay_run. cbv zeta.
    pose proof (cleared_containers (childBoxTimeout st) st) as Hc.
    destruct (celestialBodies st !! "popup_model"); cbn [fst]; by state_simpl.
Qed.

Lemma run_ops_containers_grow h db ops st : containers_grow st (run_ops h db ops st).
Proof.
  revert st. induction ops as [| op ops IH]; intros st; simpl.
  - apply containers_grow_refl.
  - eapply containers_grow_trans; [| apply IH].
    destruct op; simpl; [apply createBody_containers_grow | apply step_containers_grow].
Qed.

(** ** The model actor of a finished body *)

Lemma finished_actors_model h bodyName facts lb o1 a l :
  lb < length l ->
  finished_actors h bodyName facts lb o1 a l !! length l =
    Some (with_button (with_appearance_enabled (appearance facts)
            (model_actor h bodyName facts o1 a))).
Proof.
  intros Hlb. unfold finished_actors.
  rewrite list_lookup_alter_ne by lia.
  rewrite !list_lookup_alter_eq, list_lookup_middle by done. done.
Qed.

Lemma finished_model_of h bodyName facts i p lb o0 o1 a st st1 (P : Actor -> Prop) :
  finished h bodyName facts i p lb o0 o1 a st st1 ->
  lb < length (actors st) ->
  P (with_button (with_appearance_enabled (appearance facts)
       (model_actor h bodyName facts o1 a))) ->
  model_of st1 bodyName P.
Proof.
  intros (Hb & Ha & _) Hlb HP. eexists _, _. rewrite Hb, Ha, lookup_insert_eq.
  split; [reflexivity |]. cbn [CelestialBody.model].
  rewrite finished_actors_model by done. done.
Qed.

Lemma six_names_nodes bodyName n : n ∈ node_names bodyName -> n ∈ six_names bodyName.
Proof. unfold six_names. rewrite elem_of_app. by left. Qed.

Lemma six_names_body bodyName : bodyName +:+ "-body" ∈ six_names bodyName.
Proof. unfold six_names. rewrite elem_of_app, list_elem_of_singleton. by right. Qed.

(** ** Reachable states *)

Lemma reachable_run_events h db evs st :
  reachable h db st -> reachable h db (run_events h evs st).
Proof.
  revert st. induction evs as [| ev evs IH]; intros st Hr; simpl; [done |].
  apply IH. by constructor.
Qed.

Lemma demo_running_reachable : reachable quiet_host demo_db demo_running.
Proof. apply reachable_run_events. constructor. Qed.

(** * The claims *)

(** ** The label bob loop *)

Lemma update_actor_label_y cb dy st y :
  label_y st cb = Some y ->
  label_y (update_actor (CelestialBody.label cb) (with_position_y dy) st) cb = Some (dy y).
Proof.
  unfold label_y. simpl. rewrite list_lookup_alter_eq.
  destruct (actors st !! CelestialBody.label cb); [| done]. by intros [= <-].
Qed.

(** The bob closure as a function of the state it runs in: one step of the
    label and one step of the counter, with the two jumps.  This is the
    closure of [animationPlayPause] in both source files. *)
Lemma labelLoop_tick_transition cb st :
  let c := labelLoopInc st in
  labelLoop_tick (Some cb) st =
    (if (c <? 5)%Z
     then bobbed cb (fun y => (y + 0.01)%float)
            (if (c + 1 =? 5)%Z then 10%Z else (c + 1)%Z) st
     else bobbed cb (fun y => (y - 0.01)%float)
            (if (c - 1 =? 5)%Z then 0%Z else (c - 1)%Z) st,
     inr tt).
Proof.
  unfold labelLoop_tick, bobbed. monad_simpl.
  destruct (labelLoopInc st <? 5)%Z; monad_simpl;
    [destruct (labelLoopInc st + 1 =? 5)%Z | destruct (labelLoopInc st - 1 =? 5)%Z];
    reflexivity.
Qed.

(** C1: in every reachable state, a timer that runs the bob closure is a
    100 ms interval over a registered body, and its tick does exactly this:
    with the counter below 5 the label's y grows by 0.01 and the counter
    becomes its successor, or 10 when that successor is 5; otherwise the
    label's y shrinks by 0.01 and the counter becomes its predecessor, or 0
    when that predecessor is 5.  Nothing else changes, the tick does not
    throw, and the counter is in [0,10] before and after. *)
Theorem C1_bob_tick h db st id t ocb :
  reachable h db st ->
  lookup_timer id (timers st) = Some t ->
  callback t = BobTick ocb ->
  exists cb y,
    ocb = Some cb /\ kind t = SetInterval /\ delay t = 100%Z /\
    label_y st cb = Some y /\
    let c := labelLoopInc st in
    let st1 := (step h (TimerFires id) st).1 in
    (step h (TimerFires id) st).2 = None /\
    ((c < 5)%Z ->
       st1 = bobbed cb (fun y => (y + 0.01)%float)
               (if (c + 1 =? 5)%Z then 10%Z else (c + 1)%Z) st /\
       label_y st1 cb = Some (y + 0.01)%float /\
       labelLoopInc st1 = (if (c + 1 =? 5)%Z then 10 else c + 1)%Z) /\
    ((5 <= c)%Z ->
       st1 = bobbed cb (fun y => (y - 0.01)%float)
               (if (c - 1 =? 5)%Z then 0%Z else (c - 1)%Z) st /\
       label_y st1 cb = Some (y - 0.01)%float /\
       labelLoopInc st1 = (if (c - 1 =? 5)%Z then 0 else c - 1)%Z) /\
    (0 <= c <= 10)%Z /\ (0 <= labelLoopInc st1 <= 10)%Z.
Proof.
  intros Hr Hid Hcb. pose proof (reachable_Inv h db st Hr) as HI.
  pose proof (inv_timers st HI id t (lookup_timer_elem _ _ _ Hid)) as Ht.
  unfold timer_ok in Ht. rewrite Hcb in Ht. destruct ocb as [cb |]; [| done].
  destruct Ht as (Hk & Hd & Hc).
  destruct (actors st !! CelestialBody.label cb) as [a |] eqn:Ha.
  2: { pose proof (chain_label _ _ Hc) as Hl. unfold parent_of in Hl.
       by rewrite Ha in Hl. }
  assert (Hy : label_y st cb = Some (vy (local_position a)))
    by (unfold label_y; by rewrite Ha).
  exists cb, (vy (local_position a)). repeat (split; [done |]).
  pose proof (inv_label st HI) as Hl.
  pose proof (inv_label _ (step_Inv h (TimerFires id) st HI)) as Hl1.
  cbn zeta. revert Hl1. cbn [step]. rewrite Hid, Hk, Hcb.
  cbn [run_callback]. rewrite labelLoop_tick_transition. cbn [fst snd]. intros Hl1.
  split; [done |]. split; [| split; [| done]].
  - intros Hlt. rewrite (proj2 (Z.ltb_lt _ _) Hlt). split; [done |].
    split; [by apply (update_actor_label_y cb (fun y => (y + 0.01)%float)) | done].
  - intros Hge. rewrite (proj2 (Z.ltb_ge _ _) Hge). split; [done |].
    split; [by apply (update_actor_label_y cb (fun y => (y - 0.01)%float)) | done].
Qed.

Lemma C1_bob_tick_witness :
  reachable quiet_host demo_db demo_running /\
  lookup_timer 0 (timers demo_running) = Some (bob_timer demo_box) /\
  callback (bob_timer demo_box) = BobTick (Some demo_box) /\
  exists cb y,
    Some demo_box = Some cb /\ kind (bob_timer demo_box) = SetInterval /\
    delay (bob_timer demo_box) = 100%Z /\
    label_y demo_running cb = Some y /\
    let c := labelLoopInc demo_running in
    let st1 := (step quiet_host (TimerFires 0) demo_running).1 in
    (step quiet_host (TimerFires 0) demo_running).2 = None /\
    ((c < 5)%Z ->
       st1 = bobbed cb (fun y => (y + 0.01)%float)
               (if (c + 1 =? 5)%Z then 10%Z else (c + 1)%Z) demo_running /\
       label_y st1 cb = Some (y + 0.01)%float /\
       labelLoopInc st1 = (if (c + 1 =? 5)%Z then 10 else c + 1)%Z) /\
    ((5 <= c)%Z ->
       st1 = bobbed cb (fun y => (y - 0.01)%float)
               (if (c - 1 =? 5)%Z then 0%Z else (c - 1)%Z) demo_running /\
       label_y st1 cb = Some (y - 0.01)%float /\
       labelLoopInc st1 = (if (c - 1 =? 5)%Z then 0 else c - 1)%Z) /\
    (0 <= c <= 10)%Z /\ (0 <= labelLoopInc st1 <= 10)%Z.
Proof.
  split; [apply demo_running_reachable |].
  split; [vm_compute; reflexivity |].
  split; [reflexivity |].
  apply (C1_bob_tick quiet_host demo_db demo_running 0 (bob_timer demo_box) (Some demo_box)).
  - apply demo_running_reachable.
  - vm_compute; reflexivity.
  - reflexivity.
Defined.

(** ** Bob timers across hover cycles *)

(** What is right in C2: a construction that returns starts exactly one bob
    loop, on the body just registered, when the display name is not empty,
    and none otherwise. *)
Lemma finished_starts_one_bob_loop h bodyName facts i p lb o0 o1 a st st1 :
  finished h bodyName facts i p lb o0 o1 a st st1 ->
  timers st1 =
    timers st ++
      (if bool_decide (name facts <> "")
       then [(next_timer st,
              bob_timer (CelestialBody.mk i p o0 o1 (length (actors st)) lb))]
       else []).
Proof. intros (_ & _ & Ht & _). exact Ht. Qed.

(** C2 on the code.  In the demo scene each of the two named bodies has one
    bob loop after construction.  One hover cycle on the box stops the
    gear's loop (the stored handle is that of the loop started last) and
    starts a second loop on the box: the box's label is now driven by two
    timers and the gear's by none.  With two overlapping cycles the second
    hover-enter clears nothing and the number of bob loops grows from 2
    to 3. *)
Theorem C2_bob_timers_on_the_code :
  length (bob_loops_on demo_box demo_running) = 1 /\
  length (bob_loops_on demo_gear demo_running) = 1 /\
  animationLoopIterval demo_running = Some 1 /\
  bob_loops_on demo_gear demo_running = [(1, bob_timer demo_gear)] /\
  bob_loops_on demo_box (run_events quiet_host box_cycle demo_running)
    = [(0, bob_timer demo_box); (2, bob_timer demo_box)] /\
  bob_loops_on demo_gear (run_events quiet_host box_cycle demo_running) = [] /\
  length (bob_loops demo_running) = 2 /\
  length (bob_loops (run_events quiet_host overlapping_cycles demo_running)) = 3.
Proof. evaluate. Qed.

(** ** The amplitude of the bob *)

(** C3 on the code.  The two bob loops of the demo scene share the one
    counter [labelLoopInc].  Both labels rest at y = 0.4.  After 5 rounds
    (10 ticks) the counter is back at 0, but the gear's label has sunk to
    0.39, below its rest offset, and the box's label has not come back
    down; after 30 rounds the box's label stands at 0.46, above rest +
    0.05, and the gear's at 0.34. *)
Theorem C3_labels_drift_on_the_code :
  label_y demo_running demo_box = Some 0.4%float /\
  label_y demo_running demo_gear = Some 0.4%float /\
  labelLoopInc (run_events quiet_host (bob_rounds 5) demo_running) = 0%Z /\
  label_y (run_events quiet_host (bob_rounds 5) demo_running) demo_gear
    = Some 0.39000000000000001%float /\
  (0.39000000000000001 <? 0.4)%float = true /\
  label_y (run_events quiet_host (bob_rounds 5) demo_running) demo_box
    = Some 0.41000000000000003%float /\
  label_y (run_events quiet_host (bob_rounds 30) demo_running) demo_box
    = Some 0.46000000000000008%float /\
  (0.4 + 0.05 <? 0.46000000000000008)%float = true /\
  label_y (run_events quiet_host (bob_rounds 30) demo_running) demo_gear
    = Some 0.33999999999999997%float.
Proof. evaluate. Qed.

(** ** Asset reuse *)

(** Reuse while the container stays.  Once a load for a path has settled
    and its assets, a prefab among them, are in their container, a later
    [createBody] for the same path, after any other builds and events,
    finds that prefab, requests no load and does not suspend, provided
    [this.assets] is then still that container; when the host refuses none
    of the body's names the model is created from the prefab found. *)
Theorem C4_asset_reuse h db st0 k s units a0 ops bodyName facts :
  awaiting st0 !! k = Some s ->
  loadGltf_reply h (s_uri s) = inr units ->
  List.find is_prefab (gltf_assets (s_uri s) units) = Some a0 ->
  s_container s < length (containers st0) ->
  db_get db bodyName = Some facts ->
  model_uri bodyName facts = s_uri s ->
  let st := (step h (LoadSettled k) st0).1 in
  let st1 := run_ops h db ops st in
  assets st1 = s_container s ->
  let r := createBody h db bodyName st1 in
  loads r.1 = loads st1 /\ awaiting r.1 = awaiting st1 /\ r.2 = Resolved /\
  exists a,
    find_prefab (s_uri s) (container_assets st1 (assets st1)) = Some a /\
    ((forall n, n ∈ six_names bodyName -> Actor_Create_throws h n = None) ->
     model_of r.1 bodyName (fun m => prefab m = Some a)).
Proof.
  intros Hk Hreply Hfind Hc Hdb Huri st st1 Hcur r.
  (* the settled load leaves a prefab for the path in its container *)
  assert (Hreg : exists l a, containers st !! s_container s = Some l /\
                   find_prefab (s_uri s) l = Some a).
  { subst st. cbn [step]. rewrite Hk. cbn [fst].
    set (stk := set_awaiting (delete k (awaiting st0)) st0).
    destruct (lookup_lt_is_Some_2 (containers st0) _ Hc) as [old Hold].
    destruct (find_prefab_loaded (s_uri s) old units a0 Hfind) as [a Ha].
    assert (Hadd : containers (add_assets (s_container s) (gltf_assets (s_uri s) units) stk).1
                     !! s_container s = Some (old ++ gltf_assets (s_uri s) units)).
    { cbn [add_assets modify fst]. state_simpl. subst stk. state_simpl.
      by rewrite list_lookup_alter_eq, Hold. }
    pose proof (createBody_resume_cases h s stk) as H. rewrite Hreply in H.
    cbv zeta in H. rewrite Hfind in H.
    destruct (Actor_Create_throws h (s_bodyName s +:+ "-body")) as [msg |].
    - rewrite H. cbn [fst]. rewrite createBody_catch_run. state_simpl. eauto.
    - destruct H as (st2 & Hf & ->). cbn [fst].
      destruct (containers_grow_finished _ _ _ _ _ _ _ _ _ _ _ Hf _ _ Hadd) as [more Hm].
      eexists _, a. split; [exact Hm |]. by apply find_prefab_app. }
  destruct Hreg as (l & a & Hl & Ha).
  destruct (run_ops_containers_grow h db ops st _ _ Hl) as [more Hmore].
  fold st1 in Hmore.
  assert (Hfound : find_prefab (s_uri s) (container_assets st1 (assets st1)) = Some a).
  { unfold container_assets. rewrite Hcur, Hmore. simpl. by apply find_prefab_app. }
  destruct (createBody_cases h db bodyName facts st1 Hdb)
    as (l1 & Hg & [(n & msg & Hn & Hm & Hrun) | (i & p & lb & o0 & o1 & HN & _ & Hnone & H)]).
  { subst r. rewrite Hrun. cbn [fst snd]. rewrite createBody_catch_run. state_simpl.
    repeat (split; [done |]). exists a. split; [done |].
    intros Hok. rewrite (Hok n (six_names_nodes _ _ Hn)) in Hm. done. }
  rewrite Huri, Hfound in H.
  destruct (Actor_Create_throws h (bodyName +:+ "-body")) as [msg |] eqn:Hbody.
  - subst r. rewrite H. cbn [fst snd]. rewrite createBody_catch_run. state_simpl.
    repeat (split; [done |]). exists a. split; [done |].
    intros Hok. rewrite (Hok _ (six_names_body bodyName)) in Hbody. done.
  - destruct H as (st2 & Hf & Hrun). subst r. rewrite Hrun. cbn [fst snd].
    pose proof Hf as (_ & _ & _ & _ & _ & _ & _ & _ & _ & Hloads & Haw & _).
    split; [by rewrite Hloads |]. split; [by rewrite Haw |]. split; [done |].
    exists a. split; [done |]. intros _.
    eapply finished_model_of; [exact Hf | | done].
    state_simpl. destruct HN as [Hd _ _ _ _ _]. lia.
Qed.

Lemma C4_asset_reuse_witness :
  awaiting demo_started !! 0 = Some box_suspended /\
  loadGltf_reply quiet_host (s_uri box_suspended) = inr scene_units /\
  List.find is_prefab (gltf_assets (s_uri box_suspended) scene_units) = Some box_prefab /\
  s_container box_suspended < length (containers demo_started) /\
  db_get demo_db "box_model_cloud" = Some box_record /\
  model_uri "box_model_cloud" box_record = s_uri box_suspended /\
  let st := (step quiet_host (LoadSettled 0) demo_started).1 in
  let st1 := run_ops quiet_host demo_db [Happens (TimerFires 0)] st in
  assets st1 = s_container box_suspended /\
  let r := createBody quiet_host demo_db "box_model_cloud" st1 in
  loads r.1 = loads st1 /\ awaiting r.1 = awaiting st1 /\ r.2 = Resolved /\
  exists a,
    find_prefab (s_uri box_suspended) (container_assets st1 (assets st1)) = Some a /\
    ((forall n, n ∈ six_names "box_model_cloud" ->
        Actor_Create_throws quiet_host n = None) ->
     model_of r.1 "box_model_cloud" (fun m => prefab m = Some a)).
Proof.
  assert (H1 : awaiting demo_started !! 0 = Some box_suspended)
    by (vm_compute; reflexivity).
  assert (H2 : loadGltf_reply quiet_host (s_uri box_suspended) = inr scene_units)
    by reflexivity.
  assert (H3 : List.find is_prefab (gltf_assets (s_uri box_suspended) scene_units)
               = Some box_prefab) by (vm_compute; reflexivity).
  assert (H4 : s_container box_suspended < length (containers demo_started))
    by (vm_compute; lia).
  assert (H5 : db_get demo_db "box_model_cloud" = Some box_record)
    by (vm_compute; reflexivity).
  assert (H6 : model_uri "box_model_cloud" box_record = s_uri box_suspended)
    by (vm_compute; reflexivity).
  assert (H7 : assets (run_ops quiet_host demo_db [Happens (TimerFires 0)]
                         (step quiet_host (LoadSettled 0) demo_started).1)
               = s_container box_suspended) by (vm_compute; reflexivity).
  repeat (split; [assumption |]).
  exact (C4_asset_reuse quiet_host demo_db demo_started 0 box_suspended scene_units
           box_prefab [Happens (TimerFires 0)] "box_model_cloud" box_record
           H1 H2 H3 H4 H5 H6 H7).
Defined.


(** ** The error boundary of [createBody] *)

Lemma db_get_keys db k : k ∈ Object_keys db -> is_Some (db_get db k).
Proof.
  unfold Object_keys. induction db as [| [k1 f] db IH]; simpl.
  - intros H. by apply not_elem_of_nil in H.
  - rewrite elem_of_cons. intros [-> | H].
    + rewrite bool_decide_eq_true_2 by done. eauto.
    + case_bool_decide; eauto.
Qed.

Lemma failed_with_catch bodyName e st st0 :
  actors_grow (actors st) (actors st0) ->
  celestialBodies st0 = celestialBodies st -> timers st0 = timers st ->
  handlers st0 = handlers st -> awaiting st0 = awaiting st -> assets st0 = assets st ->
  tweens st0 = tweens st -> labelLoopInc st0 = labelLoopInc st ->
  animationLoopIterval st0 = animationLoopIterval st ->
  childBoxTimeout st0 = childBoxTimeout st -> log st0 = log st ->
  failed_with bodyName e st (createBody_catch bodyName e st0).
Proof.
  intros. rewrite createBody_catch_run. unfold failed_with. state_simpl.
  repeat split; try done. congruence.
Qed.

Lemma createBody_keeps_attempted h db k b st :
  attempted b st -> attempted b (createBody h db k st).1.
Proof.
  intros Hb.
  destruct (db_get db k) as [facts |] eqn:Hdb.
  2: { unfold createBody. by rewrite Hdb. }
  destruct (createBody_cases h db k facts st Hdb)
    as (l1 & _ & [(n & msg & _ & _ & ->) | (i & p & lb & o0 & o1 & _ & _ & _ & H)]).
  { exact Hb. }
  destruct (find_prefab _ _) as [a |].
  - destruct (Actor_Create_throws h (k +:+ "-body")) as [msg |].
    + rewrite H. exact Hb.
    + destruct H as (st2 & Hf & ->). cbn [fst].
      destruct Hf as (Hreg & _ & _ & _ & _ & _ & _ & _ & _ & _ & Haw & _).
      unfold attempted.
      destruct Hb as [Hs | Hs]; [left | right; by rewrite Haw].
      rewrite Hreg, lookup_insert. case_decide; eauto.
  - rewrite H. unfold attempted. cbn [fst]. state_simpl.
    destruct Hb as [Hs | (s & Hs & Hn)]; [by left | right].
    exists s. rewrite elem_of_app. auto.
Qed.

Lemma createBody_attempts h db b facts st :
  db_get db b = Some facts ->
  (forall n, n ∈ six_names b -> Actor_Create_throws h n = None) ->
  attempted b (createBody h db b st).1.
Proof.
  intros Hdb Hok.
  destruct (createBody_cases h db b facts st Hdb)
    as (l1 & _ & [(n & msg & Hn & Hm & _) | (i & p & lb & o0 & o1 & _ & _ & _ & H)]).
  { rewrite (Hok n (six_names_nodes _ _ Hn)) in Hm. done. }
  destruct (find_prefab _ _) as [a |].
  - rewrite (Hok _ (six_names_body b)) in H. destruct H as (st2 & Hf & ->).
    unfold attempted. left. destruct Hf as (Hreg & _). cbn [fst].
    rewrite Hreg, lookup_insert_eq. eauto.
  - rewrite H. unfold attempted. right. eexists. cbn [fst]. state_simpl. split.
    + rewrite elem_of_app, list_elem_of_singleton. by right.
    + reflexivity.
Qed.

Lemma createSolarSystem_attempts h db b st :
  b ∈ Object_keys db ->
  (forall n, n ∈ six_names b -> Actor_Create_throws h n = None) ->
  attempted b (createSolarSystem h db st).
Proof.
  intros Hb Hok. destruct (db_get_keys db b Hb) as [facts Hdb].
  unfold createSolarSystem. revert st Hb. generalize (Object_keys db) as keys.
  induction keys as [| k keys IH]; intros st Hb; simpl.
  - by apply not_elem_of_nil in Hb.
  - apply elem_of_cons in Hb as [<- | Hb]; [| by apply IH].
    assert (Hkeep : forall ks s, attempted b s ->
              attempted b (fold_left (fun s0 k0 => (createBody h db k0 s0).1) ks s)).
    { induction ks as [| k0 ks IHk]; intros s Hs; simpl; [done |].
      apply IHk. by apply createBody_keeps_attempted. }
    apply Hkeep. by eapply createBody_attempts.
Qed.

(** C5.  A [createBody] call on a body of the database never rejects: it
    resolves or is pending.  Up to its suspension point it goes one of three
    ways: the host refuses one of the body's nodes, and then the failure is
    logged with the body name and the error and nothing else of the instance
    changes; or the body is registered and nothing is logged; or the call
    suspends on its load and nothing is logged.  After the load the
    continuation resolves too, with the body registered or with the failure
    (a rejected load, a file without prefab, a refused model) logged the
    same way.  And [createSolarSystem] goes through every key whatever
    happens to the others: a body none of whose names the host refuses is
    registered or suspended on its load when the loop is over. *)
Theorem C5_error_boundary h db bodyName facts st :
  db_get db bodyName = Some facts ->
  let r := createBody h db bodyName st in
  ((exists n msg,
      n ∈ six_names bodyName /\ Actor_Create_throws h n = Some msg /\
      failed_with bodyName (HostError msg) st r.1 /\ r.2 = Resolved) \/
   (log r.1 = log st /\ r.2 = Resolved /\ is_Some (celestialBodies r.1 !! bodyName)) \/
   (log r.1 = log st /\ r.2 = Pending /\
    exists s, awaiting r.1 = awaiting st ++ [s] /\
      s_bodyName s = bodyName /\ s_facts s = facts)) /\
  (forall s st0, s_bodyName s = bodyName ->
     let r0 := createBody_resume h s st0 in
     r0.2 = Resolved /\
     ((exists e,
         failed_with bodyName e st0 r0.1 /\
         ((exists msg, loadGltf_reply h (s_uri s) = inl msg /\ e = HostError msg) \/
          (exists units, loadGltf_reply h (s_uri s) = inr units /\
             List.find is_prefab (gltf_assets (s_uri s) units) = None /\
             e = undefined_error "prefab") \/
          (exists msg, Actor_Create_throws h (bodyName +:+ "-body") = Some msg /\
             e = HostError msg))) \/
      (log r0.1 = log st0 /\ is_Some (celestialBodies r0.1 !! bodyName)))) /\
  (forall st0,
     bodyName ∈ Object_keys db ->
     (forall n, n ∈ six_names bodyName -> Actor_Create_throws h n = None) ->
     attempted bodyName (createSolarSystem h db st0)).
Proof.
  intros Hdb r. split; [| split].
  - subst r.
    destruct (createBody_cases h db bodyName facts st Hdb)
      as (l1 & Hg & [(n & msg & Hn & Hm & ->) | (i & p & lb & o0 & o1 & _ & _ & _ & H)]).
    { left. exists n, msg. cbn [fst snd]. split; [by apply six_names_nodes |].
      split; [done |]. split; [| done]. by apply failed_with_catch. }
    destruct (find_prefab _ _) as [a |].
    + destruct (Actor_Create_throws h (bodyName +:+ "-body")) as [msg |] eqn:Hm.
      * left. exists (bodyName +:+ "-body"), msg. rewrite H. cbn [fst snd].
        split; [apply six_names_body |]. split; [done |]. split; [| done].
        by apply failed_with_catch.
      * right. left. destruct H as (st2 & Hf & ->). cbn [fst snd].
        destruct Hf as (Hreg & _ & _ & _ & _ & _ & _ & _ & Hlog & _).
        split; [exact Hlog |]. split; [done |]. rewrite Hreg, lookup_insert_eq. eauto.
    + right. right. rewrite H. cbn [fst snd]. state_simpl.
      split; [done |]. split; [done |]. eexists. split; [reflexivity |]. by split.
  - intros s st0 Hs r0. subst r0 bodyName.
    pose proof (createBody_resume_cases h s st0) as H.
    destruct (loadGltf_reply h (s_uri s)) as [msg | units] eqn:Hreply.
    { rewrite H. cbn [fst snd]. split; [done |]. left. exists (HostError msg).
      split; [| left; eauto]. apply failed_with_catch; try done. apply actors_grow_refl. }
    cbv zeta in H. destruct (List.find is_prefab _) as [a |] eqn:Hfind.
    + destruct (Actor_Create_throws h (s_bodyName s +:+ "-body")) as [msg |] eqn:Hm.
      * rewrite H. cbn [fst snd]. split; [done |]. left. exists (HostError msg).
        split; [| right; right; eauto]. apply failed_with_catch; try done.
        apply actors_grow_refl.
      * destruct H as (st2 & Hf & ->). cbn [fst snd]. split; [done |]. right.
        destruct Hf as (Hreg & _ & _ & _ & _ & _ & _ & _ & Hlog & _).
        split; [exact Hlog |]. rewrite Hreg, lookup_insert_eq. eauto.
    + rewrite H. cbn [fst snd]. split; [done |]. left. exists (undefined_error "prefab").
      split; [| right; left; eauto]. apply failed_with_catch; try done.
      apply actors_grow_refl.
  - intros st0 Hb Hok. by apply createSolarSystem_attempts.
Qed.

Lemma C5_error_boundary_witness :
  db_get demo_db "box_model_cloud" = Some box_record /\
  let h := refusing_host in
  let db := demo_db in
  let bodyName := "box_model_cloud" in
  let facts := box_record in
  let st := init_state in
  let r := createBody h db bodyName st in
  ((exists n msg,
      n ∈ six_names bodyName /\ Actor_Create_throws h n = Some msg /\
      failed_with bodyName (HostError msg) st r.1 /\ r.2 = Resolved) \/
   (log r.1 = log st /\ r.2 = Resolved /\ is_Some (celestialBodies r.1 !! bodyName)) \/
   (log r.1 = log st /\ r.2 = Pending /\
    exists s, awaiting r.1 = awaiting st ++ [s] /\
      s_bodyName s = bodyName /\ s_facts s = facts)) /\
  (forall s st0, s_bodyName s = bodyName ->
     let r0 := createBody_resume h s st0 in
     r0.2 = Resolved /\
     ((exists e,
         failed_with bodyName e st0 r0.1 /\
         ((exists msg, loadGltf_reply h (s_uri s) = inl msg /\ e = HostError msg) \/
          (exists units, loadGltf_reply h (s_uri s) = inr units /\
             List.find is_prefab (gltf_assets (s_uri s) units) = None /\
             e = undefined_error "prefab") \/
          (exists msg, Actor_Create_throws h (bodyName +:+ "-body") = Some msg /\
             e = HostError msg))) \/
      (log r0.1 = log st0 /\ is_Some (celestialBodies r0.1 !! bodyName)))) /\
  (forall st0,
     bodyName ∈ Object_keys db ->
     (forall n, n ∈ six_names bodyName -> Actor_Create_throws h n = None) ->
     attempted bodyName (createSolarSystem h db st0)).
Proof.
  assert (Hdb : db_get demo_db "box_model_cloud" = Some box_record)
    by (vm_compute; reflexivity).
  split; [exact Hdb |].
  exact (C5_error_boundary refusing_host demo_db "box_model_cloud" box_record init_state Hdb).
Defined.

(** The boundary at work: the host refuses the label of the box and the
    gear's file has no prefab.  Both failures are logged with body name and
    error, and the popup is built all the same. *)
Example failures_are_logged_and_the_rest_is_built :
  let st := run_events refusing_host [LoadSettled 0; LoadSettled 0]
              (started refusing_host demo_db) in
  log st =
    ["app: createBody failed box_model_cloud, Error: refused";
     "app: createBody failed only_gear, TypeError: Cannot read property 'prefab' of undefined"]
  /\ celestialBodies st !! "box_model_cloud" = None
  /\ celestialBodies st !! "only_gear" = None
  /\ celestialBodies st !! "popup_model" = Some (CelestialBody.mk 7 8 10 11 12 9).
Proof. cbv zeta. evaluate. Qed.

(** ** The scene graph of a body *)

(** C6: in every state the program can reach, the six nodes registered for
    a body are six distinct actors linked exactly as the layout in
    [createBody] says: inclination has no parent, position hangs under
    inclination, label and obliquity0 under position, obliquity1 under
    obliquity0 and model under obliquity1; there is no other parent link
    between two of the six. *)
Theorem C6_parent_chain h db st bodyName cb :
  reachable h db st ->
  celestialBodies st !! bodyName = Some cb ->
  chain_ok (actors st) cb /\
  NoDup (body_nodes cb) /\
  parent_of (actors st) (CelestialBody.inclination cb) = Some None /\
  forall x y, x ∈ body_nodes cb -> y ∈ body_nodes cb ->
    (parent_of (actors st) x = Some (Some y) <-> (x, y) ∈ body_links cb).
Proof.
  intros Hr Hb. pose proof (inv_bodies st (reachable_Inv h db st Hr) bodyName cb Hb) as Hc.
  split; [done |]. destruct Hc as [Hd H0 H1 H2 H3 H4 H5].
  destruct cb as [i p o0 o1 m lb]. simpl in *.
  split; [| split; [done |]].
  - unfold body_nodes. simpl. repeat (apply NoDup_cons; split; [set_unfold; lia |]).
    apply NoDup_nil_2.
  - intros x y Hx Hy. unfold body_nodes, body_links in *. simpl in *. set_unfold.
    destruct Hx as [-> | [-> | [-> | [-> | [-> | [-> | []]]]]]];
      rewrite ?H0, ?H1, ?H2, ?H3, ?H4, ?H5;
      (split; [intros [= <-]; tauto |]);
      intros Hl; repeat (destruct Hl as [Hl | Hl]); try done;
      injection Hl; intros; first [lia | by subst].
Qed.

Lemma C6_parent_chain_witness :
  reachable quiet_host demo_db demo_running /\
  celestialBodies demo_running !! "box_model_cloud" = Some demo_box /\
  chain_ok (actors demo_running) demo_box /\
  NoDup (body_nodes demo_box) /\
  parent_of (actors demo_running) (CelestialBody.inclination demo_box) = Some None /\
  forall x y, x ∈ body_nodes demo_box -> y ∈ body_nodes demo_box ->
    (parent_of (actors demo_running) x = Some (Some y) <-> (x, y) ∈ body_links demo_box).
Proof.
  split; [apply demo_running_reachable |]. split; [vm_compute; reflexivity |].
  apply (C6_parent_chain quiet_host demo_db demo_running "box_model_cloud" demo_box).
  - apply demo_running_reachable.
  - vm_compute; reflexivity.
Defined.

(** ** The popup *)

Lemma lookup_timer_remove id l : lookup_timer id (remove_timer id l) = None.
Proof.
  unfold remove_timer. induction l as [| [i t] l IH]; [done |].
  rewrite filter_cons. simpl. case_decide as Hi; simpl; [| done].
  by rewrite bool_decide_eq_false_2.
Qed.

Lemma elem_of_remove_timer id l i t :
  (i, t) ∈ remove_timer id l <-> i <> id /\ (i, t) ∈ l.
Proof. unfold remove_timer. by rewrite list_elem_of_filter. Qed.

(** C7, as the code has it.  A click on an interactive body, with
    popup_model registered, does not throw.  It clears the shrink timer
    whose handle is stored (that of the latest box-close), starts no timer
    and leaves the bob loops running; it makes the popup model visible and
    requests one tween of the popup model's scale to the fixed target,
    [Math.pow(1000, 1 / 3) / 25 / 2] on each axis, over 1 time unit.  The
    tween names only its destination: it starts from the scale the model
    has.  If the stored handle is the only shrink pending, no shrink is left
    to fire after the click. *)
Theorem C7_click_reveals_popup h st b p :
  b ∈ handlers st ->
  celestialBodies st !! "popup_model" = Some p ->
  let click := step h (Click b) st in
  click.2 = None /\
  (forall id, childBoxTimeout st = Some id -> lookup_timer id (timers click.1) = None) /\
  (forall i t, (i, t) ∈ timers click.1 -> (i, t) ∈ timers st) /\
  (forall i t, (i, t) ∈ timers st -> callback t <> PopupShrink ->
     childBoxTimeout st <> Some i -> (i, t) ∈ timers click.1) /\
  (forall a, actors st !! CelestialBody.model p = Some a ->
     actors click.1 !! CelestialBody.model p = Some (with_appearance_enabled true a)) /\
  tweens click.1 =
    tweens st ++ [AnimateTo (CelestialBody.model p) (LocalScale (popup_target h)) 1] /\
  popup_target h = scaleValue h 1000 /\
  ((forall id t, (id, t) ∈ timers st -> callback t = PopupShrink ->
      childBoxTimeout st = Some id) ->
   forall id t, (id, t) ∈ timers click.1 -> callback t <> PopupShrink).
Proof.
  intros Hb Hp. cbn zeta. cbn [step]. rewrite bool_decide_eq_true_2 by done.
  unfold onClick. rewrite childModelDisplay_run. cbv zeta. rewrite Hp.
  cbn [fst snd]. state_simpl.
  destruct (cleared_frame (childBoxTimeout st) st) as (_ & _ & Ha).
  split; [done |]. split; [| split; [| split; [| split; [| split; [| split]]]]].
  - intros id ->. simpl. apply lookup_timer_remove.
  - intros i t Ht. destruct (childBoxTimeout st); simpl in Ht; [| done].
    by apply elem_of_remove_timer in Ht as [_ Ht].
  - intros i t Ht _ Hi. destruct (childBoxTimeout st) as [id |]; simpl; [| done].
    apply elem_of_remove_timer. split; [congruence | done].
  - intros a Hm. rewrite Ha, list_lookup_alter_eq, Hm. done.
  - done.
  - done.
  - intros Hone id t Ht Hcb. destruct (childBoxTimeout st) as [id0 |] eqn:Hbox; simpl in Ht.
    + apply elem_of_remove_timer in Ht as [Hne Ht].
      specialize (Hone id t Ht Hcb). congruence.
    + by specialize (Hone id t Ht Hcb).
Qed.

Lemma C7_click_reveals_popup_witness :
  "box_model_cloud" ∈ handlers demo_running /\
  celestialBodies demo_running !! "popup_model" = Some demo_popup /\
  let st := demo_running in
  let h := quiet_host in
  let p := demo_popup in
  let click := step h (Click "box_model_cloud") st in
  click.2 = None /\
  (forall id, childBoxTimeout st = Some id -> lookup_timer id (timers click.1) = None) /\
  (forall i t, (i, t) ∈ timers click.1 -> (i, t) ∈ timers st) /\
  (forall i t, (i, t) ∈ timers st -> callback t <> PopupShrink ->
     childBoxTimeout st <> Some i -> (i, t) ∈ timers click.1) /\
  (forall a, actors st !! CelestialBody.model p = Some a ->
     actors click.1 !! CelestialBody.model p = Some (with_appearance_enabled true a)) /\
  tweens click.1 =
    tweens st ++ [AnimateTo (CelestialBody.model p) (LocalScale (popup_target h)) 1] /\
  popup_target h = scaleValue h 1000 /\
  ((forall id t, (id, t) ∈ timers st -> callback t = PopupShrink ->
      childBoxTimeout st = Some id) ->
   forall id t, (id, t) ∈ timers click.1 -> callback t <> PopupShrink).
Proof.
  assert (Hb : "box_model_cloud" ∈ handlers demo_running)
    by (apply (bool_decide_unpack _); vm_compute; exact I).
  assert (Hp : celestialBodies demo_running !! "popup_model" = Some demo_popup)
    by (vm_compute; reflexivity).
  split; [exact Hb |]. split; [exact Hp |].
  exact (C7_click_reveals_popup quiet_host demo_running "box_model_cloud" demo_popup Hb Hp).
Defined.

(** C7, as the spec words it, fails.  After two hover cycles in a row the
    click clears only the second shrink timer: the first (handle 3) is still
    live after the click, and when it fires it shrinks the popup that the
    click has just revealed.  Nor does the reveal start from zero: at the
    click the popup model still has the scale it was built with, which is
    the target itself. *)
Lemma C7_earlier_shrink_survives_click :
  lookup_timer 3 (timers demo_swept) = Some shrink_timer /\
  lookup_timer 5 (timers demo_swept) = Some shrink_timer /\
  childBoxTimeout demo_swept = Some 5 /\
  (step quiet_host (Click "box_model_cloud") demo_swept).2 = None /\
  lookup_timer 5 (timers demo_clicked) = None /\
  lookup_timer 3 (timers demo_clicked) = Some shrink_timer /\
  tweens (step quiet_host (TimerFires 3) demo_clicked).1 =
    tweens demo_clicked ++
      [AnimateTo (CelestialBody.model demo_popup) (LocalScale (scaleValue quiet_host 0)) 1] /\
  (local_scale <$> actors demo_swept !! CelestialBody.model demo_popup)
    = Some (popup_target quiet_host) /\
  (vx (popup_target quiet_host) =? 0)%float = false.
Proof. evaluate. Qed.

(** ** The gear loop *)

Lemma gearLoop_tick_range ocb st :
  (0 <= gearLoopInc st <= 20)%Z -> (0 <= gearLoopInc (gearLoop_tick ocb st).1 <= 20)%Z.
Proof.
  intros Hr. unfold gearLoop_tick. monad_simpl.
  destruct (Z.ltb_spec (gearLoopInc st) 10); destruct ocb; monad_simpl; try lia.
  - destruct (Z.eqb_spec (gearLoopInc st + 1) 10); monad_simpl; lia.
  - destruct (Z.eqb_spec (gearLoopInc st - 1) 10); monad_simpl; lia.
Qed.

Lemma timer_ok_shape l t :
  timer_ok l t -> (exists cb, t = bob_timer cb /\ chain_ok l cb) \/ t = shrink_timer.
Proof.
  unfold timer_ok. destruct t as [k d [[cb |] | ocb |]]; simpl; try done.
  - intros (-> & -> & Hc). left. by exists cb.
  - intros (-> & ->). by right.
Qed.

Lemma gearLoop_tick_transition cb st :
  let c := gearLoopInc st in
  gearLoop_tick (Some cb) st =
    (if (c <? 10)%Z
     then geared cb (fun x => (x + 0.01)%float)
            (if (c + 1 =? 10)%Z then 20%Z else (c + 1)%Z) st
     else geared cb (fun x => (x - 0.01)%float)
            (if (c - 1 =? 10)%Z then 0%Z else (c - 1)%Z) st,
     inr tt).
Proof.
  unfold gearLoop_tick, geared. monad_simpl.
  destruct (gearLoopInc st <? 10)%Z; monad_simpl;
    [destruct (gearLoopInc st + 1 =? 10)%Z | destruct (gearLoopInc st - 1 =? 10)%Z];
    reflexivity.
Qed.

Lemma gearLoop_tick_undefined st :
  gearLoop_tick None st = (st, inl (undefined_error "model")).
Proof.
  unfold gearLoop_tick, undefined_error. monad_simpl.
  by destruct (gearLoopInc st <? 10)%Z.
Qed.

Lemma gear_phases_next k c :
  k < 20 -> gear_phases !! k = Some c ->
  gear_phases !! (S k mod 20) =
    Some (if c <? 10 then if c + 1 =? 10 then 20 else c + 1
          else if c - 1 =? 10 then 0 else c - 1)%Z /\
  ((c <? 10)%Z = true <-> k < 10).
Proof.
  intros Hk Hc.
  do 20 (destruct k as [| k]; [injection Hc as <-; split; [reflexivity |];
                               simpl; split; (done || lia) |]).
  lia.
Qed.

(** C8, as the code has it: no gear oscillation loop is ever started.  In
    every reachable state the gear counter is still 0 and every live timer
    is a bob loop or the popup shrink; the gear effect is the looping
    animation bound to the model of the body named only_gear when it is
    built.  [gearAnimation] itself is never called.  A tick of its loop
    would do exactly this: with the counter below 10 the model's rotation
    about x grows by 0.01 and the counter becomes its successor, or 20 when
    that successor is 10; otherwise the rotation shrinks by 0.01 and the
    counter becomes its predecessor, or 0 when that predecessor is 10.  So
    the counter would run through 0, ..., 9, 20, 19, ..., 11 and round
    again, turning up in the first ten places and down in the last ten,
    jumping from 9 to 20 and from 11 to 0, and staying within [0,20]; over
    an unregistered body the tick would throw. *)
Theorem C8_gear_loop_not_started h db st :
  reachable h db st ->
  gearLoopInc st = 0%Z /\
  (forall id t, (id, t) ∈ timers st -> (exists cb, t = bob_timer cb) \/ t = shrink_timer) /\
  gear_bound st /\
  (forall ocb s, (0 <= gearLoopInc s <= 20)%Z ->
     (0 <= gearLoopInc (gearLoop_tick ocb s).1 <= 20)%Z) /\
  (forall cb s,
     let c := gearLoopInc s in
     gearLoop_tick (Some cb) s =
       (if (c <? 10)%Z
        then geared cb (fun x => (x + 0.01)%float)
               (if (c + 1 =? 10)%Z then 20%Z else (c + 1)%Z) s
        else geared cb (fun x => (x - 0.01)%float)
               (if (c - 1 =? 10)%Z then 0%Z else (c - 1)%Z) s,
        inr tt)) /\
  (forall s, gearLoop_tick None s = (s, inl (undefined_error "model"))) /\
  (forall k cb s,
     k < 20 -> gear_phases !! k = Some (gearLoopInc s) ->
     gear_phases !! (S k mod 20) = Some (gearLoopInc (gearLoop_tick (Some cb) s).1) /\
     ((gearLoopInc s <? 10)%Z = true <-> k < 10)) /\
  (forall cb s,
     (gearLoopInc s = 9%Z -> gearLoopInc (gearLoop_tick (Some cb) s).1 = 20%Z) /\
     (gearLoopInc s = 11%Z -> gearLoopInc (gearLoop_tick (Some cb) s).1 = 0%Z) /\
     (gearLoopInc s = 20%Z -> gearLoopInc (gearLoop_tick (Some cb) s).1 = 19%Z) /\
     (gearLoopInc s = 0%Z -> gearLoopInc (gearLoop_tick (Some cb) s).1 = 1%Z)).
Proof.
  intros Hr. pose proof (reachable_Inv h db st Hr) as HI.
  split; [by apply inv_gear |]. split; [| split; [| split; [| split; [| split; [| split]]]]].
  - intros id t Ht. destruct (timer_ok_shape _ _ (inv_timers st HI id t Ht))
      as [(cb & -> & _) | ->]; eauto.
  - by eapply reachable_gear_bound.
  - intros ocb s. apply gearLoop_tick_range.
  - intros cb s. apply gearLoop_tick_transition.
  - apply gearLoop_tick_undefined.
  - intros k cb s Hk Hc. destruct (gear_phases_next k _ Hk Hc) as [Hnext Hlt].
    split; [| done]. rewrite gearLoop_tick_transition. cbv zeta. rewrite Hnext.
    by destruct (gearLoopInc s <? 10)%Z.
  - intros cb s. rewrite gearLoop_tick_transition. cbv zeta.
    repeat split; intros ->; reflexivity.
Qed.

Lemma C8_gear_loop_not_started_witness :
  reachable quiet_host demo_db demo_running /\
  gearLoopInc demo_running = 0%Z /\
  (forall id t, (id, t) ∈ timers demo_running ->
     (exists cb, t = bob_timer cb) \/ t = shrink_timer) /\
  gear_bound demo_running /\
  (forall ocb s, (0 <= gearLoopInc s <= 20)%Z ->
     (0 <= gearLoopInc (gearLoop_tick ocb s).1 <= 20)%Z) /\
  (forall cb s,
     let c := gearLoopInc s in
     gearLoop_tick (Some cb) s =
       (if (c <? 10)%Z
        then geared cb (fun x => (x + 0.01)%float)
               (if (c + 1 =? 10)%Z then 20%Z else (c + 1)%Z) s
        else geared cb (fun x => (x - 0.01)%float)
               (if (c - 1 =? 10)%Z then 0%Z else (c - 1)%Z) s,
        inr tt)) /\
  (forall s, gearLoop_tick None s = (s, inl (undefined_error "model"))) /\
  (forall k cb s,
     k < 20 -> gear_phases !! k = Some (gearLoopInc s) ->
     gear_phases !! (S k mod 20) = Some (gearLoopInc (gearLoop_tick (Some cb) s).1) /\
     ((gearLoopInc s <? 10)%Z = true <-> k < 10)) /\
  (forall cb s,
     (gearLoopInc s = 9%Z -> gearLoopInc (gearLoop_tick (Some cb) s).1 = 20%Z) /\
     (gearLoopInc s = 11%Z -> gearLoopInc (gearLoop_tick (Some cb) s).1 = 0%Z) /\
     (gearLoopInc s = 20%Z -> gearLoopInc (gearLoop_tick (Some cb) s).1 = 19%Z) /\
     (gearLoopInc s = 0%Z -> gearLoopInc (gearLoop_tick (Some cb) s).1 = 1%Z)).
Proof.
  split; [apply demo_running_reachable |].
  apply (C8_gear_loop_not_started quiet_host demo_db demo_running).
  apply demo_running_reachable.
Defined.

(** A gear loop run by hand on the built demo scene: ten ticks take the
    counter from 0 to 20, ten more take it back to 0. *)
Example gear_ticks_by_hand :
  let tick s := (gearLoop_tick (Some demo_gear) s).1 in
  gearLoopInc (Nat.iter 9 tick demo_running) = 9%Z /\
  gearLoopInc (Nat.iter 10 tick demo_running) = 20%Z /\
  gearLoopInc (Nat.iter 19 tick demo_running) = 11%Z /\
  gearLoopInc (Nat.iter 20 tick demo_running) = 0%Z.
Proof. cbv zeta. evaluate. Qed.

(** C8, as the spec words it, fails: there is no host, database and
    reachable state in which a timer runs the gear closure. *)
Lemma C8_no_gear_timer :
  ~ exists h db st id t ocb,
      reachable h db st /\ (id, t) ∈ timers st /\ callback t = GearTick ocb.
Proof.
  intros (h & db & st & id & t & ocb & Hr & Ht & Hcb).
  pose proof (inv_timers st (reachable_Inv h db st Hr) id t Ht) as Hok.
  unfold timer_ok in Hok. by rewrite Hcb in Hok.
Qed.

(** ** The scale of the model *)

Lemma quiet_host_ECMAScript_pow : ECMAScript_pow quiet_host.
Proof.
  split; [vm_compute; reflexivity |]. split; [vm_compute; reflexivity |].
  intros d Hd _. cbn [Math_pow quiet_host]. unfold pow_by_roots. by rewrite Hd.
Qed.

Lemma nan_scale : (nan / 25 / 2)%float = nan.
Proof. vm_compute. reflexivity. Qed.

(** C9, as the code has it.  When the host refuses none of the body's
    names, [createBody] logs no failure and either registers the body or
    suspends on its load; when the load then settles with a prefab the
    continuation registers it.  Either way the model actor is created with
    the local scale [Math.pow(diameter, 1 / 3) / 25 / 2] on each of its
    three axes: the power function of the engine at the double nearest to a
    third, not a cube root.  On an engine that follows ECMAScript that
    scale is 0 on all axes for a diameter of 0 (or -0), and NaN on all axes
    for a negative finite diameter. *)
Theorem C9_model_scale h db bodyName facts st :
  ECMAScript_pow h ->
  db_get db bodyName = Some facts ->
  (forall n, n ∈ six_names bodyName -> Actor_Create_throws h n = None) ->
  let half := (Math_pow h (diameter facts) (1 / 3) / 25 / 2)%float in
  let scaled m := local_scale m = {| vx := half; vy := half; vz := half |} in
  let r := createBody h db bodyName st in
  log r.1 = log st /\
  (model_of r.1 bodyName scaled \/
   (r.2 = Pending /\
    exists s, awaiting r.1 = awaiting st ++ [s] /\ s_bodyName s = bodyName /\
      s_facts s = facts /\ s_label s < length (actors r.1))) /\
  (forall s st0 units a,
     s_bodyName s = bodyName -> s_facts s = facts ->
     s_label s < length (actors st0) ->
     loadGltf_reply h (s_uri s) = inr units ->
     List.find is_prefab (gltf_assets (s_uri s) units) = Some a ->
     let r0 := createBody_resume h s st0 in
     log r0.1 = log st0 /\ model_of r0.1 bodyName scaled) /\
  (diameter facts = 0%float \/ diameter facts = (-0)%float ->
   {| vx := half; vy := half; vz := half |} = zero3) /\
  ((diameter facts <? 0)%float = true -> diameter facts <> neg_infinity ->
   {| vx := half; vy := half; vz := half |} = nan3).
Proof.
  intros (Hzero & Hmzero & Hneg) Hdb Hok half scaled r.
  split; [| split; [| split; [| split]]].
  - subst r.
    destruct (createBody_cases h db bodyName facts st Hdb)
      as (l1 & Hg & [(n & msg & Hn & Hm & _) | (i & p & lb & o0 & o1 & HN & _ & _ & H)]).
    { rewrite (Hok n (six_names_nodes _ _ Hn)) in Hm. done. }
    destruct (find_prefab _ _) as [a |].
    + rewrite (Hok _ (six_names_body bodyName)) in H. destruct H as (st2 & Hf & ->).
      by destruct Hf as (_ & _ & _ & _ & _ & _ & _ & _ & Hlog & _).
    + by rewrite H.
  - subst r.
    destruct (createBody_cases h db bodyName facts st Hdb)
      as (l1 & Hg & [(n & msg & Hn & Hm & _) | (i & p & lb & o0 & o1 & HN & _ & _ & H)]).
    { rewrite (Hok n (six_names_nodes _ _ Hn)) in Hm. done. }
    assert (Hlb : lb < length l1) by (destruct HN as [Hd _ _ _ _ _]; lia).
    destruct (find_prefab _ _) as [a |].
    + rewrite (Hok _ (six_names_body bodyName)) in H. destruct H as (st2 & Hf & ->).
      left. cbn [fst]. eapply finished_model_of; [exact Hf | done | done].
    + right. rewrite H. cbn [fst snd]. state_simpl. split; [done |].
      eexists. split; [reflexivity |]. by repeat split.
  - intros s st0 units a Hs Hfacts Hlb Hreply Hfind r0. subst r0 bodyName facts.
    pose proof (createBody_resume_cases h s st0) as H. rewrite Hreply in H.
    cbv zeta in H. rewrite Hfind in H.
    rewrite (Hok _ (six_names_body (s_bodyName s))) in H. destruct H as (st2 & Hf & ->).
    cbn [fst]. split.
    + by destruct Hf as (_ & _ & _ & _ & _ & _ & _ & _ & Hlog & _).
    + eapply finished_model_of; [exact Hf | done | done].
  - subst half. intros [Hd | Hd]; rewrite Hd; [rewrite Hzero | rewrite Hmzero]; reflexivity.
  - intros Hlt Hfin. subst half. rewrite (Hneg _ Hlt Hfin), nan_scale. reflexivity.
Qed.

Lemma C9_model_scale_witness :
  ECMAScript_pow quiet_host /\
  db_get speck_db "speck" = Some speck_record /\
  (forall n, n ∈ six_names "speck" -> Actor_Create_throws quiet_host n = None) /\
  let h := quiet_host in
  let db := speck_db in
  let bodyName := "speck" in
  let facts := speck_record in
  let st := init_state in
  let half := (Math_pow h (diameter facts) (1 / 3) / 25 / 2)%float in
  let scaled m := local_scale m = {| vx := half; vy := half; vz := half |} in
  let r := createBody h db bodyName st in
  log r.1 = log st /\
  (model_of r.1 bodyName scaled \/
   (r.2 = Pending /\
    exists s, awaiting r.1 = awaiting st ++ [s] /\ s_bodyName s = bodyName /\
      s_facts s = facts /\ s_label s < length (actors r.1))) /\
  (forall s st0 units a,
     s_bodyName s = bodyName -> s_facts s = facts ->
     s_label s < length (actors st0) ->
     loadGltf_reply h (s_uri s) = inr units ->
     List.find is_prefab (gltf_assets (s_uri s) units) = Some a ->
     let r0 := createBody_resume h s st0 in
     log r0.1 = log st0 /\ model_of r0.1 bodyName scaled) /\
  (diameter facts = 0%float \/ diameter facts = (-0)%float ->
   {| vx := half; vy := half; vz := half |} = zero3) /\
  ((diameter facts <? 0)%float = true -> diameter facts <> neg_infinity ->
   {| vx := half; vy := half; vz := half |} = nan3).
Proof.
  assert (Hdb : db_get speck_db "speck" = Some speck_record) by (vm_compute; reflexivity).
  assert (Hok : forall n, n ∈ six_names "speck" -> Actor_Create_throws quiet_host n = None)
    by (intros n _; reflexivity).
  split; [exact quiet_host_ECMAScript_pow |]. split; [exact Hdb |]. split; [exact Hok |].
  exact (C9_model_scale quiet_host speck_db "speck" speck_record init_state
           quiet_host_ECMAScript_pow Hdb Hok).
Defined.

(** C9, as the spec words it, fails.  -2 is the cube root of -8, so for a
    record of diameter -8 the claim gives the scale -2 / 25 / 2 = -0.04 on
    each axis.  On every engine that follows ECMAScript the code computes
    NaN instead, and the body is built with a model of scale NaN. *)
Lemma C9_scale_is_not_the_cube_root :
  is_cube_root (-2) (-8) /\
  (forall h, ECMAScript_pow h ->
     scaleValue h (-8) = nan3 /\ scaleValue h (-8) <> cube_root_scale (-2)) /\
  ECMAScript_pow quiet_host /\
  let st := run_events quiet_host [LoadSettled 0] (started quiet_host minus_db) in
  log st = [] /\
  celestialBodies st !! "minus" = Some (CelestialBody.mk 0 1 3 4 5 2) /\
  (local_scale <$> actors st !! 5) = Some nan3.
Proof.
  split; [vm_compute; reflexivity |]. split; [| split; [apply quiet_host_ECMAScript_pow |]].
  - intros h (_ & _ & Hneg).
    assert (Hs : scaleValue h (-8) = nan3).
    { unfold scaleValue, scaleMultiplier, nan3.
      rewrite (Hneg (-8)%float) by (vm_compute; done). by rewrite nan_scale. }
    split; [exact Hs |]. rewrite Hs. intros E.
    apply (f_equal (fun v => PrimFloat.is_nan (vx v))) in E. vm_compute in E. discriminate.
  - cbv zeta. evaluate.
Qed.

(** The degenerate body, built: its model has scale 0 on all axes and
    nothing is logged. *)
Example speck_is_built_with_scale_zero :
  let st := run_events quiet_host [LoadSettled 0] (started quiet_host speck_db) in
  log st = [] /\
  celestialBodies st !! "speck" = Some (CelestialBody.mk 0 1 3 4 5 2) /\
  (local_scale <$> actors st !! 5) = Some zero3.
Proof. cbv zeta. evaluate. Qed.

(** ** The hover and click handlers *)

Lemma touches_only_tweens targets st st1 new :
  tweens st1 = tweens st ++ new -> actors st1 = actors st ->
  (forall t, t ∈ new -> tween_actor t ∈ targets) ->
  touches_only targets st st1.
Proof.
  intros Ht Ha Hn. split; [eauto |]. rewrite Ha. by split.
Qed.

Lemma fixed_nodes_box st b :
  celestialBodies st !! "box_model_cloud" = Some b ->
  CelestialBody.position b ∈ fixed_nodes st.
Proof. intros H. unfold fixed_nodes. rewrite H. set_solver. Qed.

Lemma fixed_nodes_gear st g :
  celestialBodies st !! "only_gear" = Some g ->
  CelestialBody.position g ∈ fixed_nodes st.
Proof. intros H. unfold fixed_nodes. rewrite H. set_solver. Qed.

Lemma fixed_nodes_popup st p :
  celestialBodies st !! "popup_model" = Some p ->
  CelestialBody.model p ∈ fixed_nodes st.
Proof. intros H. unfold fixed_nodes. rewrite H. set_solver. Qed.

(** C10, as the code has it.  The handlers of an interactive body [b]
    request tweens only on the position nodes of the registry entries
    box_model_cloud and only_gear and on the model of popup_model, and write
    to no other actor; the one thing done for the hovered body itself is
    that hover-exit starts a bob loop on it.  Hover-enter and hover-exit
    throw exactly when box_model_cloud or only_gear is not registered, the
    click exactly when popup_model is not; the popup is looked up by
    hover-exit only in the shrink it schedules, which throws when it fires
    exactly when popup_model is not registered then. *)
Theorem C10_handlers_fixed_entries h st b :
  b ∈ handlers st ->
  let enter := step h (HoverEnter b) st in
  let exit := step h (HoverExit b) st in
  let click := step h (Click b) st in
  let box_gear :=
    is_Some (celestialBodies st !! "box_model_cloud") /\
    is_Some (celestialBodies st !! "only_gear") in
  let popup := is_Some (celestialBodies st !! "popup_model") in
  (touches_only (fixed_nodes st) st enter.1 /\
   touches_only (fixed_nodes st) st exit.1 /\
   touches_only (fixed_nodes st) st click.1) /\
  ((enter.2 = None <-> box_gear) /\ (exit.2 = None <-> box_gear) /\
   (click.2 = None <-> popup) /\ ((popup_shrink h st).2 = inr tt <-> popup)) /\
  (forall e, enter.2 = Some e \/ exit.2 = Some e -> e = undefined_error "position") /\
  (forall e, click.2 = Some e -> e = undefined_error "model") /\
  timers enter.1 = timers (cleared (animationLoopIterval st) st) /\
  (box_gear ->
   started_timers st exit.1 [restarted_bob st b; (S (next_timer st), shrink_timer)]) /\
  (~ box_gear -> started_timers st exit.1 [restarted_bob st b]).
Proof.
  intros Hb. cbn zeta. cbn [step]. rewrite !bool_decide_eq_true_2 by done.
  unfold onHoverEnter, onClick.
  rewrite boxAnimationEnter_run, onHoverExit_run, childModelDisplay_run, popup_shrink_run.
  cbv zeta. state_simpl.
  pose proof (fixed_nodes_box st) as Fb. pose proof (fixed_nodes_gear st) as Fg.
  pose proof (fixed_nodes_popup st) as Fp.
  destruct (cleared_frame (animationLoopIterval st) st) as (_ & Ht1 & Ha1).
  destruct (cleared_frame (childBoxTimeout st) st) as (_ & Ht2 & Ha2).
  split; [split; [| split] |].
  - destruct (celestialBodies st !! "box_model_cloud") as [bx |];
      [destruct (celestialBodies st !! "only_gear") as [g |] |]; cbn [fst].
    + eapply touches_only_tweens; [by state_simpl | by state_simpl |].
      intros t Ht. set_unfold in Ht. destruct Ht as [-> | [-> | []]]; simpl; eauto.
    + eapply touches_only_tweens; [by state_simpl | by state_simpl |].
      intros t Ht. set_unfold in Ht. destruct Ht as [-> | []]; simpl; eauto.
    + eapply (touches_only_tweens _ _ _ []); [by rewrite app_nil_r | by state_simpl |].
      intros t Ht. by apply not_elem_of_nil in Ht.
  - destruct (celestialBodies st !! "box_model_cloud") as [bx |];
      [destruct (celestialBodies st !! "only_gear") as [g |] |]; cbn [fst].
    + eapply touches_only_tweens; [by state_simpl | by state_simpl |].
      intros t Ht. set_unfold in Ht. destruct Ht as [-> | [-> | []]]; simpl; eauto.
    + eapply touches_only_tweens; [by state_simpl | by state_simpl |].
      intros t Ht. set_unfold in Ht. destruct Ht as [-> | []]; simpl; eauto.
    + eapply (touches_only_tweens _ _ _ []); [by rewrite app_nil_r | by state_simpl |].
      intros t Ht. by apply not_elem_of_nil in Ht.
  - destruct (celestialBodies st !! "popup_model") as [p |]; cbn [fst].
    + split; [| split].
      * state_simpl. eexists. split; [reflexivity |].
        intros t Ht. set_unfold in Ht. destruct Ht as [-> | []]; simpl; eauto.
      * state_simpl. by rewrite length_alter, Ha2.
      * state_simpl. intros i Hi. rewrite Ha2. apply list_lookup_alter_ne.
        intros <-. apply Hi. eauto.
    + eapply (touches_only_tweens _ _ _ []); [by rewrite app_nil_r | by state_simpl |].
      intros t Ht. by apply not_elem_of_nil in Ht.
  - assert (Hnone : forall A, is_Some (@None A) <-> False)
      by (intros A; split; [by intros [? ?] | done]).
    assert (Hsome : forall A (a : A), is_Some (Some a) <-> True)
      by (intros A a; split; eauto).
    split; [| split; [| split; [| split]]].
    + destruct (celestialBodies st !! "box_model_cloud") as [bx |];
        [destruct (celestialBodies st !! "only_gear") as [g |] |];
        destruct (celestialBodies st !! "popup_model") as [p |]; cbn [fst snd];
        rewrite ?Hnone, ?Hsome; intuition congruence.
    + intros e.
      destruct (celestialBodies st !! "box_model_cloud") as [bx |];
        [destruct (celestialBodies st !! "only_gear") as [g |] |]; cbn [fst snd];
        intros [H | H]; congruence.
    + intros e. destruct (celestialBodies st !! "popup_model") as [p |]; cbn [fst snd];
        congruence.
    + destruct (celestialBodies st !! "box_model_cloud") as [bx |];
        [destruct (celestialBodies st !! "only_gear") as [g |] |]; cbn [fst snd];
        state_simpl; reflexivity.
    + unfold started_timers, restarted_bob.
      destruct (celestialBodies st !! "box_model_cloud") as [bx |];
        [destruct (celestialBodies st !! "only_gear") as [g |] |]; cbn [fst snd];
        state_simpl; rewrite ?Hnone, ?Hsome; split; intros H; try done; tauto.
Qed.

Lemma C10_handlers_fixed_entries_witness :
  "box_model_cloud" ∈ handlers demo_running /\
  let st := demo_running in
  let h := quiet_host in
  let b := "box_model_cloud" in
  let enter := step h (HoverEnter b) st in
  let exit := step h (HoverExit b) st in
  let click := step h (Click b) st in
  let box_gear :=
    is_Some (celestialBodies st !! "box_model_cloud") /\
    is_Some (celestialBodies st !! "only_gear") in
  let popup := is_Some (celestialBodies st !! "popup_model") in
  (touches_only (fixed_nodes st) st enter.1 /\
   touches_only (fixed_nodes st) st exit.1 /\
   touches_only (fixed_nodes st) st click.1) /\
  ((enter.2 = None <-> box_gear) /\ (exit.2 = None <-> box_gear) /\
   (click.2 = None <-> popup) /\ ((popup_shrink h st).2 = inr tt <-> popup)) /\
  (forall e, enter.2 = Some e \/ exit.2 = Some e -> e = undefined_error "position") /\
  (forall e, click.2 = Some e -> e = undefined_error "model") /\
  timers enter.1 = timers (cleared (animationLoopIterval st) st) /\
  (box_gear ->
   started_timers st exit.1 [restarted_bob st b; (S (next_timer st), shrink_timer)]) /\
  (~ box_gear -> started_timers st exit.1 [restarted_bob st b]).
Proof.
  assert (Hb : "box_model_cloud" ∈ handlers demo_running)
    by (apply (bool_decide_unpack _); vm_compute; exact I).
  split; [exact Hb |].
  exact (C10_handlers_fixed_entries quiet_host demo_running "box_model_cloud" Hb).
Defined.

(** C10, as the spec words it, fails twice.  With box_model_cloud and
    only_gear registered and popup_model absent, hover-enter and hover-exit
    on an interactive body complete without throwing; and hover-exit does
    act on the hovered body: it starts a bob loop on that body's label. *)
Lemma C10_missing_popup_does_not_throw :
  "box_model_cloud" ∈ handlers no_popup_running /\
  celestialBodies no_popup_running !! "popup_model" = None /\
  (step quiet_host (HoverEnter "box_model_cloud") no_popup_running).2 = None /\
  (step quiet_host (HoverExit "box_model_cloud") no_popup_running).2 = None /\
  celestialBodies no_popup_running !! "box_model_cloud" = Some no_popup_box /\
  lookup_timer 2
    (timers (step quiet_host (HoverExit "box_model_cloud") no_popup_running).1)
  = Some (bob_timer no_popup_box).
Proof.
  split; [apply (bool_decide_unpack _); vm_compute; exact I |].
  evaluate.
Qed.

(** * Further lemmas *)

(** ** Strings *)

Lemma string_length_append (s t : string) :
  String.length (s +:+ t) = String.length s + String.length t.
Proof. induction s as [| c s IH]; simpl; [done | by rewrite IH]. Qed.

Lemma string_append_inj_r (s1 s2 t : string) : s1 +:+ t = s2 +:+ t -> s1 = s2.
Proof.
  revert s2. induction s1 as [| c s1 IH]; intros [| c2 s2] H.
  - done.
  - apply (f_equal String.length) in H.
    rewrite !string_length_append in H. simpl in H. lia.
  - apply (f_equal String.length) in H.
    rewrite !string_length_append in H. simpl in H. lia.
  - injection H as -> H. f_equal. by apply IH.
Qed.

(** ** Actor stores, in full *)

Lemma keeps_refl a : keeps a a.
Proof. by repeat split. Qed.

Lemma keeps_trans a a1 a2 : keeps a a1 -> keeps a1 a2 -> keeps a a2.
Proof.
  intros (H1 & H2 & H3 & H4 & H5 & H6 & H7 & H8 & H9 & H10 & H11)
         (K1 & K2 & K3 & K4 & K5 & K6 & K7 & K8 & K9 & K10 & K11).
  repeat split; try congruence. auto.
Qed.

Lemma actors_step_refl db l : actors_step db l l.
Proof. intros i a H. exists a. split; [done |]. split; [apply keeps_refl | by left]. Qed.

Lemma actors_step_trans db l l1 l2 :
  actors_step db l l1 -> actors_step db l1 l2 -> actors_step db l l2.
Proof.
  intros H1 H2 i a Ha. destruct (H1 i a Ha) as (a1 & Ha1 & Hk1 & Ht1).
  destruct (H2 i a1 Ha1) as (a2 & Ha2 & Hk2 & Ht2).
  exists a2. split; [done |]. split; [by eapply keeps_trans |].
  destruct Hk1 as (Hn & _).
  destruct Ht2 as [Ht2 | (b & facts & Hb & Hdb & Ht2)].
  - destruct Ht1 as [Ht1 | (b & facts & Hb & Hdb & Ht1)].
    + left. congruence.
    + right. exists b, facts. repeat split; congruence.
  - right. exists b, facts. repeat split; congruence.
Qed.

Lemma actors_step_app db l new : actors_step db l (l ++ new).
Proof.
  intros i a H. exists a. rewrite (lookup_app_l_Some _ _ _ _ H).
  split; [done |]. split; [apply keeps_refl | by left].
Qed.

(** An update that only touches what may change. *)
Lemma actors_step_alter db l i f :
  (forall a, keeps a (f a) /\ text_contents (f a) = text_contents a) ->
  actors_step db l (alter f i l).
Proof.
  intros Hf j a H. destruct (decide (i = j)) as [-> |].
  - exists (f a). rewrite list_lookup_alter_eq, H. split; [done |].
    destruct (Hf a) as [Hk Ht]. split; [done | by left].
  - exists a. rewrite list_lookup_alter_ne by done. split; [done |].
    split; [apply keeps_refl | by left].
Qed.

(** [label.enableText] on the label of body [b]. *)
Lemma actors_step_text db l lb b facts :
  actor_name <$> l !! lb = Some (b +:+ "-label") ->
  db_get db b = Some facts ->
  actors_step db l (alter (with_text (name facts)) lb l).
Proof.
  intros Hn Hdb j a H. destruct (decide (lb = j)) as [-> |].
  - exists (with_text (name facts) a). rewrite list_lookup_alter_eq, H.
    split; [done |]. split; [by repeat split |]. right.
    rewrite H in Hn. injection Hn as Hn. by exists b, facts.
  - exists a. rewrite list_lookup_alter_ne by done. split; [done |].
    split; [apply keeps_refl | by left].
Qed.


(** ** Constructions, in full *)

(** [create_nodes] appends to the actor store: the five nodes under
    consecutive handles when the host accepts their names, fewer when it
    refuses one. *)
Lemma create_nodes_appends h bodyName facts st :
  exists new,
    (create_nodes h bodyName facts st).1 = set_actors (actors st ++ new) st /\
    match (create_nodes h bodyName facts st).2 with
    | inl e =>
        accepted h bodyName = false /\ length new < 5 /\ exists msg, e = HostError msg
    | inr (i, p, lb, o0, o1) =>
        let n := length (actors st) in
        accepted h bodyName = true /\ length new = 5 /\
        actor_name <$> new = node_names bodyName /\
        i = n /\ p = n + 1 /\ lb = n + 2 /\ o0 = n + 3 /\ o1 = n + 4
    end.
Proof.
  unfold accepted, create_nodes, bind, Actor_Create, node_names.
  cbn [actor_name with_app_rotation with_local_position with_local_rotation new_actor forallb].
  destruct (Actor_Create_throws h (bodyName +:+ "-inclination")) as [m1 |] eqn:E1.
  { exists []. rewrite app_nil_r, set_actors_id. simpl. eauto with lia. }
  cbn [actors set_actors].
  destruct (Actor_Create_throws h (bodyName +:+ "-position")) as [m2 |] eqn:E2.
  { eexists [_]. split; [reflexivity |]. simpl. eauto with lia. }
  cbn [actors set_actors].
  destruct (Actor_Create_throws h (bodyName +:+ "-label")) as [m3 |] eqn:E3.
  { eexists [_; _]. rewrite <- !app_assoc. split; [reflexivity |]. simpl. eauto with lia. }
  cbn [actors set_actors].
  destruct (Actor_Create_throws h (bodyName +:+ "-obliquity0")) as [m4 |] eqn:E4.
  { eexists [_; _; _]. rewrite <- !app_assoc. split; [reflexivity |]. simpl.
    eauto with lia. }
  cbn [actors set_actors].
  destruct (Actor_Create_throws h (bodyName +:+ "-obliquity1")) as [m5 |] eqn:E5.
  { eexists [_; _; _; _]. rewrite <- !app_assoc. split; [reflexivity |]. simpl.
    eauto with lia. }
  cbn [actors set_actors ret fst snd].
  eexists [_; _; _; _; _]. rewrite <- !app_assoc. split; [reflexivity |].
  rewrite !length_app. simpl. repeat split; lia.
Qed.

Lemma createBody_finish_returns_fully h bodyName facts i p lb o0 o1 a st :
  Actor_Create_throws h (bodyName +:+ "-body") = None ->
  exists st1,
    createBody_finish h bodyName facts i p lb o0 o1 a st = (st1, inr tt) /\
    finished_fully h bodyName facts i p lb o0 o1 a st st1.
Proof.
  intros Hm.
  destruct (createBody_finish_returns h bodyName facts i p lb o0 o1 a st Hm)
    as (st1 & Hrun & Hf).
  exists st1. split; [done |]. split; [done |].
  change st1 with (st1, @inr Error unit tt).1. rewrite <- Hrun.
  unfold createBody_finish, bind at 1, Actor_Create.
  cbn [actor_name model_actor]. rewrite Hm.
  destruct (bool_decide (name facts <> "")); destruct (bool_decide (bodyName = "only_gear"));
    reflexivity.
Qed.

(** The ways a [createBody] call on a known body can go up to its first
    suspension point, with the actor store and the handles spelled out. *)
Lemma createBody_outcome h db bodyName facts st :
  db_get db bodyName = Some facts ->
  exists new,
    let n := length (actors st) in
    let st0 := set_actors (actors st ++ new) st in
    (accepted h bodyName = false /\ length new < 5 /\
     exists msg,
       createBody h db bodyName st =
         (createBody_catch bodyName (HostError msg) st0, Resolved)) \/
    (accepted h bodyName = true /\ length new = 5 /\
     actor_name <$> new = node_names bodyName /\
     match find_prefab (model_uri bodyName facts) (container_assets st (assets st)) with
     | Some a =>
         match Actor_Create_throws h (bodyName +:+ "-body") with
         | Some msg =>
             createBody h db bodyName st =
               (createBody_catch bodyName (HostError msg) st0, Resolved)
         | None =>
             exists st2,
               finished_fully h bodyName facts n (n + 1) (n + 2) (n + 3) (n + 4) a st0 st2 /\
               createBody h db bodyName st = (st2, Resolved)
         end
     | None =>
         createBody h db bodyName st =
           (set_awaiting
              (awaiting st ++
                 [suspension bodyName facts n (n + 1) (n + 2) (n + 3) (n + 4) (assets st)])
              (set_loads (loads st ++ [model_uri bodyName facts]) st0),
            Pending)
     end).
Proof.
  intros Hdb. rewrite (createBody_unfold h db bodyName facts st Hdb).
  destruct (create_nodes_appends h bodyName facts st) as (new & Hst & Hr).
  exists new. cbv zeta.
  destruct (create_nodes h bodyName facts st) as [st1 [e | [[[[i p] lb] o0] o1]]];
    simpl in Hst, Hr; subst st1.
  { left. destruct Hr as (Ha & Hl & msg & ->). eauto. }
  right. destruct Hr as (Ha & Hl & Hn & -> & -> & -> & -> & ->).
  repeat (split; [done |]).
  change (container_assets (set_actors (actors st ++ new) st)
            (assets (set_actors (actors st ++ new) st)))
    with (container_assets st (assets st)).
  destruct (find_prefab _ _) as [a |].
  - destruct (Actor_Create_throws h (bodyName +:+ "-body")) as [msg |] eqn:Hm.
    + by rewrite (createBody_finish_throws _ _ _ _ _ _ _ _ _ _ _ Hm).
    + destruct (createBody_finish_returns_fully h bodyName facts (length (actors st))
                  (length (actors st) + 1) (length (actors st) + 2)
                  (length (actors st) + 3) (length (actors st) + 4) a
                  (set_actors (actors st ++ new) st) Hm) as (st2 & -> & Hf).
      exists st2. by split.
  - reflexivity.
Qed.

Lemma createBody_resume_unfold h s st units :
  loadGltf_reply h (s_uri s) = inr units ->
  createBody_resume h s st =
    let st1 := (add_assets (s_container s) (gltf_assets (s_uri s) units) st).1 in
    match List.find is_prefab (gltf_assets (s_uri s) units) with
    | None => (createBody_catch (s_bodyName s) (undefined_error "prefab") st1, Resolved)
    | Some a =>
        match createBody_finish h (s_bodyName s) (s_facts s) (s_inclination s)
                (s_position s) (s_label s) (s_obliquity0 s) (s_obliquity1 s) a st1 with
        | (st2, inl e) => (createBody_catch (s_bodyName s) e st2, Resolved)
        | (st2, inr _) => (st2, Resolved)
        end
    end.
Proof.
  intros Hr. unfold createBody_resume, createBody_continue. rewrite Hr.
  cbv zeta. unfold bind at 1. cbn [add_assets modify fst]. unfold bind at 1.
  destruct (List.find is_prefab _) as [a |]; [| done]. cbn [deref ret].
  by destruct (createBody_finish _ _ _ _ _ _ _ _ _ _) as [st2 [e | []]].
Qed.

(** The ways the continuation after the load can go: the state is the one
    before with a line logged, possibly after the loaded assets were added,
    or the body is finished with the prefab of the reply. *)
Lemma createBody_resume_outcome h s st :
  (exists e st1,
     (st1 = st \/
      exists units, st1 = (add_assets (s_container s) (gltf_assets (s_uri s) units) st).1) /\
     createBody_resume h s st = (createBody_catch (s_bodyName s) e st1, Resolved)) \/
  (exists units a st2,
     loadGltf_reply h (s_uri s) = inr units /\
     List.find is_prefab (gltf_assets (s_uri s) units) = Some a /\
     finished_fully h (s_bodyName s) (s_facts s) (s_inclination s) (s_position s)
       (s_label s) (s_obliquity0 s) (s_obliquity1 s) a
       (add_assets (s_container s) (gltf_assets (s_uri s) units) st).1 st2 /\
     createBody_resume h s st = (st2, Resolved)).
Proof.
  destruct (loadGltf_reply h (s_uri s)) as [msg | units] eqn:Hr.
  { left. exists (HostError msg), st. split; [by left |].
    unfold createBody_resume, createBody_continue. by rewrite Hr. }
  rewrite (createBody_resume_unfold h s st units Hr). cbv zeta.
  destruct (List.find is_prefab _) as [a |] eqn:Hfind.
  - destruct (Actor_Create_throws h (s_bodyName s +:+ "-body")) as [msg |] eqn:Hm.
    + left. rewrite (createBody_finish_throws _ _ _ _ _ _ _ _ _ _ _ Hm). eauto 6.
    + destruct (createBody_finish_returns_fully h (s_bodyName s) (s_facts s)
                  (s_inclination s) (s_position s) (s_label s) (s_obliquity0 s)
                  (s_obliquity1 s) a
                  (add_assets (s_container s) (gltf_assets (s_uri s) units) st).1 Hm)
        as (st2 & Hrun & Hf).
      right. rewrite Hrun. by exists units, a, st2.
  - left. eauto 6.
Qed.

(** ** Turns of the event loop that build nothing *)

Lemma calm_same db st st1 :
  celestialBodies st1 = celestialBodies st -> awaiting st1 = awaiting st ->
  handlers st1 = handlers st -> actors st1 = actors st -> calm db st st1.
Proof.
  intros Hb Hw Hh Ha. split; [done |]. split; [by rewrite Hw |]. split; [done |].
  rewrite Ha. apply actors_step_refl.
Qed.

Lemma calm_alter db id f st st1 :
  (forall a, keeps a (f a) /\ text_contents (f a) = text_contents a) ->
  celestialBodies st1 = celestialBodies st -> awaiting st1 = awaiting st ->
  handlers st1 = handlers st -> actors st1 = alter f id (actors st) ->
  calm db st st1.
Proof.
  intros Hf Hb Hw Hh Ha. split; [done |]. split; [by rewrite Hw |]. split; [done |].
  rewrite Ha. by apply actors_step_alter.
Qed.

Lemma with_position_y_keeps f a :
  keeps a (with_position_y f a) /\ text_contents (with_position_y f a) = text_contents a.
Proof. by repeat split. Qed.

Lemma with_appearance_enabled_keeps a :
  keeps a (with_appearance_enabled true a) /\
  text_contents (with_appearance_enabled true a) = text_contents a.
Proof. by repeat split. Qed.

(** What a turn of the event loop leaves alone.  Every event but a settled
    load builds nothing: the registry, the suspended constructions, the
    handlers, the loads requested and the number of actors stay. *)
Lemma step_shape h db ev st :
  Inv st ->
  let st1 := (step h ev st).1 in
  (calm db st st1 /\ awaiting st1 = awaiting st /\ loads st1 = loads st /\
   length (actors st1) = length (actors st)) \/
  (exists k s,
     ev = LoadSettled k /\ awaiting st !! k = Some s /\
     st1 = (createBody_resume h s (set_awaiting (delete k (awaiting st)) st)).1).
Proof.
  intros HI. cbv zeta.
  assert (Hsame : forall st1,
            celestialBodies st1 = celestialBodies st -> awaiting st1 = awaiting st ->
            handlers st1 = handlers st -> actors st1 = actors st ->
            loads st1 = loads st ->
            calm db st st1 /\ awaiting st1 = awaiting st /\ loads st1 = loads st /\
            length (actors st1) = length (actors st)).
  { intros st1 Hb Hw Hh Ha Hl. split; [by apply calm_same |]. by rewrite Ha. }
  destruct ev as [k | id | b | b | b]; simpl.
  - destruct (awaiting st !! k) as [s |] eqn:Hk.
    + right. by exists k, s.
    + left. by apply Hsame.
  - left. destruct (lookup_timer id (timers st)) as [t |] eqn:Hid; [| by apply Hsame].
    pose proof (inv_timers st HI id t (lookup_timer_elem _ _ _ Hid)) as Ht.
    unfold timer_ok in Ht.
    destruct (callback t) as [[cb |] | ocb |] eqn:Hcb; try done.
    + destruct Ht as (-> & _). cbn [run_callback].
      rewrite labelLoop_tick_transition. cbn [fst]. unfold bobbed.
      destruct (labelLoopInc st <? 5)%Z;
        (split; [by eapply calm_alter; [apply with_position_y_keeps | ..] |]);
        state_simpl; by rewrite length_alter.
    + destruct Ht as (-> & _). cbn [run_callback]. rewrite popup_shrink_run.
      state_simpl. destruct (celestialBodies st !! "popup_model"); by apply Hsame.
  - left. case_bool_decide as Hb; [| by apply Hsame].
    unfold onHoverEnter. rewrite boxAnimationEnter_run. cbv zeta. unfold cleared.
    destruct (celestialBodies st !! "box_model_cloud");
      [destruct (celestialBodies st !! "only_gear") |];
      destruct (animationLoopIterval st); by apply Hsame.
  - left. case_bool_decide as Hb; [| by apply Hsame].
    rewrite onHoverExit_run. cbv zeta.
    destruct (celestialBodies st !! "box_model_cloud");
      [destruct (celestialBodies st !! "only_gear") |]; by apply Hsame.
  - left. case_bool_decide as Hb; [| by apply Hsame].
    unfold onClick. rewrite childModelDisplay_run. cbv zeta. unfold cleared.
    destruct (celestialBodies st !! "popup_model") as [p |];
      destruct (childBoxTimeout st); cbn [fst];
      try (by apply Hsame);
      (split; [by eapply calm_alter; [apply with_appearance_enabled_keeps | ..] |]);
      state_simpl; by rewrite length_alter.
Qed.

(** ** What is known of the constructions *)

Lemma suspended_from_step db l l1 s :
  actors_step db l l1 -> suspended_from db l s -> suspended_from db l1 s.
Proof.
  intros Hs [Hf Hu Hl]. split; [done | done |].
  destruct (l !! s_label s) as [a |] eqn:Ha; [| done].
  destruct (Hs _ _ Ha) as (a1 & -> & (Hn & _) & _). simpl in *. congruence.
Qed.

Lemma as_built_step h db b facts l l1 cb :
  actors_step db l l1 -> db_get db b = Some facts ->
  as_built h b facts l cb -> as_built h b facts l1 cb.
Proof.
  intros Hs Hdb [(a & Ha & Hn & Ht) (m & p & Hm & Hmn & Hsc & Hr & Hc & Hbt & Hp & Hpp & Hu)].
  split.
  - destruct (Hs _ _ Ha) as (a1 & Ha1 & (Hn1 & _) & Ht1).
    exists a1. split; [done |]. split; [congruence |].
    destruct Ht1 as [Ht1 | (b1 & facts1 & Hb1 & Hdb1 & Ht1)]; [congruence |].
    rewrite Hn in Hb1. apply string_append_inj_r in Hb1. subst b1.
    congruence.
  - destruct (Hs _ _ Hm)
      as (m1 & Hm1 & (K1 & K2 & K3 & K4 & K5 & K6 & K7 & K8 & K9 & K10 & K11) & _).
    exists m1, p. repeat split; congruence.
Qed.

Lemma Built_calm h db st st1 : Built h db st -> calm db st st1 -> Built h db st1.
Proof.
  intros [Hw Hb Hh] (Eb & Ew & Eh & Es). split.
  - intros s Hs. eapply suspended_from_step; [done |]. auto.
  - intros b cb Hcb. rewrite Eb in Hcb. destruct (Hb b cb Hcb) as (facts & Hdb & Hab).
    exists facts. split; [done |]. by eapply as_built_step.
  - intros b. rewrite Eh. apply Hh.
Qed.

(** [createBody_finish] appends the model and sets the text of the label. *)
Lemma finished_actors_app h bodyName facts lb o1 a l :
  lb < length l ->
  finished_actors h bodyName facts lb o1 a l =
    alter (with_text (name facts)) lb l ++
      [with_button (with_appearance_enabled (appearance facts)
         (model_actor h bodyName facts o1 a))].
Proof.
  intros Hlb. unfold finished_actors.
  rewrite !alter_app_r_alt by lia. rewrite Nat.sub_diag. simpl.
  by rewrite alter_app_l.
Qed.

Lemma finished_actors_step db h bodyName facts lb o1 a l :
  actor_name <$> l !! lb = Some (bodyName +:+ "-label") ->
  db_get db bodyName = Some facts ->
  actors_step db l (finished_actors h bodyName facts lb o1 a l).
Proof.
  intros Hn Hdb.
  assert (Hlb : lb < length l).
  { destruct (l !! lb) eqn:E; [by eapply lookup_lt_Some | done]. }
  rewrite finished_actors_app by done.
  eapply actors_step_trans; [| apply actors_step_app].
  by apply (actors_step_text db _ lb bodyName facts).
Qed.

Lemma find_prefab_Some uri c a :
  find_prefab uri c = Some a -> is_prefab a = true /\ source_uri a = Some uri.
Proof.
  unfold find_prefab, prefabs. intros H. apply List.find_some in H as [Hin Hu].
  apply List.filter_In in Hin as [_ Hp]. split; [done |].
  by apply bool_decide_eq_true_1 in Hu.
Qed.

Lemma find_gltf_prefab uri units a :
  List.find is_prefab (gltf_assets uri units) = Some a ->
  is_prefab a = true /\ source_uri a = Some uri.
Proof.
  intros H. apply List.find_some in H as [Hin Hp]. split; [done |].
  unfold gltf_assets in Hin. apply List.in_map_iff in Hin as (u & <- & _). done.
Qed.

(** Finishing a body whose label node is in place keeps what is known and
    adds the body, as built. *)
Lemma Built_finished h db bodyName facts i p lb o0 o1 a st st2 :
  Built h db st -> db_get db bodyName = Some facts ->
  actor_name <$> actors st !! lb = Some (bodyName +:+ "-label") ->
  is_prefab a = true -> source_uri a = Some (model_uri bodyName facts) ->
  finished h bodyName facts i p lb o0 o1 a st st2 ->
  Built h db st2.
Proof.
  intros [Hw Hb Hh] Hdb Hn Hp Hu
    (Eb & Ea & _ & Eh & _ & _ & _ & _ & _ & _ & Ew & _).
  pose proof (finished_actors_step db h bodyName facts lb o1 a (actors st) Hn Hdb) as Hs.
  rewrite <- Ea in Hs.
  assert (Hlb : lb < length (actors st)).
  { destruct (actors st !! lb) eqn:E; [by eapply lookup_lt_Some | done]. }
  split.
  - intros s Hs1. rewrite Ew in Hs1. eapply suspended_from_step; [done |]. auto.
  - intros b cb. rewrite Eb. destruct (decide (bodyName = b)) as [<- | Hne].
    + rewrite lookup_insert_eq. intros [= <-]. exists facts. split; [done |].
      split; cbn [CelestialBody.label CelestialBody.model]; rewrite Ea.
      * destruct (actors st !! lb) as [a0 |] eqn:E0; [| done].
        exists (with_text (name facts) a0). unfold finished_actors.
        rewrite list_lookup_alter_eq, !list_lookup_alter_ne by lia.
        rewrite lookup_app_l, E0 by done. simpl in Hn. injection Hn as Hn. done.
      * eexists _, a. rewrite finished_actors_model by done.
        split; [reflexivity |]. by repeat split.
    + rewrite lookup_insert_ne by done. intros Hcb.
      destruct (Hb b cb Hcb) as (facts1 & Hdb1 & Hab).
      exists facts1. split; [done |]. by eapply as_built_step.
  - intros b. rewrite Eh, elem_of_app. intros [Hin | Hin]; [by apply Hh |].
    case_bool_decide as Hname; [| by apply elem_of_nil in Hin].
    apply list_elem_of_singleton in Hin as ->. by exists facts.
Qed.

Lemma Built_init h db : Built h db init_state.
Proof.
  split; simpl.
  - intros s Hs. by apply elem_of_nil in Hs.
  - intros b cb Hcb. by rewrite lookup_empty in Hcb.
  - intros b Hb. by apply elem_of_nil in Hb.
Qed.

Lemma createBody_catch_calm db bodyName e st : calm db st (createBody_catch bodyName e st).
Proof. by apply calm_same. Qed.

Lemma calm_set_actors_app db new st : calm db st (set_actors (actors st ++ new) st).
Proof.
  split; [done |]. split; [done |]. split; [done |]. apply actors_step_app.
Qed.

(** The label among five fresh nodes. *)
Lemma node_names_label bodyName l new :
  actor_name <$> new = node_names bodyName ->
  actor_name <$> (l ++ new) !! (length l + 2) = Some (bodyName +:+ "-label").
Proof.
  intros Hn. rewrite lookup_app_r by lia.
  replace (length l + 2 - length l) with 2 by lia.
  rewrite <- list_lookup_fmap, Hn. done.
Qed.

Lemma createBody_Built h db bodyName st :
  Built h db st -> Built h db (createBody h db bodyName st).1.
Proof.
  intros HB. destruct (db_get db bodyName) as [facts |] eqn:Hdb.
  2: { unfold createBody. by rewrite Hdb. }
  destruct (createBody_outcome h db bodyName facts st Hdb) as (new & H). cbv zeta in H.
  assert (HB0 : Built h db (set_actors (actors st ++ new) st)).
  { eapply Built_calm; [done |]. apply calm_set_actors_app. }
  destruct H as [(_ & _ & msg & ->) | (_ & _ & Hn & H)].
  { eapply Built_calm; [exact HB0 |]. apply createBody_catch_calm. }
  destruct (find_prefab _ _) as [a |] eqn:Hfind.
  - destruct (Actor_Create_throws h (bodyName +:+ "-body")) as [msg |].
    + rewrite H. eapply Built_calm; [exact HB0 |]. apply createBody_catch_calm.
    + destruct H as (st2 & [Hf _] & ->). simpl.
      apply find_prefab_Some in Hfind as [Hp Hu].
      eapply Built_finished; [exact HB0 | exact Hdb | | exact Hp | exact Hu | exact Hf].
      by apply node_names_label.
  - rewrite H. simpl. destruct HB0 as [Hw Hb Hh]. split; state_simpl.
    + intros s. rewrite elem_of_app, list_elem_of_singleton. intros [Hs | ->]; [by apply Hw |].
      split; [done | done |]. by apply node_names_label.
    + exact Hb.
    + exact Hh.
Qed.

Lemma createSolarSystem_Built h db st :
  Built h db st -> Built h db (createSolarSystem h db st).
Proof.
  unfold createSolarSystem. generalize (Object_keys db) as keys. intros keys.
  revert st. induction keys as [| k keys IH]; intros st HB; simpl; [done |].
  by apply IH, createBody_Built.
Qed.

Lemma calm_add_assets db c new st : calm db st (add_assets c new st).1.
Proof. by apply calm_same. Qed.

Lemma calm_delete_awaiting db k st : calm db st (set_awaiting (delete k (awaiting st)) st).
Proof.
  split; [done |]. split; [| split; [done | apply actors_step_refl]].
  intros s Hs. simpl in Hs. by eapply list_elem_of_delete_inv.
Qed.

Lemma createBody_resume_Built h db s st :
  Built h db st -> suspended_from db (actors st) s ->
  Built h db (createBody_resume h s st).1.
Proof.
  intros HB [Hf Hu Hl].
  destruct (createBody_resume_outcome h s st)
    as [(e & st1 & Hst1 & ->) | (units & a & st2 & Hr & Hfind & [Hfin _] & ->)]; simpl.
  - eapply Built_calm; [| apply createBody_catch_calm].
    destruct Hst1 as [-> | (units & ->)]; [done |].
    eapply Built_calm; [exact HB |]. apply calm_add_assets.
  - apply find_gltf_prefab in Hfind as [Hp Hsrc].
    eapply Built_finished; [| exact Hf | | exact Hp | | exact Hfin].
    + eapply Built_calm; [exact HB |]. apply calm_add_assets.
    + exact Hl.
    + by rewrite <- Hu.
Qed.

Lemma step_Built h db ev st : Inv st -> Built h db st -> Built h db (step h ev st).1.
Proof.
  intros HI HB.
  destruct (step_shape h db ev st HI) as [(Hc & _) | (k & s & -> & Hk & ->)].
  - by eapply Built_calm.
  - apply createBody_resume_Built.
    + eapply Built_calm; [exact HB |]. apply calm_delete_awaiting.
    + simpl. apply (bt_awaiting h db st HB). apply list_elem_of_lookup. eauto.
Qed.

Lemma reachable_Built h db st : reachable h db st -> Built h db st.
Proof.
  induction 1 as [| st ev Hr IH].
  - apply createSolarSystem_Built, Built_init.
  - apply step_Built; [by eapply reachable_Inv | done].
Qed.

(** ** Start-up *)

Lemma pristine_init : pristine init_state.
Proof. by repeat split. Qed.

Lemma length_finished_actors h bodyName facts lb o1 a l :
  length (finished_actors h bodyName facts lb o1 a l) = S (length l).
Proof. unfold finished_actors. rewrite !length_alter, length_app. simpl. lia. Qed.

(** A [createBody] call before anything is loaded: it suspends on its load
    when the host accepts its five nodes, and logs a failure otherwise. *)
Lemma createBody_pristine h db bodyName facts st :
  db_get db bodyName = Some facts -> pristine st ->
  let n := length (actors st) in
  let st1 := (createBody h db bodyName st).1 in
  pristine st1 /\
  if accepted h bodyName then
    awaiting st1 =
      awaiting st ++ [suspension bodyName facts n (n + 1) (n + 2) (n + 3) (n + 4) 0] /\
    loads st1 = loads st ++ [model_uri bodyName facts] /\ log st1 = log st /\
    length (actors st1) = n + 5
  else
    awaiting st1 = awaiting st /\ loads st1 = loads st /\
    (exists e, log st1 = log st ++ [failure_line bodyName e]) /\
    length (actors st1) < n + 5.
Proof.
  intros Hdb HP. cbv zeta.
  destruct (createBody_outcome h db bodyName facts st Hdb) as (new & H). cbv zeta in H.
  assert (Hnone : find_prefab (model_uri bodyName facts) (container_assets st (assets st))
                  = None).
  { destruct HP as (_ & _ & _ & _ & Hc & Ha & _). unfold container_assets.
    by rewrite Hc, Ha. }
  rewrite Hnone in H.
  destruct H as [(-> & Hl & msg & ->) | (-> & Hl & _ & ->)]; cbn [fst].
  - split; [exact HP |]. rewrite createBody_catch_run. state_simpl.
    repeat split; [by eexists |]. rewrite length_app. lia.
  - split; [exact HP |]. state_simpl. destruct HP as (_ & _ & _ & _ & _ & -> & _).
    repeat split. rewrite length_app. lia.
Qed.

Lemma createSolarSystem_pristine h db keys st :
  (forall k, k ∈ keys -> is_Some (db_get db k)) -> pristine st ->
  loads st = s_uri <$> awaiting st ->
  let st1 := fold_left (fun s bodyName => (createBody h db bodyName s).1) keys st in
  pristine st1 /\
  s_bodyName <$> awaiting st1 =
    (s_bodyName <$> awaiting st) ++ List.filter (accepted h) keys /\
  loads st1 = s_uri <$> awaiting st1 /\
  length (log st1) =
    length (log st) + length (List.filter (fun k => negb (accepted h k)) keys).
Proof.
  revert st. induction keys as [| k keys IH]; intros st Hk HP Hl; cbn [fold_left List.filter].
  { cbv zeta. rewrite app_nil_r. simpl. split; [done |]. split; [done |].
    split; [done | lia]. }
  destruct (Hk k) as [facts Hdb]; [apply elem_of_cons; by left |].
  destruct (createBody_pristine h db k facts st Hdb HP) as (HP1 & H1).
  assert (Hk1 : forall k0, k0 ∈ keys -> is_Some (db_get db k0)).
  { intros k0 H0. apply Hk, elem_of_cons. by right. }
  destruct (accepted h k); cbn [negb].
  - destruct H1 as (Hw & Hld & Hlog & _).
    destruct (IH _ Hk1 HP1) as (HP2 & Hn2 & Hl2 & Hg2).
    { rewrite Hld, Hw, fmap_app, Hl. done. }
    split; [done |]. split; [| split; [done | by rewrite Hg2, Hlog]].
    rewrite Hn2, Hw, fmap_app, <- app_assoc. done.
  - destruct H1 as (Hw & Hld & (e & Hlog) & _).
    destruct (IH _ Hk1 HP1) as (HP2 & Hn2 & Hl2 & Hg2).
    { by rewrite Hld, Hw. }
    split; [done |]. split; [by rewrite Hn2, Hw |]. split; [done |].
    rewrite Hg2, Hlog, length_app. simpl. lia.
Qed.

(** ** No load after start-up, no actor beyond six per entry *)

Lemma createBody_resume_loads h s st : loads (createBody_resume h s st).1 = loads st.
Proof.
  destruct (createBody_resume_outcome h s st)
    as [(e & st1 & Hst1 & ->) | (units & a & st2 & _ & _ & [Hfin _] & ->)]; cbn [fst].
  - rewrite createBody_catch_run. state_simpl. by destruct Hst1 as [-> | (units & ->)].
  - destruct Hfin as (_ & _ & _ & _ & _ & _ & _ & _ & _ & -> & _). done.
Qed.

Lemma step_loads h ev st : Inv st -> loads (step h ev st).1 = loads st.
Proof.
  intros HI.
  destruct (step_shape h [] ev st HI) as [(_ & _ & Hl & _) | (k & s & -> & Hk & ->)];
    [done |].
  by rewrite createBody_resume_loads.
Qed.

Lemma createBody_resume_count h s st :
  length (actors (createBody_resume h s st).1) <= S (length (actors st)) /\
  awaiting (createBody_resume h s st).1 = awaiting st.
Proof.
  destruct (createBody_resume_outcome h s st)
    as [(e & st1 & Hst1 & ->) | (units & a & st2 & _ & _ & [Hfin _] & ->)]; cbn [fst].
  - rewrite createBody_catch_run. state_simpl.
    destruct Hst1 as [-> | (units & ->)]; split; simpl; done || lia.
  - destruct Hfin as (_ & -> & _ & _ & _ & _ & _ & _ & _ & _ & -> & _).
    rewrite length_finished_actors. simpl. split; [lia | done].
Qed.

Lemma step_count h ev st :
  Inv st ->
  length (actors (step h ev st).1) + length (awaiting (step h ev st).1) <=
    length (actors st) + length (awaiting st).
Proof.
  intros HI.
  destruct (step_shape h [] ev st HI)
    as [(_ & Hw & _ & Hl) | (k & s & -> & Hk & Hst)].
  - cbv zeta in Hw, Hl. rewrite Hw, Hl. lia.
  - cbv zeta in Hst. rewrite Hst.
    destruct (createBody_resume_count h s (set_awaiting (delete k (awaiting st)) st))
      as [Hl ->].
    simpl in *. rewrite length_delete by eauto. apply lookup_lt_Some in Hk. lia.
Qed.

Lemma createBody_count h db bodyName st :
  length (actors (createBody h db bodyName st).1) +
    length (awaiting (createBody h db bodyName st).1) <=
  length (actors st) + length (awaiting st) + 6.
Proof.
  destruct (db_get db bodyName) as [facts |] eqn:Hdb.
  2: { unfold createBody. rewrite Hdb. simpl. lia. }
  destruct (createBody_outcome h db bodyName facts st Hdb) as (new & H). cbv zeta in H.
  destruct H as [(_ & Hl & msg & ->) | (_ & Hl & _ & H)].
  { rewrite createBody_catch_run. simpl. rewrite length_app. lia. }
  destruct (find_prefab _ _) as [a |].
  - destruct (Actor_Create_throws h (bodyName +:+ "-body")) as [msg |].
    + rewrite H, createBody_catch_run. simpl. rewrite length_app. lia.
    + destruct H as (st2 & [Hf _] & ->). cbn [fst].
      destruct Hf as (_ & -> & _ & _ & _ & _ & _ & _ & _ & _ & -> & _).
      rewrite length_finished_actors. simpl. rewrite length_app. lia.
  - rewrite H. simpl. rewrite !length_app. simpl. lia.
Qed.

Lemma createSolarSystem_count h db st :
  length (actors (createSolarSystem h db st)) + length (awaiting (createSolarSystem h db st))
    <= length (actors st) + length (awaiting st) + 6 * length db.
Proof.
  unfold createSolarSystem, Object_keys. rewrite <- (length_fmap fst db).
  generalize (db.*1) as keys. intros keys. revert st.
  induction keys as [| k keys IH]; intros st; simpl; [lia |].
  etrans; [apply IH |]. pose proof (createBody_count h db k st). lia.
Qed.

(** ** Handlers and display names *)

Lemma wired_calm db st st1 : calm db st st1 -> wired db st -> wired db st1.
Proof.
  intros (Hb & _ & Hh & _) HW b cb facts. rewrite Hb, Hh. apply HW.
Qed.

Lemma wired_finished h db bodyName facts i p lb o0 o1 a st st2 :
  db_get db bodyName = Some facts ->
  finished h bodyName facts i p lb o0 o1 a st st2 -> wired db st -> wired db st2.
Proof.
  intros Hdb (Eb & _ & _ & Eh & _) HW b cb facts1. rewrite Eb, Eh, elem_of_app.
  destruct (decide (bodyName = b)) as [<- | Hne].
  - intros _ Hdb1 Hname. right. rewrite Hdb in Hdb1. injection Hdb1 as <-.
    rewrite bool_decide_eq_true_2 by done. by apply list_elem_of_singleton.
  - rewrite lookup_insert_ne by done. intros Hcb Hdb1 Hname. left. eauto.
Qed.

Lemma createBody_wired h db bodyName st :
  wired db st -> wired db (createBody h db bodyName st).1.
Proof.
  intros HW. destruct (db_get db bodyName) as [facts |] eqn:Hdb.
  2: { unfold createBody. by rewrite Hdb. }
  destruct (createBody_outcome h db bodyName facts st Hdb) as (new & H). cbv zeta in H.
  destruct H as [(_ & _ & msg & ->) | (_ & _ & _ & H)]; [done |].
  destruct (find_prefab _ _) as [a |].
  - destruct (Actor_Create_throws h (bodyName +:+ "-body")) as [msg |].
    + by rewrite H.
    + destruct H as (st2 & [Hf _] & ->). simpl.
      eapply wired_finished; [exact Hdb | exact Hf | done].
  - by rewrite H.
Qed.

Lemma createSolarSystem_wired h db st :
  wired db st -> wired db (createSolarSystem h db st).
Proof.
  unfold createSolarSystem. generalize (Object_keys db) as keys. intros keys.
  revert st. induction keys as [| k keys IH]; intros st HW; simpl; [done |].
  by apply IH, createBody_wired.
Qed.

Lemma step_wired h db ev st :
  Inv st -> Built h db st -> wired db st -> wired db (step h ev st).1.
Proof.
  intros HI HB HW.
  destruct (step_shape h db ev st HI) as [(Hc & _) | (k & s & -> & Hk & ->)].
  - by eapply wired_calm.
  - assert (Hs : s ∈ awaiting st) by (apply list_elem_of_lookup; eauto).
    destruct (bt_awaiting h db st HB s Hs) as [Hf _ _].
    destruct (createBody_resume_outcome h s (set_awaiting (delete k (awaiting st)) st))
      as [(e & st1 & Hst1 & ->) | (units & a & st2 & _ & _ & [Hfin _] & ->)]; cbn [fst].
    + rewrite createBody_catch_run. by destruct Hst1 as [-> | (units & ->)].
    + eapply wired_finished; [exact Hf | exact Hfin | done].
Qed.

Lemma reachable_wired h db st : reachable h db st -> wired db st.
Proof.
  induction 1 as [| st ev Hr IH].
  - apply createSolarSystem_wired. intros b cb facts Hcb. simpl in Hcb.
    by rewrite lookup_empty in Hcb.
  - apply (step_wired h); [by eapply reachable_Inv | by apply reachable_Built | done].
Qed.

(** ** The bob counter *)

Lemma createBody_resume_labelLoopInc h s st :
  labelLoopInc (createBody_resume h s st).1 = labelLoopInc st.
Proof.
  destruct (createBody_resume_outcome h s st)
    as [(e & st1 & Hst1 & ->) | (units & a & st2 & _ & _ & [Hfin _] & ->)]; cbn [fst].
  - rewrite createBody_catch_run. state_simpl. by destruct Hst1 as [-> | (units & ->)].
  - destruct Hfin as (_ & _ & _ & _ & _ & _ & _ & _ & _ & _ & _ & -> & _). done.
Qed.

(** Only the ticks of a bob loop move the counter. *)
Lemma step_counter h ev st :
  Inv st ->
  let c := labelLoopInc st in
  labelLoopInc (step h ev st).1 =
    if bob_tick st ev then
      (if c <? 5 then if c + 1 =? 5 then 10 else c + 1
       else if c - 1 =? 5 then 0 else c - 1)%Z
    else c.
Proof.
  intros HI. cbv zeta. destruct ev as [k | id | b | b | b]; simpl.
  - destruct (awaiting st !! k) as [s |]; [| done]. cbn [fst].
    by rewrite createBody_resume_labelLoopInc.
  - destruct (lookup_timer id (timers st)) as [t |] eqn:Hid; [| done].
    pose proof (inv_timers st HI id t (lookup_timer_elem _ _ _ Hid)) as Ht.
    unfold timer_ok in Ht.
    destruct (callback t) as [[cb |] | ocb |] eqn:Hcb; try done.
    + destruct Ht as (-> & _). cbn [run_callback].
      rewrite labelLoop_tick_transition. cbn [fst]. unfold bobbed.
      by destruct (labelLoopInc st <? 5)%Z.
    + destruct Ht as (-> & _). cbn [run_callback]. rewrite popup_shrink_run.
      state_simpl. by destruct (celestialBodies st !! "popup_model").
  - case_bool_decide as Hb; [| done].
    unfold onHoverEnter. rewrite boxAnimationEnter_run. cbv zeta. unfold cleared.
    destruct (celestialBodies st !! "box_model_cloud");
      [destruct (celestialBodies st !! "only_gear") |];
      by destruct (animationLoopIterval st).
  - case_bool_decide as Hb; [| done].
    rewrite onHoverExit_run. cbv zeta.
    by destruct (celestialBodies st !! "box_model_cloud");
      [destruct (celestialBodies st !! "only_gear") |].
  - case_bool_decide as Hb; [| done].
    unfold onClick. rewrite childModelDisplay_run. cbv zeta. unfold cleared.
    by destruct (celestialBodies st !! "popup_model") as [p |];
      destruct (childBoxTimeout st).
Qed.

Lemma createSolarSystem_started_pristine h db :
  let st := started h db in
  pristine st /\
  s_bodyName <$> awaiting st = List.filter (accepted h) (Object_keys db) /\
  loads st = s_uri <$> awaiting st /\
  length (log st) = length (List.filter (fun k => negb (accepted h k)) (Object_keys db)).
Proof.
  apply (createSolarSystem_pristine h db (Object_keys db) init_state).
  - apply db_get_keys.
  - apply pristine_init.
  - done.
Qed.

Lemma bob_phases_next k c :
  k < 10 -> bob_phases !! k = Some c ->
  bob_phases !! (S k mod 10) =
    Some (if c <? 5 then if c + 1 =? 5 then 10 else c + 1
          else if c - 1 =? 5 then 0 else c - 1)%Z /\
  ((c <? 5)%Z = true <-> k < 5).
Proof.
  intros Hk Hc.
  do 10 (destruct k as [| k]; [injection Hc as <-; split; [reflexivity |];
                               simpl; split; (done || lia) |]).
  lia.
Qed.

Lemma reachable_phase h db st :
  reachable h db st -> exists k, k < 10 /\ bob_phases !! k = Some (labelLoopInc st).
Proof.
  induction 1 as [| st ev Hr (k & Hk & Hc)].
  - destruct (createSolarSystem_started_pristine h db)
      as ((_ & _ & _ & _ & _ & _ & _ & _ & _ & -> & _) & _).
    exists 0. split; [lia | done].
  - rewrite (step_counter h ev st (reachable_Inv h db st Hr)). cbv zeta.
    destruct (bob_tick st ev).
    + exists (S k mod 10). split; [apply Nat.mod_upper_bound; lia |].
      by apply bob_phases_next.
    + by exists k.
Qed.

(** ** Timer handles are never reused *)

Lemma fresh_list_nil n : fresh_list [] n.
Proof. split; [constructor |]. intros id H. by apply elem_of_nil in H. Qed.

Lemma fresh_list_remove id l n : fresh_list l n -> fresh_list (remove_timer id l) n.
Proof.
  intros [Hd Hlt]. unfold remove_timer.
  assert (Hsub : forall i, i ∈ (filter (fun p : nat * Timer => p.1 <> id) l).*1 -> i ∈ l.*1).
  { intros i Hi. apply list_elem_of_fmap in Hi as ([i1 t] & -> & Hin).
    apply list_elem_of_filter in Hin as [_ Hin]. apply list_elem_of_fmap. by exists (i1, t). }
  split; [| by auto].
  clear Hlt Hsub. induction l as [| [i t] l IH]; [constructor |].
  rewrite filter_cons. simpl in Hd. apply NoDup_cons in Hd as [Hi Hd].
  case_decide as Hne; [| by auto]. simpl. apply NoDup_cons. split; [| by auto].
  intros Hin. apply Hi. apply list_elem_of_fmap in Hin as ([i1 t1] & -> & Hin).
  apply list_elem_of_filter in Hin as [_ Hin]. apply list_elem_of_fmap. by exists (i1, t1).
Qed.

Lemma fresh_list_snoc l n t : fresh_list l n -> fresh_list (l ++ [(n, t)]) (S n).
Proof.
  intros [Hd Hlt]. split.
  - rewrite fmap_app. apply NoDup_app. split; [done |]. split; [| apply NoDup_singleton].
    intros i Hi Hn. apply list_elem_of_singleton in Hn. simpl in Hn. subst i.
    apply Hlt in Hi. lia.
  - intros id. rewrite fmap_app, elem_of_app. intros [Hi | Hi].
    + apply Hlt in Hi. lia.
    + apply list_elem_of_singleton in Hi. simpl in Hi. lia.
Qed.

Lemma fresh_list_snoc2 l n t t1 :
  fresh_list l n -> fresh_list (l ++ [(n, t); (S n, t1)]) (S (S n)).
Proof.
  intros H. change (l ++ [(n, t); (S n, t1)]) with (l ++ [(n, t)] ++ [(S n, t1)]).
  rewrite app_assoc. by apply fresh_list_snoc, fresh_list_snoc.
Qed.

Lemma timers_fresh_intro st l n :
  timers st = l -> next_timer st = n -> fresh_list l n -> timers_fresh st.
Proof. intros <- <-. done. Qed.

Lemma createBody_resume_fresh h s st :
  timers_fresh st -> timers_fresh (createBody_resume h s st).1.
Proof.
  intros HF.
  destruct (createBody_resume_outcome h s st)
    as [(e & st1 & Hst1 & ->) | (units & a & st2 & _ & _ & [Hfin Hn] & ->)]; cbn [fst].
  - rewrite createBody_catch_run. by destruct Hst1 as [-> | (units & ->)].
  - destruct Hfin as (_ & _ & Ht & _). eapply timers_fresh_intro; [exact Ht | exact Hn |].
    simpl. destruct (bool_decide (name (s_facts s) <> ""));
      [by apply fresh_list_snoc | by rewrite app_nil_r].
Qed.

Lemma step_fresh h ev st : Inv st -> timers_fresh st -> timers_fresh (step h ev st).1.
Proof.
  intros HI HF. destruct ev as [k | id | b | b | b]; simpl.
  - destruct (awaiting st !! k) as [s |]; [| done]. cbn [fst].
    by apply createBody_resume_fresh.
  - destruct (lookup_timer id (timers st)) as [t |] eqn:Hid; [| done].
    pose proof (inv_timers st HI id t (lookup_timer_elem _ _ _ Hid)) as Ht.
    unfold timer_ok in Ht.
    destruct (callback t) as [[cb |] | ocb |] eqn:Hcb; try done.
    + destruct Ht as (-> & _). cbn [run_callback].
      rewrite labelLoop_tick_transition. cbn [fst]. unfold bobbed.
      by destruct (labelLoopInc st <? 5)%Z.
    + destruct Ht as (-> & _). cbn [run_callback]. rewrite popup_shrink_run.
      state_simpl.
      destruct (celestialBodies st !! "popup_model");
        (eapply timers_fresh_intro; [reflexivity | reflexivity |]);
        by apply fresh_list_remove.
  - case_bool_decide as Hb; [| done].
    unfold onHoverEnter. rewrite boxAnimationEnter_run. cbv zeta. unfold cleared.
    destruct (celestialBodies st !! "box_model_cloud");
      [destruct (celestialBodies st !! "only_gear") |];
      destruct (animationLoopIterval st);
      (eapply timers_fresh_intro; [reflexivity | reflexivity |]);
      by (try apply fresh_list_remove).
  - case_bool_decide as Hb; [| done].
    rewrite onHoverExit_run. cbv zeta. unfold restarted_bob.
    destruct (celestialBodies st !! "box_model_cloud");
      [destruct (celestialBodies st !! "only_gear") |];
      (eapply timers_fresh_intro; [reflexivity | reflexivity |]);
      by (apply fresh_list_snoc2 || apply fresh_list_snoc).
  - case_bool_decide as Hb; [| done].
    unfold onClick. rewrite childModelDisplay_run. cbv zeta. unfold cleared.
    destruct (celestialBodies st !! "popup_model") as [p |];
      destruct (childBoxTimeout st);
      (eapply timers_fresh_intro; [reflexivity | reflexivity |]);
      by (try apply fresh_list_remove).
Qed.

Lemma reachable_fresh h db st : reachable h db st -> timers_fresh st.
Proof.
  induction 1 as [| st ev Hr IH].
  - destruct (createSolarSystem_started_pristine h db)
      as ((_ & Ht & _ & _ & _ & _ & Hn & _) & _).
    eapply timers_fresh_intro; [exact Ht | exact Hn | apply fresh_list_nil].
  - apply step_fresh; [by eapply reachable_Inv | done].
Qed.

(** ** Counting bob loops *)

Lemma remove_timer_absent id l : id ∉ l.*1 -> remove_timer id l = l.
Proof.
  unfold remove_timer. induction l as [| [i t] l IH]; [done |].
  simpl. rewrite not_elem_of_cons. intros [Hne Hl].
  rewrite filter_cons. simpl. rewrite decide_True by done. by rewrite IH.
Qed.

(** Clearing a handle takes away the one timer that has it, if any. *)
Lemma count_remove_timer (P : nat * Timer -> bool) id l :
  NoDup l.*1 ->
  length (List.filter P (remove_timer id l)) +
    match lookup_timer id l with
    | Some t => if P (id, t) then 1 else 0
    | None => 0
    end = length (List.filter P l).
Proof.
  induction l as [| [i t] l IH]; [done |].
  simpl. intros Hd. apply NoDup_cons in Hd as [Hi Hd].
  unfold remove_timer. rewrite filter_cons. simpl.
  case_bool_decide as Hid.
  - subst i. rewrite decide_False by tauto.
    fold (remove_timer id l). rewrite remove_timer_absent by done.
    destruct (P (id, t)); simpl; lia.
  - rewrite decide_True by done. specialize (IH Hd). unfold remove_timer in IH.
    simpl. destruct (P (i, t)); simpl; lia.
Qed.

(** ** Actors across a turn of the event loop *)

Lemma createBody_resume_actors_step h db s st :
  suspended_from db (actors st) s ->
  actors_step db (actors st) (actors (createBody_resume h s st).1).
Proof.
  intros [Hf Hu Hl].
  destruct (createBody_resume_outcome h s st)
    as [(e & st1 & Hst1 & ->) | (units & a & st2 & _ & _ & [Hfin _] & ->)]; cbn [fst].
  - rewrite createBody_catch_run. state_simpl.
    destruct Hst1 as [-> | (units & ->)]; apply actors_step_refl.
  - destruct Hfin as (_ & -> & _). by apply finished_actors_step.
Qed.

Lemma step_actors_step h db ev st :
  Inv st -> Built h db st -> actors_step db (actors st) (actors (step h ev st).1).
Proof.
  intros HI HB.
  destruct (step_shape h db ev st HI) as [((_ & _ & _ & Hs) & _) | (k & s & -> & Hk & ->)];
    [done |].
  apply (createBody_resume_actors_step h db s (set_awaiting (delete k (awaiting st)) st)).
  simpl. apply (bt_awaiting h db st HB). apply list_elem_of_lookup. eauto.
Qed.

Lemma lookup_timer_snoc id l t more :
  id ∉ l.*1 -> lookup_timer id (l ++ (id, t) :: more) = Some t.
Proof.
  induction l as [| [i t1] l IH]; simpl.
  - intros _. by rewrite bool_decide_eq_true_2.
  - rewrite not_elem_of_cons. intros [Hne Hl].
    rewrite bool_decide_eq_false_2 by done. auto.
Qed.

Lemma bob_loops_cleared handle st :
  timers_fresh st ->
  length (bob_loops (cleared handle st)) +
    match handle with
    | Some id =>
        match lookup_timer id (timers st) with
        | Some t => match callback t with BobTick _ => 1 | _ => 0 end
        | None => 0
        end
    | None => 0
    end = length (bob_loops st).
Proof.
  intros [Hd _]. destruct handle as [id |]; simpl; [| lia].
  unfold bob_loops. simpl.
  rewrite <- (count_remove_timer _ id (timers st) Hd).
  destruct (lookup_timer id (timers st)) as [t |]; [| done]. simpl.
  by destruct (callback t).
Qed.

(** ** Bodies are built once *)

Lemma NoDup_filter_bool {A} (P : A -> bool) (l : list A) :
  NoDup l -> NoDup (List.filter P l).
Proof.
  induction 1 as [| x l Hx Hd IH]; simpl; [constructor |].
  destruct (P x); [| done]. constructor; [| done].
  intros Hin. apply Hx. apply list_elem_of_In in Hin.
  apply List.filter_In in Hin as [Hin _]. by apply list_elem_of_In.
Qed.

Lemma NoDup_fmap_delete {A B} (f : A -> B) (l : list A) k :
  NoDup (f <$> l) -> NoDup (f <$> delete k l).
Proof.
  revert k. induction l as [| x l IH]; intros k Hd; [by destruct k |].
  simpl in Hd. apply NoDup_cons in Hd as [Hx Hd].
  destruct k as [| k]; simpl; [done |].
  apply NoDup_cons. split; [| by apply IH].
  intros Hin. apply Hx. apply list_elem_of_fmap in Hin as (y & -> & Hy).
  apply list_elem_of_fmap. exists y. split; [done |]. by eapply list_elem_of_delete_inv.
Qed.

Lemma NoDup_fmap_delete_ne {A B} (f : A -> B) (l : list A) k x y :
  NoDup (f <$> l) -> l !! k = Some x -> y ∈ delete k l -> f y <> f x.
Proof.
  revert k. induction l as [| z l IH]; intros k Hd Hk Hy; [by destruct k |].
  simpl in Hd. apply NoDup_cons in Hd as [Hz Hd].
  destruct k as [| k]; simpl in *.
  - injection Hk as ->. intros E. apply Hz. rewrite <- E.
    apply list_elem_of_fmap. by exists y.
  - apply elem_of_cons in Hy as [-> | Hy]; [| by eapply IH].
    intros E. apply Hz. rewrite E. apply list_elem_of_fmap. exists x.
    split; [done |]. apply list_elem_of_lookup. eauto.
Qed.

Lemma started_pending_fresh h db :
  NoDup (Object_keys db) -> pending_fresh (started h db).
Proof.
  intros Hd.
  destruct (createSolarSystem_started_pristine h db) as ((Hb & _) & Hn & _).
  split.
  - rewrite Hn. by apply NoDup_filter_bool.
  - intros s _. by rewrite Hb, lookup_empty.
Qed.

(** What a settled load does to the registry and the suspended
    constructions. *)
Lemma step_LoadSettled_registry h k s st :
  awaiting st !! k = Some s ->
  let st1 := (step h (LoadSettled k) st).1 in
  awaiting st1 = delete k (awaiting st) /\
  (celestialBodies st1 = celestialBodies st \/
   exists cb, celestialBodies st1 = <[s_bodyName s := cb]> (celestialBodies st)).
Proof.
  intros Hk. cbv zeta. cbn [step]. rewrite Hk. cbn [fst].
  destruct (createBody_resume_outcome h s (set_awaiting (delete k (awaiting st)) st))
    as [(e & st1 & Hst1 & ->) | (units & a & st2 & _ & _ & [Hfin _] & ->)]; cbn [fst].
  - rewrite createBody_catch_run. state_simpl.
    destruct Hst1 as [-> | (units & ->)]; split; auto.
  - destruct Hfin as (Hb & _ & _ & _ & _ & _ & _ & _ & _ & _ & Hw & _).
    rewrite Hb, Hw. split; [done |]. right. by eexists.
Qed.

Lemma step_pending_fresh h ev st :
  Inv st -> pending_fresh st -> pending_fresh (step h ev st).1.
Proof.
  intros HI [Hd Hnone].
  destruct (step_shape h [] ev st HI)
    as [((Hb & _) & Hw & _) | (k & s & -> & Hk & _)].
  - cbv zeta in Hb, Hw. split; [by rewrite Hw |]. rewrite Hw, Hb. done.
  - destruct (step_LoadSettled_registry h k s st Hk) as [Hw Hb]. cbv zeta in Hw, Hb.
    split; [rewrite Hw; by apply NoDup_fmap_delete |].
    intros s1 Hs1. rewrite Hw in Hs1.
    assert (Hold : celestialBodies st !! s_bodyName s1 = None).
    { apply Hnone. by eapply list_elem_of_delete_inv. }
    destruct Hb as [-> | (cb & ->)]; [done |].
    rewrite lookup_insert_ne; [done |].
    apply not_eq_sym. by eapply (NoDup_fmap_delete_ne s_bodyName).
Qed.

Lemma reachable_pending_fresh h db st :
  NoDup (Object_keys db) -> reachable h db st -> pending_fresh st.
Proof.
  intros Hd. induction 1 as [| st ev Hr IH].
  - by apply started_pending_fresh.
  - apply step_pending_fresh; [by eapply reachable_Inv | done].
Qed.

Lemma step_registered h ev st b cb :
  Inv st -> pending_fresh st ->
  celestialBodies st !! b = Some cb ->
  celestialBodies (step h ev st).1 !! b = Some cb.
Proof.
  intros HI [Hd Hnone] Hcb.
  destruct (step_shape h [] ev st HI)
    as [((Hb & _) & _) | (k & s & -> & Hk & _)].
  - cbv zeta in Hb. by rewrite Hb.
  - destruct (step_LoadSettled_registry h k s st Hk) as [_ Hb]. cbv zeta in Hb.
    destruct Hb as [-> | (cb1 & ->)]; [done |].
    rewrite lookup_insert_ne; [done |].
    intros E. rewrite <- E, Hnone in Hcb; [done |]. apply list_elem_of_lookup. eauto.
Qed.

(** ** The scene gets built *)

Lemma accepted_obliging h b : obliging h -> accepted h b = true.
Proof.
  intros [Ha _]. unfold accepted. apply forallb_forall. intros n _.
  by apply bool_decide_eq_true_2.
Qed.

Lemma filter_all {A} (P : A -> bool) (l : list A) :
  (forall x, P x = true) -> List.filter P l = l.
Proof. intros H. induction l as [| x l IH]; simpl; [done |]. by rewrite H, IH. Qed.

Lemma started_all_attempted h db :
  obliging h ->
  all_attempted db (started h db) /\ length (awaiting (started h db)) = length db.
Proof.
  intros Ho. destruct (createSolarSystem_started_pristine h db) as (_ & Hn & _).
  cbv zeta in Hn. rewrite filter_all in Hn by (intros b; by apply accepted_obliging).
  split.
  - intros k Hk. right. rewrite <- Hn in Hk.
    apply list_elem_of_fmap in Hk as (s & -> & Hs). by exists s.
  - rewrite <- (length_fmap s_bodyName), Hn. unfold Object_keys. by rewrite length_fmap.
Qed.

Lemma elem_of_delete_or {A} (l : list A) k x y :
  l !! k = Some x -> y ∈ l -> y = x \/ y ∈ delete k l.
Proof.
  intros Hk Hy. apply list_elem_of_lookup in Hy as [j Hj].
  destruct (decide (j = k)) as [-> | Hne]; [left; congruence |]. right.
  apply list_elem_of_lookup. destruct (decide (j < k)).
  - exists j. by rewrite list_lookup_delete_lt.
  - exists (j - 1). rewrite list_lookup_delete_ge by lia.
    by replace (S (j - 1)) with j by lia.
Qed.

(** With an obliging host, a load that settles registers its body,
    whichever place it has among the suspended constructions. *)
Lemma step_LoadSettled_obliging h k s st :
  obliging h -> awaiting st !! k = Some s ->
  let st1 := (step h (LoadSettled k) st).1 in
  awaiting st1 = delete k (awaiting st) /\
  exists cb, celestialBodies st1 = <[s_bodyName s := cb]> (celestialBodies st).
Proof.
  intros [Ha Hl] Hk. cbv zeta. cbn [step]. rewrite Hk. cbn [fst].
  pose proof (createBody_resume_cases h s (set_awaiting (delete k (awaiting st)) st)) as H.
  destruct (Hl (s_uri s)) as (units & a & Hr & Hfind).
  rewrite Hr in H. cbv zeta in H. rewrite Hfind, Ha in H.
  destruct H as (st2 & Hfin & ->). cbn [fst].
  destruct Hfin as (Hb & _ & _ & _ & _ & _ & _ & _ & _ & _ & Hw2 & _).
  split; [done |]. by eexists.
Qed.

(** One turn of the event loop: every key stays registered or suspended,
    and a construction leaves [awaiting] exactly when a load settles. *)
Lemma step_all_attempted h db ev st :
  obliging h -> Inv st -> all_attempted db st ->
  all_attempted db (step h ev st).1 /\
  length (awaiting (step h ev st).1) + settles h [ev] st = length (awaiting st).
Proof.
  intros Ho HI Hall.
  assert (Hquiet : forall st1, celestialBodies st1 = celestialBodies st ->
            awaiting st1 = awaiting st -> all_attempted db st1).
  { intros st1 Hb Hw k Hk. destruct (Hall k Hk) as [H | H]; [left | right].
    - by rewrite Hb.
    - by rewrite Hw. }
  destruct (step_shape h db ev st HI)
    as [((Hb & _) & Hw & _) | (k & s & -> & Hk & _)].
  - cbv zeta in Hb, Hw. split; [by apply Hquiet |]. rewrite Hw.
    destruct ev as [k | | | |]; simpl; try lia.
    destruct (awaiting st !! k) as [s |] eqn:Hk; [| lia].
    exfalso.
    destruct (step_LoadSettled_registry h k s st Hk) as [Hw1 _]. cbv zeta in Hw1.
    rewrite Hw1 in Hw. apply (f_equal length) in Hw.
    rewrite length_delete in Hw by eauto.
    apply lookup_lt_Some in Hk. lia.
  - destruct (step_LoadSettled_obliging h k s st Ho Hk) as (Hw & cb & Hb).
    cbv zeta in Hw, Hb. split.
    + intros k0 Hk0. destruct (Hall k0 Hk0) as [[cb0 H] | (s1 & Hs1 & Hname)].
      * left. rewrite Hb. destruct (decide (s_bodyName s = k0)) as [-> | Hne].
        -- rewrite lookup_insert_eq. eauto.
        -- rewrite lookup_insert_ne by done. eauto.
      * destruct (elem_of_delete_or _ _ _ _ Hk Hs1) as [-> | Hin].
        -- left. rewrite Hb, Hname, lookup_insert_eq. eauto.
        -- right. exists s1. by rewrite Hw.
    + rewrite Hw. simpl. rewrite Hk. rewrite length_delete by eauto.
      apply lookup_lt_Some in Hk. lia.
Qed.

Lemma run_all_attempted h db evs st :
  obliging h -> Inv st -> all_attempted db st ->
  all_attempted db (run_events h evs st) /\
  length (awaiting (run_events h evs st)) + settles h evs st = length (awaiting st).
Proof.
  intros Ho. revert st. induction evs as [| ev evs IH]; intros st HI Hall.
  { simpl. split; [done | lia]. }
  destruct (step_all_attempted h db ev st Ho HI Hall) as [Hall1 Hn1].
  destruct (IH (step h ev st).1) as [Hall2 Hn2]; [by apply step_Inv | done |].
  change (run_events h (ev :: evs) st) with (run_events h evs (step h ev st).1).
  split; [done |].
  cbn [settles] in Hn1 |- *. lia.
Qed.

(** Loads can settle in any order: each one leaves one construction fewer
    suspended, whatever the host answers. *)
Lemma settles_outstanding h ks st :
  outstanding (length (awaiting st)) ks = true ->
  settles h (LoadSettled <$> ks) st = length ks.
Proof.
  revert st. induction ks as [| k ks IH]; intros st Hks; [done |].
  simpl in Hks. apply andb_prop in Hks as [Hk Hks]. apply Nat.ltb_lt in Hk.
  destruct (lookup_lt_is_Some_2 (awaiting st) k Hk) as [s Hs].
  destruct (step_LoadSettled_registry h k s st Hs) as [Hw _]. cbv zeta in Hw.
  cbn [fmap list_fmap settles]. rewrite Hs. rewrite IH; [done |].
  rewrite Hw, length_delete by eauto. done.
Qed.

(** ** Searching the joined arguments *)

Lemma append_String c s t : String c s +:+ t = String c (s +:+ t).
Proof. reflexivity. Qed.

Lemma append_empty_l t : "" +:+ t = t.
Proof. reflexivity. Qed.

Lemma String_includes_unfold s n :
  String_includes s n =
    if String.prefix n s then true
    else match s with EmptyString => false | String _ rest => String_includes rest n end.
Proof. by destruct s. Qed.

Lemma String_includes_cons c rest n :
  String_includes rest n = true -> String_includes (String c rest) n = true.
Proof.
  intros H. rewrite String_includes_unfold.
  by destruct (String.prefix n (String c rest)).
Qed.

Lemma String_includes_prefix s n :
  String.prefix n s = true -> String_includes s n = true.
Proof. intros H. by rewrite String_includes_unfold, H. Qed.

Lemma prefix_append n s : String.prefix n s = true <-> exists after, s = n +:+ after.
Proof.
  revert s. induction n as [| c n IH]; intros s.
  - split; [intros _; by exists s |]. by destruct s.
  - destruct s as [| d s]; simpl.
    + split; [done |]. intros [after H]. rewrite append_String in H. discriminate.
    + destruct (Ascii.ascii_dec c d) as [-> | Hne].
      * rewrite IH. split; intros [after H]; exists after.
        -- rewrite append_String. by f_equal.
        -- rewrite append_String in H. by injection H.
      * split; [done |]. intros [after H]. rewrite append_String in H. congruence.
Qed.

Lemma String_includes_occurs s n : String_includes s n = true <-> occurs_in n s.
Proof.
  split.
  - induction s as [| c s IH]; rewrite String_includes_unfold;
      destruct (String.prefix n _) eqn:Hp; try done.
    + intros _. apply prefix_append in Hp as [after ->]. by exists "", after.
    + intros _. apply prefix_append in Hp as [after ->]. by exists "", after.
    + intros H. destruct (IH H) as (before & after & ->). by exists (String c before), after.
  - intros (before & after & ->). induction before as [| c before IH].
    + rewrite append_empty_l. apply String_includes_prefix, prefix_append. eauto.
    + rewrite append_String. by apply String_includes_cons.
Qed.

Lemma prefix_before_comma n a r :
  no_comma n = true ->
  String.prefix n (a +:+ String comma r) = true -> String.prefix n a = true.
Proof.
  revert a. induction n as [| c n IH]; intros a Hn; [by destruct a |].
  simpl in Hn. apply andb_true_iff in Hn as [Hc Hn].
  destruct a as [| d a].
  - rewrite append_empty_l. simpl.
    destruct (Ascii.ascii_dec c comma) as [-> | Hne]; [| done].
    by rewrite Ascii.eqb_refl in Hc.
  - rewrite append_String. simpl. destruct (Ascii.ascii_dec c d); [| done]. by apply IH.
Qed.

Lemma prefix_extend n a x : String.prefix n a = true -> String.prefix n (a +:+ x) = true.
Proof.
  rewrite !prefix_append. intros [after ->]. exists (after +:+ x).
  clear. induction n as [| c n IH]; [done |]. rewrite !append_String. by f_equal.
Qed.

Lemma String_includes_extend_r s x n :
  String_includes s n = true -> String_includes (s +:+ x) n = true.
Proof.
  induction s as [| c s IH]; rewrite String_includes_unfold.
  - destruct (String.prefix n "") eqn:Hp; [| done]. intros _.
    by apply String_includes_prefix, prefix_extend.
  - destruct (String.prefix n (String c s)) eqn:Hp.
    + intros _. by apply String_includes_prefix, prefix_extend.
    + intros H. rewrite append_String. by apply String_includes_cons, IH.
Qed.

Lemma String_includes_extend_l s x n :
  String_includes s n = true -> String_includes (x +:+ s) n = true.
Proof.
  intros H. induction x as [| c x IH]; [done |].
  rewrite append_String. by apply String_includes_cons.
Qed.

(** A search string without a comma cannot straddle a separator. *)
Lemma String_includes_comma a r n :
  no_comma n = true ->
  String_includes (a +:+ String comma r) n =
    String_includes a n || String_includes r n.
Proof.
  intros Hn. apply eq_true_iff_eq. rewrite orb_true_iff. split.
  - induction a as [| c a IH].
    + rewrite append_empty_l, String_includes_unfold.
      destruct (String.prefix n (String comma r)) eqn:Hp; [| by right].
      intros _. left. apply String_includes_prefix.
      by apply (prefix_before_comma n "" r).
    + rewrite append_String, String_includes_unfold.
      destruct (String.prefix n (String c (a +:+ String comma r))) eqn:Hp.
      * intros _. left. apply String_includes_prefix.
        by apply (prefix_before_comma n (String c a) r).
      * intros H. destruct (IH H) as [Ha | Hr]; [| by right].
        left. by apply String_includes_cons.
  - intros [Ha | Hr].
    + by apply String_includes_extend_r.
    + by apply String_includes_extend_l, String_includes_cons.
Qed.

(** Searching the joined arguments is searching each argument. *)
Lemma String_includes_join l n :
  no_comma n = true -> n <> "" ->
  String_includes (Array_join l) n = existsb (fun a => String_includes a n) l.
Proof.
  intros Hn Hne. unfold Array_join. induction l as [| a l IH].
  - simpl. by destruct n.
  - destruct l as [| b l].
    + simpl. by rewrite orb_false_r.
    + change (String.concat "," (a :: b :: l))
        with (a +:+ String comma (String.concat "," (b :: l))).
      rewrite String_includes_comma by done. by rewrite IH.
Qed.

(** ** What gets logged *)

Lemma createBody_resume_log h s st :
  log (createBody_resume h s st).1 = log st \/
  exists e,
    log (createBody_resume h s st).1 = log st ++ [failure_line (s_bodyName s) e] /\
    ((exists msg, e = HostError msg) \/ e = undefined_error "prefab").
Proof.
  pose proof (createBody_resume_cases h s st) as H.
  destruct (loadGltf_reply h (s_uri s)) as [msg | units].
  { rewrite H. right. exists (HostError msg). split; [done | eauto]. }
  cbv zeta in H. destruct (List.find is_prefab _) as [a |].
  - destruct (Actor_Create_throws h (s_bodyName s +:+ "-body")) as [msg |].
    + rewrite H. right. exists (HostError msg). split; [done | eauto].
    + destruct H as (st2 & Hfin & ->). left. cbn [fst].
      by destruct Hfin as (_ & _ & _ & _ & _ & _ & _ & _ & -> & _).
  - rewrite H. right. exists (undefined_error "prefab"). split; [done | eauto].
Qed.

Lemma step_log h db ev st :
  Inv st -> Built h db st -> Forall (logged_failure db) (log st) ->
  Forall (logged_failure db) (log (step h ev st).1).
Proof.
  intros HI HB HL. destruct ev as [k | id | b | b | b]; simpl.
  - destruct (awaiting st !! k) as [s |] eqn:Hk; [| done]. cbn [fst].
    assert (Hs : s ∈ awaiting st) by (apply list_elem_of_lookup; eauto).
    destruct (bt_awaiting h db st HB s Hs) as [Hf _ _].
    destruct (createBody_resume_log h s (set_awaiting (delete k (awaiting st)) st))
      as [-> | (e & -> & He)]; [done |].
    apply Forall_app. split; [done |]. apply Forall_singleton.
    exists (s_bodyName s), e. by rewrite Hf.
  - destruct (lookup_timer id (timers st)) as [t |] eqn:Hid; [| done].
    pose proof (inv_timers st HI id t (lookup_timer_elem _ _ _ Hid)) as Ht.
    unfold timer_ok in Ht.
    destruct (callback t) as [[cb |] | ocb |] eqn:Hcb; try done.
    + destruct Ht as (-> & _). cbn [run_callback].
      rewrite labelLoop_tick_transition. cbn [fst]. unfold bobbed.
      by destruct (labelLoopInc st <? 5)%Z.
    + destruct Ht as (-> & _). cbn [run_callback]. rewrite popup_shrink_run.
      state_simpl. by destruct (celestialBodies st !! "popup_model").
  - case_bool_decide as Hb; [| done].
    unfold onHoverEnter. rewrite boxAnimationEnter_run. cbv zeta. unfold cleared.
    destruct (celestialBodies st !! "box_model_cloud");
      [destruct (celestialBodies st !! "only_gear") |];
      by destruct (animationLoopIterval st).
  - case_bool_decide as Hb; [| done].
    rewrite onHoverExit_run. cbv zeta.
    by destruct (celestialBodies st !! "box_model_cloud");
      [destruct (celestialBodies st !! "only_gear") |].
  - case_bool_decide as Hb; [| done].
    unfold onClick. rewrite childModelDisplay_run. cbv zeta. unfold cleared.
    by destruct (celestialBodies st !! "popup_model") as [p |];
      destruct (childBoxTimeout st).
Qed.

Lemma createBody_log h db bodyName st :
  Forall (logged_failure db) (log st) ->
  Forall (logged_failure db) (log (createBody h db bodyName st).1).
Proof.
  intros HL. destruct (db_get db bodyName) as [facts |] eqn:Hdb.
  2: { unfold createBody. by rewrite Hdb. }
  assert (Hfail : forall msg l,
            Forall (logged_failure db)
              (log (createBody_catch bodyName (HostError msg) (set_actors l st)))).
  { intros msg l. rewrite createBody_catch_run. state_simpl.
    apply Forall_app. split; [done |]. apply Forall_singleton.
    exists bodyName, (HostError msg). rewrite Hdb. eauto. }
  destruct (createBody_outcome h db bodyName facts st Hdb) as (new & H). cbv zeta in H.
  destruct H as [(_ & _ & msg & ->) | (_ & _ & _ & H)]; [apply Hfail |].
  destruct (find_prefab _ _) as [a |].
  - destruct (Actor_Create_throws h (bodyName +:+ "-body")) as [msg |].
    + rewrite H. apply Hfail.
    + destruct H as (st2 & [Hf _] & ->). cbn [fst].
      by destruct Hf as (_ & _ & _ & _ & _ & _ & _ & _ & -> & _).
  - by rewrite H.
Qed.

Lemma started_log h db : Forall (logged_failure db) (log (started h db)).
Proof.
  unfold started, createSolarSystem. generalize (Object_keys db) as keys. intros keys.
  assert (H : forall st, Forall (logged_failure db) (log st) ->
            Forall (logged_failure db)
              (log (fold_left (fun s bodyName => (createBody h db bodyName s).1) keys st))).
  { induction keys as [| k keys IH]; intros st HL; simpl; [done |].
    by apply IH, createBody_log. }
  apply H. constructor.
Qed.

(** * Further properties of the program *)

(** X1.  When [createSolarSystem] returns, nothing is finished: no body is
    registered, no timer runs, no handler is set and no tween was
    requested.  Every key whose five nodes the host accepts has a
    construction suspended on its load, in key order, each carrying the
    record of its key, the path made from it and the container of the
    constructor; one load was requested per suspended construction, with no
    sharing between keys; and every other key left one line in the log. *)
Theorem start_up_suspends_every_body h db :
  let st := started h db in
  pristine st /\
  s_bodyName <$> awaiting st = List.filter (accepted h) (Object_keys db) /\
  loads st = s_uri <$> awaiting st /\
  (forall s, s ∈ awaiting st ->
     db_get db (s_bodyName s) = Some (s_facts s) /\
     s_uri s = model_uri (s_bodyName s) (s_facts s)) /\
  length (log st) = length (List.filter (fun k => negb (accepted h k)) (Object_keys db)).
Proof.
  cbv zeta.
  destruct (createSolarSystem_started_pristine h db) as (HP & Hn & Hl & Hg).
  repeat (split; [done |]). split; [| done].
  intros s Hs.
  destruct (bt_awaiting h db _ (reachable_Built h db _ (reachable_started h db)) s Hs)
    as [Hf Hu _].
  done.
Qed.

(** X2.  No load is requested after start-up: whatever events follow, the
    loads requested are those of [createSolarSystem]. *)
Theorem no_load_after_start_up h db evs :
  loads (run_events h evs (started h db)) = loads (started h db).
Proof.
  assert (H : forall st, reachable h db st -> loads (run_events h evs st) = loads st).
  { induction evs as [| ev evs IH]; intros st Hr; simpl; [done |].
    rewrite IH by (by constructor). apply step_loads. by eapply reachable_Inv. }
  apply H. constructor.
Qed.

(** X3.  The program creates at most six actors per entry of the database:
    in every state after start-up, the actors and the constructions still
    suspended (each one model short) together number at most six times the
    entries. *)
Theorem at_most_six_actors_per_entry h db evs :
  let st := run_events h evs (started h db) in
  length (actors st) + length (awaiting st) <= 6 * length db.
Proof.
  cbv zeta.
  assert (H : forall st, reachable h db st ->
            length (actors (run_events h evs st)) + length (awaiting (run_events h evs st))
              <= length (actors st) + length (awaiting st)).
  { induction evs as [| ev evs IH]; intros st Hr; simpl; [lia |].
    etrans; [apply IH; by constructor |]. apply step_count. by eapply reachable_Inv. }
  etrans; [apply H; constructor |].
  pose proof (createSolarSystem_count h db init_state) as Hc. simpl in Hc.
  unfold started. lia.
Qed.

(** X4.  Actors are never destroyed and, once created, only move or show:
    from a reachable state on, whatever events follow, every actor is still
    there under its handle with the same name, parent, rotations, scale, x
    and z, prefab, collider and button behaviour; a visible actor stays
    visible; and a text changes only on the label of a body, to the display
    name of that body. *)
Theorem actors_are_kept h db st evs :
  reachable h db st ->
  actors_step db (actors st) (actors (run_events h evs st)).
Proof.
  revert st. induction evs as [| ev evs IH]; intros st Hr; simpl.
  - apply actors_step_refl.
  - eapply actors_step_trans; [| apply IH; by constructor].
    apply step_actors_step; [by eapply reachable_Inv | by apply reachable_Built].
Qed.

Lemma actors_are_kept_witness :
  reachable quiet_host demo_db demo_started /\
  actors_step demo_db (actors demo_started)
    (actors (run_events quiet_host
               [LoadSettled 0; LoadSettled 0; LoadSettled 0; TimerFires 0;
                Click "box_model_cloud"] demo_started)).
Proof.
  split; [constructor |].
  apply (actors_are_kept quiet_host demo_db demo_started). constructor.
Defined.

(** X5.  A registered body is a key of the database, and its label and
    model are as [createBody] made them: the label actor is named after the
    key and shows the display name; the model actor is named after the key,
    has the scale computed from the diameter, the rotation of the record, a
    collider of radius 0 and a button behaviour, and is an instance of a
    prefab loaded from the path of the key. *)
Theorem registered_bodies_are_as_built h db st b cb :
  reachable h db st -> celestialBodies st !! b = Some cb ->
  exists facts, db_get db b = Some facts /\ as_built h b facts (actors st) cb.
Proof. intros Hr Hcb. by apply (bt_bodies h db st (reachable_Built h db st Hr)). Qed.

Lemma registered_bodies_are_as_built_witness :
  reachable quiet_host demo_db demo_running /\
  celestialBodies demo_running !! "only_gear" = Some demo_gear /\
  exists facts,
    db_get demo_db "only_gear" = Some facts /\
    as_built quiet_host "only_gear" facts (actors demo_running) demo_gear.
Proof.
  split; [apply demo_running_reachable |].
  split; [vm_compute; reflexivity |].
  apply (registered_bodies_are_as_built quiet_host demo_db demo_running "only_gear" demo_gear).
  - apply demo_running_reachable.
  - vm_compute; reflexivity.
Defined.

(** X6.  The hover and click handlers are set on exactly the registered
    bodies whose record has a non-empty display name. *)
Theorem handlers_iff_named h db st b :
  reachable h db st ->
  (b ∈ handlers st <->
   exists cb facts,
     celestialBodies st !! b = Some cb /\ db_get db b = Some facts /\ name facts <> "").
Proof.
  intros Hr. split.
  - intros Hb.
    destruct (inv_handlers st (reachable_Inv h db st Hr) b Hb) as [cb Hcb].
    destruct (bt_handlers h db st (reachable_Built h db st Hr) b Hb) as (facts & Hdb & Hn).
    by exists cb, facts.
  - intros (cb & facts & Hcb & Hdb & Hn). by eapply (reachable_wired h db st Hr).
Qed.

Lemma handlers_iff_named_witness :
  reachable quiet_host demo_db demo_running /\
  ("only_gear" ∈ handlers demo_running <->
   exists cb facts,
     celestialBodies demo_running !! "only_gear" = Some cb /\
     db_get demo_db "only_gear" = Some facts /\ name facts <> "").
Proof.
  split; [apply demo_running_reachable |].
  apply (handlers_iff_named quiet_host demo_db demo_running "only_gear").
  apply demo_running_reachable.
Defined.

(** X7.  Pointer events on a body without a display name, or on a name
    that is no key of the database, are dropped: the state does not change
    and nothing is thrown. *)
Theorem unnamed_bodies_ignore_pointer h db st b ev :
  reachable h db st ->
  (forall facts, db_get db b = Some facts -> name facts = "") ->
  ev ∈ [HoverEnter b; HoverExit b; Click b] ->
  step h ev st = (st, None).
Proof.
  intros Hr Hun Hev.
  assert (Hb : b ∉ handlers st).
  { intros Hb.
    destruct (bt_handlers h db st (reachable_Built h db st Hr) b Hb) as (facts & Hdb & Hn).
    by apply Hn, Hun. }
  set_unfold in Hev. destruct Hev as [-> | [-> | [-> | []]]]; simpl;
    by rewrite bool_decide_eq_false_2.
Qed.

Lemma unnamed_bodies_ignore_pointer_witness :
  reachable quiet_host demo_db demo_running /\
  (forall facts, db_get demo_db "popup_model" = Some facts -> name facts = "") /\
  Click "popup_model" ∈
    [HoverEnter "popup_model"; HoverExit "popup_model"; Click "popup_model"] /\
  step quiet_host (Click "popup_model") demo_running = (demo_running, None).
Proof.
  assert (Hun : forall facts, db_get demo_db "popup_model" = Some facts -> name facts = "").
  { intros facts H. vm_compute in H. injection H as <-. reflexivity. }
  assert (Hev : Click "popup_model" ∈
            [HoverEnter "popup_model"; HoverExit "popup_model"; Click "popup_model"]).
  { set_solver. }
  split; [apply demo_running_reachable |]. split; [exact Hun |]. split; [exact Hev |].
  exact (unnamed_bodies_ignore_pointer quiet_host demo_db demo_running "popup_model"
           (Click "popup_model") demo_running_reachable Hun Hev).
Defined.

(** X8.  The bob counter runs through 0, 1, 2, 3, 4, 10, 9, 8, 7, 6 and
    round again, and never is 5: in every reachable state it is at some
    place [k] of that cycle, below 5 exactly in the first five places; a
    tick of any live bob loop takes it to the next place, and every other
    event leaves it where it is.  So the ticks come as five upward moves
    followed by five downward moves, whichever loops run them. *)
Theorem bob_counter_cycle h db st ev :
  reachable h db st ->
  exists k,
    k < 10 /\ bob_phases !! k = Some (labelLoopInc st) /\
    ((labelLoopInc st <? 5)%Z = true <-> k < 5) /\
    bob_phases !! (if bob_tick st ev then S k mod 10 else k) =
      Some (labelLoopInc (step h ev st).1).
Proof.
  intros Hr. destruct (reachable_phase h db st Hr) as (k & Hk & Hc).
  exists k. split; [done |]. split; [done |].
  destruct (bob_phases_next k _ Hk Hc) as [Hnext Hlt]. split; [done |].
  rewrite (step_counter h ev st (reachable_Inv h db st Hr)). cbv zeta.
  by destruct (bob_tick st ev).
Qed.

Lemma bob_counter_cycle_witness :
  reachable quiet_host demo_db demo_running /\
  exists k,
    k < 10 /\ bob_phases !! k = Some (labelLoopInc demo_running) /\
    ((labelLoopInc demo_running <? 5)%Z = true <-> k < 5) /\
    bob_phases !! (if bob_tick demo_running (TimerFires 1) then S k mod 10 else k) =
      Some (labelLoopInc (step quiet_host (TimerFires 1) demo_running).1).
Proof.
  split; [apply demo_running_reachable |].
  apply (bob_counter_cycle quiet_host demo_db demo_running (TimerFires 1)).
  apply demo_running_reachable.
Defined.

(** X9.  A hover cycle on an interactive body, enter then exit, starts one
    bob loop and stops at most one: the number of live bob loops stays the
    same when the handle stored in [animationLoopIterval] is that of a live
    bob loop at the enter, and grows by one otherwise; either way the
    handle stored after the exit is that of a live bob loop. *)
Theorem hover_cycle_bob_loops h db st b :
  reachable h db st -> b ∈ handlers st ->
  let st2 := run_events h [HoverEnter b; HoverExit b] st in
  length (bob_loops st2) =
    (if stored_loop_live st then length (bob_loops st) else S (length (bob_loops st))) /\
  stored_loop_live st2 = true.
Proof.
  intros Hr Hb. cbv zeta.
  pose proof (reachable_fresh h db st Hr) as HF.
  set (st1 := cleared (animationLoopIterval st) st).
  assert (HF1 : timers_fresh st1).
  { unfold st1, cleared. destruct (animationLoopIterval st); [| done].
    eapply timers_fresh_intro; [reflexivity | reflexivity |]. by apply fresh_list_remove. }
  assert (Hcount : length (bob_loops st1) + (if stored_loop_live st then 1 else 0)
                   = length (bob_loops st)).
  { rewrite <- (bob_loops_cleared (animationLoopIterval st) st HF).
    fold st1. unfold stored_loop_live.
    destruct (animationLoopIterval st) as [id |]; [| done].
    destruct (lookup_timer id (timers st)) as [t |]; [| done]. by destruct (callback t). }
  assert (Hnew : next_timer st1 ∉ (timers st1).*1).
  { intros Hin. apply HF1 in Hin. lia. }
  assert (Hshape : exists st3 more,
            run_events h [HoverEnter b; HoverExit b] st = st3 /\
            timers st3 =
              timers st1 ++
                (next_timer st1,
                 {| kind := SetInterval; delay := 100;
                    callback := BobTick (celestialBodies st !! b) |}) :: more /\
            animationLoopIterval st3 = Some (next_timer st1) /\
            (more = [] \/ exists id, more = [(id, shrink_timer)])).
  { assert (Henter : timers (step h (HoverEnter b) st).1 = timers st1 /\
                     next_timer (step h (HoverEnter b) st).1 = next_timer st1 /\
                     handlers (step h (HoverEnter b) st).1 = handlers st /\
                     celestialBodies (step h (HoverEnter b) st).1 = celestialBodies st).
    { cbn [step]. rewrite bool_decide_eq_true_2 by done.
      unfold onHoverEnter. rewrite boxAnimationEnter_run. cbv zeta. fold st1.
      unfold st1, cleared.
      destruct (celestialBodies st !! "box_model_cloud");
        [destruct (celestialBodies st !! "only_gear") |];
        by destruct (animationLoopIterval st). }
    destruct Henter as (Et & En & Eh & Eb).
    unfold run_events. cbn [fold_left].
    generalize dependent (step h (HoverEnter b) st).1. intros st0 Et En Eh Eb.
    cbn [step]. rewrite bool_decide_eq_true_2 by (by rewrite Eh).
    rewrite onHoverExit_run. cbv zeta. unfold restarted_bob. rewrite Et, En, Eb.
    destruct (celestialBodies st !! "box_model_cloud");
      [destruct (celestialBodies st !! "only_gear") |];
      cbn [fst]; eexists _, _; (split; [reflexivity |]); state_simpl;
      (split; [reflexivity |]); (split; [reflexivity |]); eauto. }
  destruct Hshape as (st3 & more & -> & Ht & Ha & Hmore).
  split.
  - unfold bob_loops at 1. rewrite Ht, List.filter_app, length_app.
    fold (bob_loops st1). cbn [List.filter callback snd].
    assert (Hm : List.filter
                   (fun p : nat * Timer =>
                      match callback p.2 with BobTick _ => true | _ => false end) more = []).
    { by destruct Hmore as [-> | (id & ->)]. }
    rewrite Hm. simpl. destruct (stored_loop_live st); lia.
  - unfold stored_loop_live. rewrite Ha, Ht, lookup_timer_snoc by done. done.
Qed.

Lemma hover_cycle_bob_loops_witness :
  reachable quiet_host demo_db demo_running /\
  "box_model_cloud" ∈ handlers demo_running /\
  let st2 :=
    run_events quiet_host [HoverEnter "box_model_cloud"; HoverExit "box_model_cloud"]
      demo_running in
  length (bob_loops st2) =
    (if stored_loop_live demo_running then length (bob_loops demo_running)
     else S (length (bob_loops demo_running))) /\
  stored_loop_live st2 = true.
Proof.
  assert (Hb : "box_model_cloud" ∈ handlers demo_running).
  { vm_compute. set_solver. }
  split; [apply demo_running_reachable |]. split; [exact Hb |].
  exact (hover_cycle_bob_loops quiet_host demo_db demo_running "box_model_cloud"
           demo_running_reachable Hb).
Defined.

(** X10.  With distinct keys in the database, a body is registered once:
    the six handles registered under a name are never replaced, whatever
    events follow. *)
Theorem registered_once h db st evs b cb :
  NoDup (Object_keys db) -> reachable h db st ->
  celestialBodies st !! b = Some cb ->
  celestialBodies (run_events h evs st) !! b = Some cb.
Proof.
  intros Hd. revert st. induction evs as [| ev evs IH]; intros st Hr Hcb; simpl; [done |].
  apply IH; [by constructor |].
  apply step_registered;
    [by eapply reachable_Inv | by eapply reachable_pending_fresh | done].
Qed.

Lemma registered_once_witness :
  NoDup (Object_keys demo_db) /\
  reachable quiet_host demo_db
    (run_events quiet_host [LoadSettled 1] demo_started) /\
  celestialBodies (run_events quiet_host [LoadSettled 1] demo_started) !! "only_gear"
    = Some (CelestialBody.mk 5 6 8 9 15 7) /\
  celestialBodies
    (run_events quiet_host [LoadSettled 0; HoverEnter "only_gear"; LoadSettled 0]
       (run_events quiet_host [LoadSettled 1] demo_started)) !! "only_gear"
    = Some (CelestialBody.mk 5 6 8 9 15 7).
Proof.
  assert (Hd : NoDup (Object_keys demo_db)).
  { apply (bool_decide_unpack (NoDup (Object_keys demo_db))). vm_compute. exact I. }
  assert (Hr : reachable quiet_host demo_db
                 (run_events quiet_host [LoadSettled 1] demo_started)).
  { apply reachable_run_events. constructor. }
  assert (Hcb : celestialBodies (run_events quiet_host [LoadSettled 1] demo_started)
                  !! "only_gear" = Some (CelestialBody.mk 5 6 8 9 15 7)).
  { vm_compute. reflexivity. }
  split; [exact Hd |]. split; [exact Hr |]. split; [exact Hcb |].
  exact (registered_once quiet_host demo_db _
           [LoadSettled 0; HoverEnter "only_gear"; LoadSettled 0] "only_gear" _ Hd Hr Hcb).
Defined.

(** X11.  The scene gets built, in whatever order the loads settle: with
    a host that accepts every actor and answers every load with a prefab,
    after any events at all every key of the database is registered or has
    its construction suspended, and the constructions still suspended are
    as many as the entries of the database less the loads that have
    settled.  So once as many loads have settled as the database has
    entries, no construction is left suspended and every key is
    registered.  Any choice of an outstanding load at each turn is such a
    run. *)
Theorem scene_gets_built h db evs :
  obliging h ->
  let st := run_events h evs (started h db) in
  let n := settles h evs (started h db) in
  all_attempted db st /\
  length (awaiting st) + n = length db /\
  (n = length db ->
   awaiting st = [] /\
   forall k, k ∈ Object_keys db -> is_Some (celestialBodies st !! k)) /\
  forall ks, outstanding (length db) ks = true ->
    settles h (LoadSettled <$> ks) (started h db) = length ks.
Proof.
  intros Ho. cbv zeta. destruct (started_all_attempted h db Ho) as [Hall Hn].
  destruct (run_all_attempted h db evs (started h db) Ho) as [Hall1 Hn1];
    [eapply reachable_Inv; apply reachable_started | done |].
  rewrite Hn in Hn1. split; [done |]. split; [done |]. split.
  - intros Hfull.
    assert (Hw : awaiting (run_events h evs (started h db)) = []).
    { apply length_zero_iff_nil. lia. }
    split; [done |]. intros k Hk.
    destruct (Hall1 k Hk) as [H | (s & Hs & _)]; [done |].
    rewrite Hw in Hs. by apply elem_of_nil in Hs.
  - intros ks Hks. apply settles_outstanding. by rewrite Hn.
Qed.

Lemma scene_gets_built_witness :
  obliging quiet_host /\
  let evs := [LoadSettled 2; HoverEnter "box_model_cloud"; LoadSettled 0;
              TimerFires 0; LoadSettled 5; LoadSettled 0] in
  let st := run_events quiet_host evs (started quiet_host demo_db) in
  let n := settles quiet_host evs (started quiet_host demo_db) in
  all_attempted demo_db st /\
  length (awaiting st) + n = length demo_db /\
  (n = length demo_db ->
   awaiting st = [] /\
   forall k, k ∈ Object_keys demo_db -> is_Some (celestialBodies st !! k)) /\
  forall ks, outstanding (length demo_db) ks = true ->
    settles quiet_host (LoadSettled <$> ks) (started quiet_host demo_db) = length ks.
Proof.
  assert (Ho : obliging quiet_host).
  { split; [done |]. intros uri. by exists [("mesh", false); ("scene", true)], 
      {| asset_name := "scene"; source_uri := Some uri; is_prefab := true |}. }
  split; [exact Ho |]. exact (scene_gets_built quiet_host demo_db _ Ho).
Defined.

(** The loads of the sample scene settling last first, with a hover, a
    tick and a stray event in between: all three settle, the models are
    created in the order the loads settle, and the scene is complete. *)
Example scene_built_out_of_order :
  let evs := [LoadSettled 2; HoverEnter "box_model_cloud"; LoadSettled 0;
              TimerFires 0; LoadSettled 5; LoadSettled 0] in
  let st := run_events quiet_host evs (started quiet_host demo_db) in
  settles quiet_host evs (started quiet_host demo_db) = 3 /\
  outstanding 3 [2; 0; 0] = true /\
  awaiting st = [] /\
  (fun k => CelestialBody.model <$> celestialBodies st !! k) <$> Object_keys demo_db
    = [Some 16; Some 17; Some 15].
Proof. cbv zeta. evaluate. Qed.

(** X12.  [started] puts the start off by 1000 ms exactly when some launch
    argument of the process contains inspect or debug, and starts at once
    otherwise: joining the arguments makes no match and hides none.
    Either way the instance that goes live is the one [createSolarSystem]
    leaves. *)
Theorem started_delays_iff_debug h db execArgv st :
  match SolarSystem_started h db execArgv st with
  | Waiting delay st1 =>
      delay = 1000%Z /\ st1 = st /\
      exists a, a ∈ execArgv /\ (occurs_in "inspect" a \/ occurs_in "debug" a)
  | Live st1 =>
      st1 = createSolarSystem h db st /\
      forall a, a ∈ execArgv -> ~ occurs_in "inspect" a /\ ~ occurs_in "debug" a
  end /\
  delay_over h db (SolarSystem_started h db execArgv st) = Live (createSolarSystem h db st).
Proof.
  unfold SolarSystem_started. cbv zeta.
  rewrite !String_includes_join by done.
  destruct (existsb (fun a => String_includes a "inspect") execArgv) eqn:Hi;
    [| destruct (existsb (fun a => String_includes a "debug") execArgv) eqn:Hd];
    cbn [orb delay_over]; (split; [| done]).
  - apply existsb_exists in Hi as (a & Hin & Ha).
    repeat split. exists a. split; [by apply list_elem_of_In |].
    left. by apply String_includes_occurs.
  - apply existsb_exists in Hd as (a & Hin & Ha).
    repeat split. exists a. split; [by apply list_elem_of_In |].
    right. by apply String_includes_occurs.
  - split; [done |]. intros a Hin. apply list_elem_of_In in Hin.
    split; intros Hocc; apply String_includes_occurs in Hocc.
    + assert (existsb (fun a => String_includes a "inspect") execArgv = true); [| congruence].
      apply existsb_exists. eauto.
    + assert (existsb (fun a => String_includes a "debug") execArgv = true); [| congruence].
      apply existsb_exists. eauto.
Qed.

(** X20.  Nothing but failed constructions is ever logged, and a
    construction fails in three ways only: every line of the log, in every
    state after start-up, is the line of the [catch] clause for a key of
    the database, with the error of a host that refused an actor or the
    load, or the [TypeError] of a loaded file without a prefab.  No
    callback writes to the log. *)
Theorem log_only_failed_constructions h db evs :
  Forall (logged_failure db) (log (run_events h evs (started h db))).
Proof.
  assert (H : forall st, reachable h db st -> Forall (logged_failure db) (log st) ->
            Forall (logged_failure db) (log (run_events h evs st))).
  { induction evs as [| ev evs IH]; intros st Hr HL; simpl; [done |].
    apply IH; [by constructor |].
    apply step_log; [by eapply reachable_Inv | by apply reachable_Built | done]. }
  apply H; [constructor | apply started_log].
Qed.

(** * The variant: proofs *)

Section CopyProofs.

Import Copy.

Ltac copy_state_simpl :=
  cbn [celestialBodies assets loopInc animationLoopIterval actors timers next_timer
       awaiting hovers tweens log loads
       set_celestialBodies set_assets set_loopInc set_animationLoopIterval set_actors
       set_timers set_next_timer set_awaiting set_hovers set_tweens set_log set_loads
       update_actor fst snd].

Ltac copy_monad_simpl :=
  cbv beta iota zeta delta
    [bind ret throw gets modify deref clearInterval setInterval Animation_AnimateTo
     log_info];
  copy_state_simpl.

(** ** Node creation *)

Lemma copy_set_actors_id st : set_actors (actors st) st = st.
Proof. by destruct st. Qed.

Lemma copy_create_nodes_run h bodyName facts st :
  exists l1,
    (create_nodes h bodyName facts st).1 = set_actors l1 st /\
    actors_grow (actors st) l1 /\
    match (create_nodes h bodyName facts st).2 with
    | inl e =>
        exists n msg, n ∈ node_names bodyName /\
          Actor_Create_throws h n = Some msg /\ e = HostError msg
    | inr (i, p, lb, o0, o1) =>
        nodes_ok l1 i p lb o0 o1 /\
        forall n, n ∈ node_names bodyName -> Actor_Create_throws h n = None
    end.
Proof.
  unfold create_nodes, bind, Actor_Create, node_names. cbn [actor_name with_app_rotation
    with_local_position with_local_rotation new_actor].
  destruct (Actor_Create_throws h (bodyName +:+ "-inclination")) as [m1 |] eqn:E1.
  { exists (actors st). rewrite copy_set_actors_id. split; [done |].
    split; [apply actors_grow_refl |]. simpl. eexists _, _. split; [| done]. set_solver. }
  cbn [actors set_actors].
  destruct (Actor_Create_throws h (bodyName +:+ "-position")) as [m2 |] eqn:E2.
  { eexists. split; [reflexivity |]. split; [apply actors_grow_app |].
    simpl. eexists _, _. split; [| done]. set_solver. }
  cbn [actors set_actors].
  destruct (Actor_Create_throws h (bodyName +:+ "-label")) as [m3 |] eqn:E3.
  { eexists. split; [reflexivity |].
    split; [eauto using actors_grow_trans, actors_grow_app |].
    simpl. eexists _, _. split; [| done]. set_solver. }
  cbn [actors set_actors].
  destruct (Actor_Create_throws h (bodyName +:+ "-obliquity0")) as [m4 |] eqn:E4.
  { eexists. split; [reflexivity |].
    split; [eauto using actors_grow_trans, actors_grow_app |].
    simpl. eexists _, _. split; [| done]. set_solver. }
  cbn [actors set_actors].
  destruct (Actor_Create_throws h (bodyName +:+ "-obliquity1")) as [m5 |] eqn:E5.
  { eexists. split; [reflexivity |].
    split; [eauto 6 using actors_grow_trans, actors_grow_app |].
    simpl. eexists _, _. split; [| done]. set_solver. }
  cbn [actors set_actors ret fst snd].
  eexists. split; [reflexivity |].
  split; [eauto 7 using actors_grow_trans, actors_grow_app |].
  split.
  - constructor.
    + rewrite !length_app. simpl. lia.
    + parent_of_tac.
    + parent_of_tac.
    + parent_of_tac.
    + parent_of_tac.
    + parent_of_tac.
  - intros n Hn. set_unfold in Hn.
    destruct Hn as [-> | [-> | [-> | [-> | [-> | []]]]]]; assumption.
Qed.

(** ** What [createBody] and its continuation do *)

Lemma copy_createBody_finish_run h bodyName facts i p lb o0 o1 a st :
  createBody_finish h bodyName facts i p lb o0 o1 a st =
    match Actor_Create_throws h (bodyName +:+ "-body") with
    | Some msg => (st, inl (HostError msg))
    | None => (finished h bodyName facts i p lb o0 o1 a st, inr tt)
    end.
Proof.
  unfold createBody_finish, bind at 1, Actor_Create. cbn [actor_name model_actor].
  destruct (Actor_Create_throws h (bodyName +:+ "-body")); [done |].
  unfold animationPlayPause, finished. copy_monad_simpl. by rewrite lookup_insert_eq.
Qed.

Lemma copy_createBody_unfold h db bodyName facts st :
  db_get db bodyName = Some facts ->
  createBody h db bodyName st =
    match create_nodes h bodyName facts st with
    | (st1, inl e) => (createBody_catch bodyName e st1, Resolved)
    | (st1, inr (i, p, lb, o0, o1)) =>
        match find_prefab (model_uri bodyName) (assets st1) with
        | Some a =>
            match createBody_finish h bodyName facts i p lb o0 o1 a st1 with
            | (st2, inl e) => (createBody_catch bodyName e st2, Resolved)
            | (st2, inr _) => (st2, Resolved)
            end
        | None =>
            (set_awaiting (awaiting st1 ++ [suspension bodyName facts i p lb o0 o1])
               (set_loads (loads st1 ++ [model_uri bodyName]) st1),
             Pending)
        end
    end.
Proof.
  intros Hdb. unfold createBody. rewrite Hdb. unfold createBody_try, bind at 1.
  destruct (create_nodes h bodyName facts st) as [st1 [e | [[[[i p] lb] o0] o1]]]; [done |].
  unfold bind at 1, gets at 1.
  destruct (find_prefab _ _) as [a |].
  - unfold bind at 1.
    by destruct (createBody_finish _ _ _ _ _ _ _ _ _ _) as [st2 [e | []]].
  - reflexivity.
Qed.

(** The ways a [createBody] call on a known body can go up to its first
    suspension point. *)
Lemma copy_createBody_cases h db bodyName facts st :
  db_get db bodyName = Some facts ->
  exists l1, actors_grow (actors st) l1 /\
    ((exists e, createBody h db bodyName st =
                  (createBody_catch bodyName e (set_actors l1 st), Resolved)) \/
     (exists i p lb o0 o1,
        nodes_ok l1 i p lb o0 o1 /\
        match find_prefab (model_uri bodyName) (assets st) with
        | Some a =>
            Actor_Create_throws h (bodyName +:+ "-body") = None /\
            createBody h db bodyName st =
              (finished h bodyName facts i p lb o0 o1 a (set_actors l1 st), Resolved)
        | None =>
            createBody h db bodyName st =
              (set_awaiting (awaiting st ++ [suspension bodyName facts i p lb o0 o1])
                 (set_loads (loads st ++ [model_uri bodyName]) (set_actors l1 st)),
               Pending)
        end)).
Proof.
  intros Hdb. rewrite (copy_createBody_unfold h db bodyName facts st Hdb).
  destruct (copy_create_nodes_run h bodyName facts st) as (l1 & Hst & Hg & Hr).
  exists l1. split; [done |].
  destruct (create_nodes h bodyName facts st) as [st1 [e | [[[[i p] lb] o0] o1]]];
    simpl in Hst, Hr; subst st1.
  { left. by exists e. }
  destruct Hr as (HN & _). copy_state_simpl.
  destruct (find_prefab (model_uri bodyName) (assets st)) as [a |] eqn:Hfind.
  - rewrite copy_createBody_finish_run.
    destruct (Actor_Create_throws h (bodyName +:+ "-body")) as [msg |] eqn:Hm.
    + left. by eexists.
    + right. by exists i, p, lb, o0, o1.
  - right. by exists i, p, lb, o0, o1.
Qed.

Lemma copy_createBody_resume_unfold h s st :
  createBody_resume h s st =
    match loadGltf_reply h (s_uri s) with
    | inl msg => (createBody_catch (s_bodyName s) (HostError msg) st, Resolved)
    | inr units =>
        let st1 := set_assets (assets st ++ gltf_assets (s_uri s) units) st in
        match List.find is_prefab (gltf_assets (s_uri s) units) with
        | None => (createBody_catch (s_bodyName s) (undefined_error "prefab") st1, Resolved)
        | Some a =>
            match Actor_Create_throws h (s_bodyName s +:+ "-body") with
            | Some msg => (createBody_catch (s_bodyName s) (HostError msg) st1, Resolved)
            | None =>
                (finished h (s_bodyName s) (s_facts s) (s_inclination s) (s_position s)
                   (s_label s) (s_obliquity0 s) (s_obliquity1 s) a st1, Resolved)
            end
        end
    end.
Proof.
  unfold createBody_resume, createBody_continue.
  destruct (loadGltf_reply h (s_uri s)) as [msg | units]; [done |].
  cbv zeta. unfold bind at 1. cbn [modify fst]. unfold bind at 1.
  destruct (List.find is_prefab _) as [a |]; cbn [deref ret throw]; [| done].
  rewrite copy_createBody_finish_run.
  by destruct (Actor_Create_throws h (s_bodyName s +:+ "-body")).
Qed.

(** The ways the continuation after the load can go. *)
Lemma copy_createBody_resume_cases h s st :
  (exists e st1,
     (st1 = st \/ exists more, st1 = set_assets (assets st ++ more) st) /\
     createBody_resume h s st = (createBody_catch (s_bodyName s) e st1, Resolved)) \/
  (exists more a,
     Actor_Create_throws h (s_bodyName s +:+ "-body") = None /\
     is_prefab a = true /\ source_uri a = Some (s_uri s) /\
     createBody_resume h s st =
       (finished h (s_bodyName s) (s_facts s) (s_inclination s) (s_position s)
          (s_label s) (s_obliquity0 s) (s_obliquity1 s) a
          (set_assets (assets st ++ more) st), Resolved)).
Proof.
  rewrite copy_createBody_resume_unfold.
  destruct (loadGltf_reply h (s_uri s)) as [msg | units]; [left; eauto 6 |].
  cbv zeta. destruct (List.find is_prefab _) as [a |] eqn:Hfind.
  - destruct (Actor_Create_throws h (s_bodyName s +:+ "-body")) as [msg |] eqn:Hm.
    + left. eexists _, _. split; [| reflexivity]. right. by eexists.
    + right. apply find_gltf_prefab in Hfind as [Hp Hu]. by eexists _, a.
  - left. eexists _, _. split; [| reflexivity]. right. by eexists.
Qed.

(** ** What the closures do *)

Lemma copy_loop_tick_run cb st :
  let c := loopInc st in
  loop_tick (Some cb) st =
    (set_loopInc
       (if (c <? 5)%Z then if (c + 1 =? 5)%Z then 10%Z else (c + 1)%Z
        else if (c - 1 =? 5)%Z then 0%Z else (c - 1)%Z)
       (update_actor (CelestialBody.label cb)
          (with_position_y
             (if (c <? 5)%Z then fun y => (y + 0.01)%float else fun y => (y - 0.01)%float))
          st),
     inr tt).
Proof.
  unfold loop_tick. copy_monad_simpl.
  destruct (loopInc st <? 5)%Z; copy_monad_simpl;
    [destruct (loopInc st + 1 =? 5)%Z | destruct (loopInc st - 1 =? 5)%Z];
    reflexivity.
Qed.

Lemma copy_onHoverEnter_run c st :
  onHoverEnter c st =
    (set_tweens (tweens st ++ [AnimateTo (h_position c) (LocalPositionY 0.05) 1])
       (match animationLoopIterval st with
        | Some id => set_timers (remove_timer id (timers st)) st
        | None => st
        end), inr tt).
Proof. unfold onHoverEnter. copy_monad_simpl. by destruct (animationLoopIterval st). Qed.

Lemma copy_onHoverExit_run c st :
  onHoverExit c st =
    (set_tweens (tweens st ++ [AnimateTo (h_position c) (LocalPositionY 0) 1])
       (set_animationLoopIterval (Some (next_timer st))
          (set_next_timer (S (next_timer st))
             (set_timers
                (timers st ++
                   [(next_timer st,
                     {| delay := 100;
                        celestialBody := celestialBodies st !! h_bodyName c |})]) st))),
     inr tt).
Proof. reflexivity. Qed.

(** ** The invariant of the variant *)

Lemma copy_lookup_hover_elem a l c : lookup_hover a l = Some c -> (a, c) ∈ l.
Proof.
  induction l as [| [a1 c1] l IH]; simpl; [done |].
  case_bool_decide as Ha.
  - intros [= ->]. subst a1. apply elem_of_cons. by left.
  - intros H. apply elem_of_cons. right. auto.
Qed.

Lemma copy_lookup_hover_app a l more c :
  lookup_hover a l = Some c -> lookup_hover a (l ++ more) = Some c.
Proof.
  induction l as [| [a1 c1] l IH]; simpl; [done |]. by case_bool_decide.
Qed.

Lemma copy_lookup_hover_fresh a l c :
  (forall c1, (a, c1) ∉ l) -> lookup_hover a (l ++ [(a, c)]) = Some c.
Proof.
  induction l as [| [a1 c1] l IH]; intros Hn; simpl.
  - by rewrite bool_decide_eq_true_2.
  - case_bool_decide as Ha.
    + subst a1. destruct (Hn c1). apply elem_of_cons. by left.
    + apply IH. intros c2 Hin. apply (Hn c2). apply elem_of_cons. by right.
Qed.

Lemma copy_lookup_timer_elem id l t : lookup_timer id l = Some t -> (id, t) ∈ l.
Proof.
  induction l as [| [i t1] l IH]; simpl; [done |].
  case_bool_decide as Hi.
  - intros [= ->]. subst i. apply elem_of_cons. by left.
  - intros H. apply elem_of_cons. right. auto.
Qed.

Lemma copy_hover_ok_grow l l1 a c : actors_grow l l1 -> hover_ok l a c -> hover_ok l1 a c.
Proof. intros Hg (o0 & o1 & H1 & H2 & H3). exists o0, o1. auto. Qed.

(** A change that registers nothing and starts nothing keeps the
    invariant. *)
Lemma copy_Inv_frame st st1 :
  Inv st -> actors_grow (actors st) (actors st1) ->
  celestialBodies st1 = celestialBodies st ->
  (forall s, s ∈ awaiting st1 -> s ∈ awaiting st) ->
  (forall p, p ∈ timers st1 -> p ∈ timers st) ->
  hovers st1 = hovers st -> (0 <= loopInc st1 <= 10)%Z ->
  Inv st1.
Proof.
  intros [I1 I2 I3 I4 I5] Hg Hb Hw Ht Hh Hl. split.
  - intros n cb. rewrite Hb, Hh. intros Hcb. destruct (I1 n cb Hcb) as [Hc Hv].
    split; [by eapply chain_ok_grow | done].
  - intros s Hs. eapply nodes_ok_grow; [done |]. auto.
  - intros id t Hin. destruct (I3 id t (Ht _ Hin)) as (Hd & cb & Hcb & Hc).
    split; [done |]. exists cb. split; [done |]. by eapply chain_ok_grow.
  - intros a c. rewrite Hh, Hb. intros Hin. destruct (I4 a c Hin) as (Ha & Hok & Hs).
    split; [by eapply actors_grow_length |]. split; [by eapply copy_hover_ok_grow | done].
  - done.
Qed.

Lemma copy_Inv_set_actors st l1 :
  Inv st -> actors_grow (actors st) l1 -> Inv (set_actors l1 st).
Proof. intros HI Hg. eapply copy_Inv_frame; eauto. apply (inv_loopInc st HI). Qed.

Lemma copy_Inv_catch bodyName e st : Inv st -> Inv (createBody_catch bodyName e st).
Proof.
  intros HI. eapply copy_Inv_frame; eauto; [apply actors_grow_refl |].
  apply (inv_loopInc st HI).
Qed.

(** Starting a bob loop over a registered body keeps the invariant. *)
Lemma copy_Inv_add_timer st cb v :
  Inv st -> chain_ok (actors st) cb ->
  Inv (set_animationLoopIterval v
         (set_next_timer (S (next_timer st))
            (set_timers
               (timers st ++ [(next_timer st, {| delay := 100; celestialBody := Some cb |})])
               st))).
Proof.
  intros [I1 I2 I3 I4 I5] Hc. split; try done.
  intros id t. copy_state_simpl. rewrite elem_of_app, list_elem_of_singleton.
  intros [Hin | [= -> ->]]; [by apply (I3 id) |]. split; [done |]. by exists cb.
Qed.

Lemma copy_Inv_finished h bodyName facts i p lb o0 o1 a st :
  Inv st -> nodes_ok (actors st) i p lb o0 o1 ->
  Inv (finished h bodyName facts i p lb o0 o1 a st).
Proof.
  intros HI HN. pose proof HI as [I1 I2 I3 I4 I5].
  set (cb := CelestialBody.mk i p o0 o1 (length (actors st)) lb).
  set (l1 := alter (with_text (name facts)) lb
               (alter with_button (length (actors st))
                  (actors st ++ [model_actor h bodyName facts o1 a]))).
  assert (Hg1 : actors_grow (actors st ++ [model_actor h bodyName facts o1 a]) l1).
  { unfold l1. eapply actors_grow_trans; apply actors_grow_alter; done. }
  assert (Hg : actors_grow (actors st) l1).
  { eapply actors_grow_trans; [apply actors_grow_app | exact Hg1]. }
  assert (Hc : chain_ok l1 cb).
  { eapply chain_ok_grow; [exact Hg1 |]. by apply chain_ok_model. }
  assert (Hlen : length l1 = S (length (actors st))).
  { unfold l1. rewrite !length_alter, length_app. simpl. lia. }
  assert (Hfresh : forall c1, (length (actors st), c1) ∉ hovers st).
  { intros c1 Hin. destruct (I4 _ _ Hin) as (Hlt & _). lia. }
  set (st2 := set_celestialBodies (<[bodyName := cb]> (celestialBodies st))
                (set_actors l1
                   (set_hovers
                      (hovers st ++
                         [(length (actors st),
                           {| h_bodyName := bodyName; h_position := p |})]) st))).
  change (finished h bodyName facts i p lb o0 o1 a st)
    with (set_animationLoopIterval (Some (next_timer st2))
            (set_next_timer (S (next_timer st2))
               (set_timers
                  (timers st2 ++
                     [(next_timer st2, {| delay := 100; celestialBody := Some cb |})])
                  st2))).
  apply copy_Inv_add_timer; [| done].
  split; unfold st2; copy_state_simpl.
  - intros n cb1. destruct (decide (bodyName = n)) as [<- | Hne].
    + rewrite lookup_insert_eq. intros [= <-]. split; [done |].
      by apply copy_lookup_hover_fresh.
    + rewrite lookup_insert_ne by done. intros Hcb. destruct (I1 n cb1 Hcb) as [Hc1 Hv].
      split; [by eapply chain_ok_grow | by apply copy_lookup_hover_app].
  - intros s Hs. eapply nodes_ok_grow; [exact Hg |]. auto.
  - intros id t Hin. destruct (I3 id t Hin) as (Hd & cb1 & Hcb1 & Hc1).
    split; [done |]. exists cb1. split; [done |]. by eapply chain_ok_grow.
  - intros a1 c. rewrite elem_of_app, list_elem_of_singleton. intros [Hin | [= -> ->]].
    + destruct (I4 a1 c Hin) as (Ha & Hok & Hs).
      split; [lia |]. split; [by eapply copy_hover_ok_grow |].
      destruct (decide (bodyName = h_bodyName c)) as [<- | Hne].
      * rewrite lookup_insert_eq. eauto.
      * by rewrite lookup_insert_ne.
    + split; [lia |]. split.
      * destruct Hc as [_ _ _ _ C4 C5 C6]. exists o0, o1. by repeat split.
      * simpl. rewrite lookup_insert_eq. eauto.
  - done.
Qed.

Section CopyPreservation.

Variable h : Host.

Lemma copy_createBody_Inv db bodyName st : Inv st -> Inv (createBody h db bodyName st).1.
Proof.
  intros HI. destruct (db_get db bodyName) as [facts |] eqn:Hdb.
  2: { unfold createBody. by rewrite Hdb. }
  destruct (copy_createBody_cases h db bodyName facts st Hdb)
    as (l1 & Hg & [(e & ->) | (i & p & lb & o0 & o1 & HN & H)]).
  { cbn [fst]. by apply copy_Inv_catch, copy_Inv_set_actors. }
  destruct (find_prefab _ _) as [a |].
  - destruct H as (_ & ->). cbn [fst].
    apply copy_Inv_finished; [by apply copy_Inv_set_actors | done].
  - rewrite H. cbn [fst].
    pose proof (copy_Inv_set_actors st l1 HI Hg) as [I1 I2 I3 I4 I5].
    split; try done. intros s. copy_state_simpl.
    rewrite elem_of_app, list_elem_of_singleton. intros [Hs | ->]; [by apply I2 | done].
Qed.

Lemma copy_createSolarSystem_Inv db st : Inv st -> Inv (createSolarSystem h db st).
Proof.
  unfold createSolarSystem. generalize (Object_keys db) as keys. intros keys.
  revert st. induction keys as [| k keys IH]; intros st HI; simpl; [done |].
  by apply IH, copy_createBody_Inv.
Qed.

Lemma copy_Inv_init : Inv init_state.
Proof.
  split; simpl.
  - intros n cb H. by rewrite lookup_empty in H.
  - intros s H. by apply elem_of_nil in H.
  - intros id t H. by apply elem_of_nil in H.
  - intros a c H. by apply elem_of_nil in H.
  - lia.
Qed.

Lemma copy_createBody_resume_Inv s st :
  Inv st ->
  nodes_ok (actors st) (s_inclination s) (s_position s) (s_label s)
    (s_obliquity0 s) (s_obliquity1 s) ->
  Inv (createBody_resume h s st).1.
Proof.
  intros HI HN.
  assert (Hadd : forall more, Inv (set_assets (assets st ++ more) st)).
  { intros more. eapply copy_Inv_frame; eauto; [apply actors_grow_refl |].
    apply (inv_loopInc st HI). }
  destruct (copy_createBody_resume_cases h s st)
    as [(e & st1 & Hst1 & ->) | (more & a & _ & _ & _ & ->)]; cbn [fst].
  - apply copy_Inv_catch. destruct Hst1 as [-> | (more & ->)]; [done | apply Hadd].
  - by apply copy_Inv_finished.
Qed.

Lemma copy_step_Inv ev st : Inv st -> Inv (step h ev st).1.
Proof.
  intros HI. destruct ev as [k | id | a | a]; cbn [step].
  - destruct (awaiting st !! k) as [s |] eqn:Hk; [| done]. cbn [fst].
    apply copy_createBody_resume_Inv.
    + eapply copy_Inv_frame; eauto; [apply actors_grow_refl | | apply (inv_loopInc st HI)].
      intros s1 Hs1. simpl in Hs1. by eapply list_elem_of_delete_inv.
    + simpl. apply (inv_awaiting st HI). apply list_elem_of_lookup. eauto.
  - destruct (lookup_timer id (timers st)) as [t |] eqn:Hid; [| done].
    destruct (inv_timers st HI id t (copy_lookup_timer_elem _ _ _ Hid))
      as (_ & cb & -> & _).
    rewrite copy_loop_tick_run. cbn [fst].
    eapply copy_Inv_frame; eauto.
    + copy_state_simpl. by apply actors_grow_alter.
    + copy_state_simpl. pose proof (inv_loopInc st HI).
      destruct (loopInc st <? 5)%Z eqn:E;
        [destruct (loopInc st + 1 =? 5)%Z | destruct (loopInc st - 1 =? 5)%Z]; lia.
  - destruct (lookup_hover a (hovers st)) as [c |]; [| done].
    rewrite copy_onHoverEnter_run. cbn [fst].
    eapply copy_Inv_frame; eauto.
    + destruct (animationLoopIterval st); apply actors_grow_refl.
    + by destruct (animationLoopIterval st).
    + by destruct (animationLoopIterval st).
    + destruct (animationLoopIterval st); [| done]. copy_state_simpl.
      intros p Hp. unfold remove_timer in Hp. by apply list_elem_of_filter in Hp as [_ Hp].
    + by destruct (animationLoopIterval st).
    + destruct (animationLoopIterval st); apply (inv_loopInc st HI).
  - destruct (lookup_hover a (hovers st)) as [c |] eqn:Ha; [| done].
    rewrite copy_onHoverExit_run. cbn [fst].
    destruct (inv_hovers st HI a c (copy_lookup_hover_elem _ _ _ Ha)) as (_ & _ & [cb Hcb]).
    rewrite Hcb.
    destruct (inv_bodies st HI _ cb Hcb) as [Hc _].
    pose proof (copy_Inv_add_timer st cb (Some (next_timer st)) HI Hc) as HI1.
    eapply copy_Inv_frame; [exact HI1 | apply actors_grow_refl | ..]; try done.
    apply (inv_loopInc st HI).
Qed.

Lemma copy_reachable_Inv db st : reachable h db st -> Inv st.
Proof.
  induction 1 as [| st ev _ IH].
  - apply copy_createSolarSystem_Inv, copy_Inv_init.
  - by apply copy_step_Inv.
Qed.

End CopyPreservation.

(** ** What is known of the constructions of the variant *)

Lemma copy_actors_kept_refl l : actors_kept l l.
Proof. intros i a H. exists a. split; [done | apply keeps_refl]. Qed.

Lemma copy_actors_kept_trans l l1 l2 :
  actors_kept l l1 -> actors_kept l1 l2 -> actors_kept l l2.
Proof.
  intros H1 H2 i a Ha. destruct (H1 i a Ha) as (a1 & Ha1 & Hk1).
  destruct (H2 i a1 Ha1) as (a2 & Ha2 & Hk2). exists a2. split; [done |].
  by eapply keeps_trans.
Qed.

Lemma copy_actors_kept_app l new : actors_kept l (l ++ new).
Proof.
  intros i a H. exists a. rewrite (lookup_app_l_Some _ _ _ _ H).
  split; [done | apply keeps_refl].
Qed.

Lemma copy_actors_kept_alter l i f :
  (forall a, keeps a (f a)) -> actors_kept l (alter f i l).
Proof.
  intros Hf j a H. destruct (decide (i = j)) as [-> |].
  - exists (f a). by rewrite list_lookup_alter_eq, H.
  - exists a. rewrite list_lookup_alter_ne by done. split; [done | apply keeps_refl].
Qed.

(** The actor store of a finished body: the text of the label is set and
    the model, with its button behaviour, is appended. *)
Lemma copy_finished_actors h bodyName facts i p lb o0 o1 a st :
  lb < length (actors st) ->
  actors (finished h bodyName facts i p lb o0 o1 a st) =
    alter (with_text (name facts)) lb (actors st) ++
      [with_button (model_actor h bodyName facts o1 a)].
Proof.
  intros Hlb. unfold finished. copy_state_simpl.
  rewrite alter_app_r_alt by lia. rewrite Nat.sub_diag. simpl.
  by rewrite alter_app_l.
Qed.

Lemma copy_model_as_built_keeps h b facts m m1 :
  keeps m m1 -> model_as_built h b facts m -> model_as_built h b facts m1.
Proof.
  intros (K1 & K2 & K3 & K4 & K5 & K6 & K7 & K8 & K9 & K10 & K11)
         (H1 & H2 & H3 & H4 & H5 & H6 & p & H7 & H8 & H9).
  repeat split; try congruence; [by auto |]. exists p. repeat split; congruence.
Qed.

Lemma copy_Built_frame h db st st1 :
  Built h db st -> actors_kept (actors st) (actors st1) ->
  celestialBodies st1 = celestialBodies st ->
  (forall s, s ∈ awaiting st1 -> s ∈ awaiting st) ->
  Built h db st1.
Proof.
  intros [Hw Hb] Hk Eb Ew. split; [by auto |].
  intros b cb. rewrite Eb. intros Hcb.
  destruct (Hb b cb Hcb) as (facts & m & Hdb & Hm & Hab).
  destruct (Hk _ _ Hm) as (m1 & Hm1 & Hkeeps).
  exists facts, m1. split; [done |]. split; [done |].
  by eapply copy_model_as_built_keeps.
Qed.

Lemma copy_Built_finished h db bodyName facts i p lb o0 o1 a st :
  Built h db st -> db_get db bodyName = Some facts -> lb < length (actors st) ->
  is_prefab a = true -> source_uri a = Some (model_uri bodyName) ->
  Built h db (finished h bodyName facts i p lb o0 o1 a st).
Proof.
  intros [Hw Hb] Hdb Hlb Hp Hu.
  pose proof (copy_finished_actors h bodyName facts i p lb o0 o1 a st Hlb) as Ha.
  assert (Hk : actors_kept (actors st) (actors (finished h bodyName facts i p lb o0 o1 a st))).
  { rewrite Ha. eapply copy_actors_kept_trans; [| apply copy_actors_kept_app].
    apply copy_actors_kept_alter. intros x. by repeat split. }
  split; [exact Hw |].
  intros b cb Hcb. change (celestialBodies (finished h bodyName facts i p lb o0 o1 a st))
    with (<[bodyName := CelestialBody.mk i p o0 o1 (length (actors st)) lb]>
            (celestialBodies st)) in Hcb.
  destruct (decide (bodyName = b)) as [<- | Hne].
  - rewrite lookup_insert_eq in Hcb. injection Hcb as <-.
    exists facts, (with_button (model_actor h bodyName facts o1 a)).
    split; [done |]. split.
    + rewrite Ha. cbn [CelestialBody.model].
      rewrite lookup_app_r by (rewrite length_alter; lia).
      by rewrite length_alter, Nat.sub_diag.
    + repeat split. by exists a.
  - rewrite lookup_insert_ne in Hcb by done.
    destruct (Hb b cb Hcb) as (facts1 & m & Hdb1 & Hm & Hab).
    destruct (Hk _ _ Hm) as (m1 & Hm1 & Hkeeps).
    exists facts1, m1. split; [done |]. split; [done |].
    by eapply copy_model_as_built_keeps.
Qed.

Lemma copy_Built_init h db : Built h db init_state.
Proof.
  split; simpl.
  - intros s Hs. by apply elem_of_nil in Hs.
  - intros b cb Hcb. by rewrite lookup_empty in Hcb.
Qed.

(** [create_nodes] only appends. *)
Lemma copy_create_nodes_appends h bodyName facts st :
  exists new, (create_nodes h bodyName facts st).1 = set_actors (actors st ++ new) st.
Proof.
  unfold create_nodes, bind, Actor_Create.
  cbn [actor_name with_app_rotation with_local_position with_local_rotation new_actor].
  destruct (Actor_Create_throws h (bodyName +:+ "-inclination")).
  { exists []. by rewrite app_nil_r, copy_set_actors_id. }
  cbn [actors set_actors].
  destruct (Actor_Create_throws h (bodyName +:+ "-position")).
  { by eexists [_]. }
  cbn [actors set_actors].
  destruct (Actor_Create_throws h (bodyName +:+ "-label")).
  { eexists [_; _]. by rewrite <- !app_assoc. }
  cbn [actors set_actors].
  destruct (Actor_Create_throws h (bodyName +:+ "-obliquity0")).
  { eexists [_; _; _]. by rewrite <- !app_assoc. }
  cbn [actors set_actors].
  destruct (Actor_Create_throws h (bodyName +:+ "-obliquity1")).
  { eexists [_; _; _; _]. by rewrite <- !app_assoc. }
  cbn [actors set_actors ret fst]. eexists [_; _; _; _; _]. by rewrite <- !app_assoc.
Qed.

Lemma copy_createBody_Built h db bodyName st :
  Built h db st -> Built h db (createBody h db bodyName st).1.
Proof.
  intros HB. destruct (db_get db bodyName) as [facts |] eqn:Hdb.
  2: { unfold createBody. by rewrite Hdb. }
  rewrite (copy_createBody_unfold h db bodyName facts st Hdb).
  destruct (copy_create_nodes_appends h bodyName facts st) as (new & Hst).
  pose proof (copy_create_nodes_run h bodyName facts st) as (l1 & Hst1 & _ & Hr).
  assert (HB0 : Built h db (set_actors (actors st ++ new) st)).
  { eapply copy_Built_frame; [exact HB | apply copy_actors_kept_app | done | done]. }
  destruct (create_nodes h bodyName facts st) as [st1 [e | [[[[i p] lb] o0] o1]]];
    simpl in Hst, Hst1, Hr; subst st1.
  { cbn [fst]. eapply copy_Built_frame; [exact HB0 | | done | done].
    apply copy_actors_kept_refl. }
  destruct Hr as ([(_ & _ & Hlb & Ho0 & Hlt) _ _ _ _ _] & _).
  assert (Hl1 : l1 = actors st ++ new).
  { apply (f_equal actors) in Hst1. exact (eq_sym Hst1). }
  subst l1. copy_state_simpl.
  destruct (find_prefab (model_uri bodyName) (assets st)) as [a |] eqn:Hfind.
  - rewrite copy_createBody_finish_run.
    destruct (Actor_Create_throws h (bodyName +:+ "-body")) as [msg |]; cbn [fst].
    + eapply copy_Built_frame; [exact HB0 | | done | done]. apply copy_actors_kept_refl.
    + apply find_prefab_Some in Hfind as [Hp Hu].
      apply copy_Built_finished; try done. simpl. lia.
  - cbn [fst]. destruct HB0 as [Hw Hb]. split; [| exact Hb].
    intros s. copy_state_simpl. rewrite elem_of_app, list_elem_of_singleton.
    intros [Hs | ->]; [by apply Hw | done].
Qed.

Lemma copy_createSolarSystem_Built h db st :
  Built h db st -> Built h db (createSolarSystem h db st).
Proof.
  unfold createSolarSystem. generalize (Object_keys db) as keys. intros keys.
  revert st. induction keys as [| k keys IH]; intros st HB; simpl; [done |].
  by apply IH, copy_createBody_Built.
Qed.

Lemma copy_step_Built h db ev st :
  Inv st -> Built h db st -> Built h db (step h ev st).1.
Proof.
  intros HI HB. destruct ev as [k | id | a | a]; cbn [step].
  - destruct (awaiting st !! k) as [s |] eqn:Hk; [| done]. cbn [fst].
    assert (Hs : s ∈ awaiting st) by (apply list_elem_of_lookup; eauto).
    destruct (bt_awaiting h db st HB s Hs) as [Hf Hu].
    destruct (inv_awaiting st HI s Hs) as [(_ & _ & Hlb & Ho0 & Hlt) _ _ _ _ _].
    assert (HB0 : forall st1,
              actors st1 = actors st -> celestialBodies st1 = celestialBodies st ->
              (forall s1, s1 ∈ awaiting st1 -> s1 ∈ delete k (awaiting st)) ->
              Built h db st1).
    { intros st1 Ea Eb Ew. eapply copy_Built_frame; [exact HB | | done |].
      - rewrite Ea. apply copy_actors_kept_refl.
      - intros s1 Hs1. eapply list_elem_of_delete_inv. by apply Ew. }
    destruct (copy_createBody_resume_cases h s (set_awaiting (delete k (awaiting st)) st))
      as [(e & st1 & Hst1 & ->) | (more & a & _ & Hp & Hsrc & ->)]; cbn [fst].
    + apply HB0; by destruct Hst1 as [-> | (more & ->)].
    + apply copy_Built_finished;
        [by apply HB0 | exact Hf | simpl; lia | exact Hp | congruence].
  - destruct (lookup_timer id (timers st)) as [t |] eqn:Hid; [| done].
    destruct (inv_timers st HI id t (copy_lookup_timer_elem _ _ _ Hid))
      as (_ & cb & -> & _).
    rewrite copy_loop_tick_run. cbn [fst].
    eapply copy_Built_frame; [exact HB | | done | done].
    copy_state_simpl. apply copy_actors_kept_alter. intros x. by repeat split.
  - destruct (lookup_hover a (hovers st)) as [c |]; [| done].
    rewrite copy_onHoverEnter_run. cbn [fst].
    eapply copy_Built_frame; [exact HB | | |];
      destruct (animationLoopIterval st); try done; apply copy_actors_kept_refl.
  - destruct (lookup_hover a (hovers st)) as [c |]; [| done].
    rewrite copy_onHoverExit_run. cbn [fst].
    eapply copy_Built_frame; [exact HB | apply copy_actors_kept_refl | done | done].
Qed.

Lemma copy_reachable_Built h db st : reachable h db st -> Built h db st.
Proof.
  induction 1 as [| st ev Hr IH].
  - apply copy_createSolarSystem_Built, copy_Built_init.
  - apply copy_step_Built; [by eapply copy_reachable_Inv | done].
Qed.

(** ** The variant builds its scene *)

Lemma copy_createBody_obliging h db bodyName facts st :
  obliging h -> db_get db bodyName = Some facts -> assets st = [] ->
  exists l1 i p lb o0 o1,
    createBody h db bodyName st =
      (set_awaiting (awaiting st ++ [suspension bodyName facts i p lb o0 o1])
         (set_loads (loads st ++ [model_uri bodyName]) (set_actors l1 st)),
       Pending).
Proof.
  intros [Ha _] Hdb Hassets. rewrite (copy_createBody_unfold h db bodyName facts st Hdb).
  pose proof (copy_create_nodes_run h bodyName facts st) as (l1 & Hst1 & _ & Hr).
  destruct (create_nodes h bodyName facts st) as [st1 [e | [[[[i p] lb] o0] o1]]];
    simpl in Hst1, Hr; subst st1.
  { destruct Hr as (n & msg & _ & Hn & _). by rewrite Ha in Hn. }
  copy_state_simpl. rewrite Hassets. cbn [find_prefab prefabs List.filter List.find].
  by exists l1, i, p, lb, o0, o1.
Qed.

Lemma copy_createSolarSystem_obliging h db keys st :
  obliging h -> (forall k, k ∈ keys -> is_Some (db_get db k)) -> assets st = [] ->
  let st1 := fold_left (fun s bodyName => (createBody h db bodyName s).1) keys st in
  assets st1 = [] /\ timers st1 = timers st /\ hovers st1 = hovers st /\
  celestialBodies st1 = celestialBodies st /\
  s_bodyName <$> awaiting st1 = (s_bodyName <$> awaiting st) ++ keys.
Proof.
  intros Ho. revert st. induction keys as [| k keys IH]; intros st Hk Hassets; cbv zeta.
  { simpl. by rewrite app_nil_r. }
  destruct (Hk k) as [facts Hdb]; [apply elem_of_cons; by left |].
  destruct (copy_createBody_obliging h db k facts st Ho Hdb Hassets)
    as (l1 & i & p & lb & o0 & o1 & Hrun).
  cbn [fold_left]. rewrite Hrun. cbn [fst].
  match goal with |- context [fold_left _ keys ?s] => destruct (IH s) as (H1 & H2 & H3 & H4 & H5) end.
  { intros k0 H0. apply Hk, elem_of_cons. by right. }
  { done. }
  cbv zeta in H1, H2, H3, H4, H5. rewrite H1, H2, H3, H4, H5.
  repeat (split; [done |]). copy_state_simpl.
  rewrite fmap_app. simpl. by rewrite <- app_assoc.
Qed.

(** With an obliging host, a load that settles finishes its body,
    whichever place it has among the suspended constructions. *)
Lemma copy_step_LoadSettled_obliging h k s st :
  obliging h -> awaiting st !! k = Some s ->
  exists a more,
    (step h (LoadSettled k) st).1 =
      finished h (s_bodyName s) (s_facts s) (s_inclination s) (s_position s)
        (s_label s) (s_obliquity0 s) (s_obliquity1 s) a
        (set_assets (assets st ++ more) (set_awaiting (delete k (awaiting st)) st)).
Proof.
  intros [Ha Hl] Hk. cbn [step]. rewrite Hk. cbn [fst].
  rewrite copy_createBody_resume_unfold.
  destruct (Hl (s_uri s)) as (units & a & -> & Hfind). cbv zeta.
  rewrite Hfind, Ha. cbn [fst]. by eexists a, _.
Qed.

(** One turn of the variant's event loop: a settled load moves its body
    from [awaiting] to the registry and adds its hover closures and its bob
    loop; a tick changes none of these, and only a hover touches the
    timers. *)
Lemma copy_step_settles h ev st :
  obliging h -> Inv st ->
  let st1 := (step h ev st).1 in
  let n := settles h [ev] st in
  (forall k, is_Some (celestialBodies st !! k) \/ k ∈ s_bodyName <$> awaiting st ->
     is_Some (celestialBodies st1 !! k) \/ k ∈ s_bodyName <$> awaiting st1) /\
  length (awaiting st1) + n = length (awaiting st) /\
  length (hovers st1) = length (hovers st) + n /\
  (is_hover ev = false -> length (timers st1) = length (timers st) + n).
Proof.
  intros Ho HI. cbv zeta. destruct ev as [k | id | a | a].
  - cbn [settles]. destruct (awaiting st !! k) as [s |] eqn:Hk.
    + destruct (copy_step_LoadSettled_obliging h k s st Ho Hk) as (a & more & ->).
      unfold finished. copy_state_simpl. rewrite !length_app.
      rewrite length_delete by eauto. pose proof (lookup_lt_Some _ _ _ Hk).
      split; [| simpl; lia].
      intros k0 [[cb0 H0] | H0].
      * left. destruct (decide (s_bodyName s = k0)) as [-> | Hne].
        -- rewrite lookup_insert_eq. eauto.
        -- rewrite lookup_insert_ne by done. eauto.
      * apply list_elem_of_fmap in H0 as (s1 & -> & Hs1).
        destruct (elem_of_delete_or _ _ _ _ Hk Hs1) as [-> | Hin].
        -- left. rewrite lookup_insert_eq. eauto.
        -- right. apply list_elem_of_fmap. eauto.
    + cbn [step]. rewrite Hk. cbn [fst]. split; [done |]. lia.
  - cbn [settles step]. destruct (lookup_timer id (timers st)) as [t |] eqn:Hid.
    + destruct (inv_timers st HI id t (copy_lookup_timer_elem _ _ _ Hid))
        as (_ & cb & -> & _).
      rewrite copy_loop_tick_run. cbn [fst]. copy_state_simpl. split; [done |]. lia.
    + cbn [fst]. split; [done |]. lia.
  - cbn [settles step]. destruct (lookup_hover a (hovers st)) as [c |].
    + rewrite copy_onHoverEnter_run. cbn [fst].
      destruct (animationLoopIterval st); copy_state_simpl;
        (split; [done |]); (split; [lia |]); (split; [lia | done]).
    + cbn [fst]. split; [done |]. split; [lia |]. split; [lia | done].
  - cbn [settles step]. destruct (lookup_hover a (hovers st)) as [c |].
    + rewrite copy_onHoverExit_run. cbn [fst]. copy_state_simpl.
      split; [done |]. split; [lia |]. split; [lia | done].
    + cbn [fst]. split; [done |]. split; [lia |]. split; [lia | done].
Qed.

Lemma copy_run_settles h evs st :
  obliging h -> Inv st ->
  let st1 := run_events h evs st in
  let n := settles h evs st in
  (forall k, is_Some (celestialBodies st !! k) \/ k ∈ s_bodyName <$> awaiting st ->
     is_Some (celestialBodies st1 !! k) \/ k ∈ s_bodyName <$> awaiting st1) /\
  length (awaiting st1) + n = length (awaiting st) /\
  length (hovers st1) = length (hovers st) + n /\
  (forallb (fun ev => negb (is_hover ev)) evs = true ->
   length (timers st1) = length (timers st) + n).
Proof.
  intros Ho. revert st. induction evs as [| ev evs IH]; intros st HI; cbv zeta.
  { simpl. split; [done |]. split; [lia |]. split; [lia |]. intros _. lia. }
  destruct (copy_step_settles h ev st Ho HI) as (Ha1 & Hw1 & Hh1 & Ht1).
  destruct (IH (step h ev st).1) as (Ha2 & Hw2 & Hh2 & Ht2); [by apply copy_step_Inv |].
  cbv zeta in Ha1, Hw1, Hh1, Ht1, Ha2, Hw2, Hh2, Ht2.
  change (run_events h (ev :: evs) st) with (run_events h evs (step h ev st).1).
  cbn [settles] in Hw1, Hh1, Ht1 |- *.
  split; [intros k Hk; by apply Ha2, Ha1 |]. split; [lia |]. split; [lia |].
  intros Hev. cbn [forallb] in Hev. apply andb_prop in Hev as [Hev1 Hev2].
  apply negb_true_iff in Hev1. specialize (Ht1 Hev1). specialize (Ht2 Hev2). lia.
Qed.

Lemma copy_step_LoadSettled_awaiting h k s st :
  awaiting st !! k = Some s ->
  awaiting (step h (LoadSettled k) st).1 = delete k (awaiting st).
Proof.
  intros Hk. cbn [step]. rewrite Hk. cbn [fst].
  destruct (copy_createBody_resume_cases h s (set_awaiting (delete k (awaiting st)) st))
    as [(e & st1 & Hst1 & ->) | (more & a & _ & _ & _ & ->)]; cbn [fst].
  - unfold createBody_catch. destruct Hst1 as [-> | (more & ->)]; by copy_state_simpl.
  - unfold finished. by copy_state_simpl.
Qed.

(** Loads can settle in any order: each one leaves one construction fewer
    suspended, whatever the host answers. *)
Lemma copy_settles_outstanding h ks st :
  outstanding (length (awaiting st)) ks = true ->
  settles h (LoadSettled <$> ks) st = length ks.
Proof.
  revert st. induction ks as [| k ks IH]; intros st Hks; [done |].
  simpl in Hks. apply andb_prop in Hks as [Hk Hks]. apply Nat.ltb_lt in Hk.
  destruct (lookup_lt_is_Some_2 (awaiting st) k Hk) as [s Hs].
  cbn [fmap list_fmap settles]. rewrite Hs. rewrite IH; [done |].
  rewrite (copy_step_LoadSettled_awaiting h k s st Hs), length_delete by eauto. done.
Qed.

(** ** Properties of the variant *)

Lemma copy_reachable_run_events h db evs st :
  reachable h db st -> reachable h db (run_events h evs st).
Proof.
  revert st. induction evs as [| ev evs IH]; intros st Hr; simpl; [done |].
  apply IH. by constructor.
Qed.

Lemma copy_demo_running_reachable : reachable quiet_host demo_db demo_running.
Proof. apply copy_reachable_run_events. constructor. Qed.

(** X13.  In the variant no callback ever throws: in every reachable
    state, whatever the event (a settled load, a tick of a bob loop, a
    hover enter or exit on any actor), nothing escapes the turn of the event
    loop.  In particular the tick of a live bob loop always finds the body
    it captured. *)
Theorem copy_callbacks_never_throw h db st ev :
  reachable h db st -> (step h ev st).2 = None.
Proof.
  intros Hr. pose proof (copy_reachable_Inv h db st Hr) as HI.
  destruct ev as [k | id | a | a]; cbn [step].
  - by destruct (awaiting st !! k).
  - destruct (lookup_timer id (timers st)) as [t |] eqn:Hid; [| done].
    destruct (inv_timers st HI id t (copy_lookup_timer_elem _ _ _ Hid))
      as (_ & cb & -> & _).
    by rewrite copy_loop_tick_run.
  - destruct (lookup_hover a (hovers st)) as [c |]; [| done].
    by rewrite copy_onHoverEnter_run.
  - destruct (lookup_hover a (hovers st)) as [c |]; [| done].
    by rewrite copy_onHoverExit_run.
Qed.

Lemma copy_callbacks_never_throw_witness :
  reachable quiet_host demo_db demo_running /\
  (step quiet_host (TimerFires 1) demo_running).2 = None.
Proof.
  split; [apply copy_demo_running_reachable |].
  apply (copy_callbacks_never_throw quiet_host demo_db demo_running (TimerFires 1)).
  apply copy_demo_running_reachable.
Defined.

(** X14.  In the variant too, the six nodes of a registered body are laid
    out as documented in [createBody]: inclination at the top, position
    under it, label and obliquity0 under position, obliquity1 under
    obliquity0, the model under obliquity1, over six distinct handles. *)
Theorem copy_parent_chain h db st b cb :
  reachable h db st -> celestialBodies st !! b = Some cb -> chain_ok (actors st) cb.
Proof.
  intros Hr Hcb. by destruct (inv_bodies st (copy_reachable_Inv h db st Hr) b cb Hcb).
Qed.

Lemma copy_parent_chain_witness :
  reachable quiet_host demo_db demo_running /\
  celestialBodies demo_running !! "only_gear" = Some demo_gear /\
  chain_ok (actors demo_running) demo_gear.
Proof.
  split; [apply copy_demo_running_reachable |].
  split; [vm_compute; reflexivity |].
  apply (copy_parent_chain quiet_host demo_db demo_running "only_gear" demo_gear).
  - apply copy_demo_running_reachable.
  - vm_compute; reflexivity.
Defined.

(** X15.  In the variant every registered body is interactive, whatever its
    display name: the model of a registered body carries the hover closures
    made for that body, over its own name and its own position node. *)
Theorem copy_every_body_is_interactive h db st b cb :
  reachable h db st -> celestialBodies st !! b = Some cb ->
  lookup_hover (CelestialBody.model cb) (hovers st) =
    Some {| h_bodyName := b; h_position := CelestialBody.position cb |}.
Proof.
  intros Hr Hcb. by destruct (inv_bodies st (copy_reachable_Inv h db st Hr) b cb Hcb).
Qed.

Lemma copy_every_body_is_interactive_witness :
  reachable quiet_host demo_db demo_running /\
  celestialBodies demo_running !! "popup_model" = Some demo_popup /\
  lookup_hover (CelestialBody.model demo_popup) (hovers demo_running) =
    Some {| h_bodyName := "popup_model";
            h_position := CelestialBody.position demo_popup |}.
Proof.
  split; [apply copy_demo_running_reachable |].
  split; [vm_compute; reflexivity |].
  apply (copy_every_body_is_interactive quiet_host demo_db demo_running "popup_model"
           demo_popup).
  - apply copy_demo_running_reachable.
  - vm_compute; reflexivity.
Defined.

(** X16.  In the variant a hover moves the hovered body itself: the
    closures of an actor animate the position node that actor hangs under
    (its parent's parent's parent), to y 0.05 on enter and back to y 0 on
    exit, over 1 time unit, and touch no actor.  Enter clears the timer
    whose handle is stored and starts none; exit clears none and starts one
    bob loop, over the entry registered under the body's name, whose handle
    it stores. *)
Theorem copy_hover_moves_own_position h db st a c :
  reachable h db st -> lookup_hover a (hovers st) = Some c ->
  hover_ok (actors st) a c /\
  (let st1 := (step h (HoverEnter a) st).1 in
   tweens st1 = tweens st ++ [AnimateTo (h_position c) (LocalPositionY 0.05) 1] /\
   actors st1 = actors st /\
   timers st1 =
     match animationLoopIterval st with
     | Some id => remove_timer id (timers st)
     | None => timers st
     end) /\
  (let st2 := (step h (HoverExit a) st).1 in
   tweens st2 = tweens st ++ [AnimateTo (h_position c) (LocalPositionY 0) 1] /\
   actors st2 = actors st /\
   exists cb,
     celestialBodies st !! h_bodyName c = Some cb /\
     timers st2 = timers st ++ [(next_timer st, {| delay := 100; celestialBody := Some cb |})] /\
     animationLoopIterval st2 = Some (next_timer st)).
Proof.
  intros Hr Ha. pose proof (copy_reachable_Inv h db st Hr) as HI.
  destruct (inv_hovers st HI a c (copy_lookup_hover_elem _ _ _ Ha)) as (_ & Hok & [cb Hcb]).
  split; [done |]. cbv zeta. cbn [step]. rewrite Ha.
  rewrite copy_onHoverEnter_run, copy_onHoverExit_run. cbn [fst]. split.
  - by destruct (animationLoopIterval st).
  - copy_state_simpl. split; [done |]. split; [done |]. exists cb. by rewrite Hcb.
Qed.

Lemma copy_hover_moves_own_position_witness :
  reachable quiet_host demo_db demo_running /\
  lookup_hover 16 (hovers demo_running) = Some demo_gear_closures /\
  hover_ok (actors demo_running) 16 demo_gear_closures /\
  (let st1 := (step quiet_host (HoverEnter 16) demo_running).1 in
   tweens st1 =
     tweens demo_running ++
       [AnimateTo (h_position demo_gear_closures) (LocalPositionY 0.05) 1] /\
   actors st1 = actors demo_running /\
   timers st1 =
     match animationLoopIterval demo_running with
     | Some id => remove_timer id (timers demo_running)
     | None => timers demo_running
     end) /\
  (let st2 := (step quiet_host (HoverExit 16) demo_running).1 in
   tweens st2 =
     tweens demo_running ++
       [AnimateTo (h_position demo_gear_closures) (LocalPositionY 0) 1] /\
   actors st2 = actors demo_running /\
   exists cb,
     celestialBodies demo_running !! h_bodyName demo_gear_closures = Some cb /\
     timers st2 =
       timers demo_running ++
         [(next_timer demo_running, {| delay := 100; celestialBody := Some cb |})] /\
     animationLoopIterval st2 = Some (next_timer demo_running)).
Proof.
  split; [apply copy_demo_running_reachable |].
  split; [vm_compute; reflexivity |].
  apply (copy_hover_moves_own_position quiet_host demo_db demo_running 16
           demo_gear_closures).
  - apply copy_demo_running_reachable.
  - vm_compute; reflexivity.
Defined.

(** X17.  The model of a registered body of the variant is as its
    [createBody] made it, whatever happened since: named after the key,
    with the scale computed from the diameter, no rotation of its own, a
    collider of radius 0.5 and a button behaviour, visible, and an instance
    of a prefab loaded from the glb file of the key, whatever file format
    and appearance the record gives. *)
Theorem copy_models_as_built h db st b cb :
  reachable h db st -> celestialBodies st !! b = Some cb ->
  exists facts m,
    db_get db b = Some facts /\
    actors st !! CelestialBody.model cb = Some m /\ model_as_built h b facts m.
Proof.
  intros Hr Hcb. by apply (bt_bodies h db st (copy_reachable_Built h db st Hr)).
Qed.

Lemma copy_models_as_built_witness :
  reachable quiet_host demo_db demo_running /\
  celestialBodies demo_running !! "popup_model" = Some demo_popup /\
  exists facts m,
    db_get demo_db "popup_model" = Some facts /\
    actors demo_running !! CelestialBody.model demo_popup = Some m /\
    model_as_built quiet_host "popup_model" facts m.
Proof.
  split; [apply copy_demo_running_reachable |].
  split; [vm_compute; reflexivity |].
  apply (copy_models_as_built quiet_host demo_db demo_running "popup_model" demo_popup).
  - apply copy_demo_running_reachable.
  - vm_compute; reflexivity.
Defined.

(** X18.  The variant builds its whole scene and makes every body bob, in
    whatever order the loads settle: with a host that accepts every actor
    and answers every load with a prefab, after any events at all every key
    of the database is registered or has its construction suspended, the
    constructions still suspended are as many as the entries of the
    database less the loads that have settled, there are as many models
    with hover closures as loads have settled and, as long as no pointer
    has entered or left a model, as many bob loops running.  So once as
    many loads have settled as the database has entries, no construction is
    left suspended, every key is registered, and there are as many models
    with hover closures, and without a hover as many bob loops, as the
    database has entries, display name or not.  Any choice of an
    outstanding load at each turn is such a run. *)
Theorem copy_scene_gets_built h db evs :
  obliging h ->
  let st := run_events h evs (started h db) in
  let n := settles h evs (started h db) in
  (forall k, k ∈ Object_keys db ->
     is_Some (celestialBodies st !! k) \/ k ∈ s_bodyName <$> awaiting st) /\
  length (awaiting st) + n = length db /\
  length (hovers st) = n /\
  (forallb (fun ev => negb (is_hover ev)) evs = true -> length (timers st) = n) /\
  (n = length db ->
   awaiting st = [] /\
   (forall k, k ∈ Object_keys db -> is_Some (celestialBodies st !! k)) /\
   length (hovers st) = length db /\
   (forallb (fun ev => negb (is_hover ev)) evs = true ->
    length (timers st) = length db)) /\
  forall ks, outstanding (length db) ks = true ->
    settles h (LoadSettled <$> ks) (started h db) = length ks.
Proof.
  intros Ho. cbv zeta.
  destruct (copy_createSolarSystem_obliging h db (Object_keys db) init_state Ho)
    as (_ & Ht & Hh & _ & Hn); [apply db_get_keys | done |].
  cbv zeta in Ht, Hh, Hn. fold (createSolarSystem h db init_state) in Ht, Hh, Hn.
  fold (started h db) in Ht, Hh, Hn. simpl in Ht, Hh, Hn.
  assert (Hlen : length (awaiting (started h db)) = length db).
  { rewrite <- (length_fmap s_bodyName), Hn. unfold Object_keys. by rewrite length_fmap. }
  destruct (copy_run_settles h evs (started h db) Ho) as (Ha1 & Hw1 & Hh1 & Ht1).
  { apply (copy_reachable_Inv h db). apply reachable_started. }
  cbv zeta in Ha1, Hw1, Hh1, Ht1.
  rewrite Hlen in Hw1. rewrite Hh in Hh1. rewrite Ht in Ht1. simpl in Hh1, Ht1.
  assert (Hall : forall k, k ∈ Object_keys db ->
            is_Some (celestialBodies (run_events h evs (started h db)) !! k) \/
            k ∈ s_bodyName <$> awaiting (run_events h evs (started h db))).
  { intros k Hk. apply Ha1. right. by rewrite Hn. }
  split; [done |]. split; [done |]. split; [done |]. split; [done |]. split.
  - intros Hfull.
    assert (Hw : awaiting (run_events h evs (started h db)) = []).
    { apply length_zero_iff_nil. lia. }
    split; [done |]. split.
    + intros k Hk. destruct (Hall k Hk) as [H | H]; [done |].
      rewrite Hw in H. by apply elem_of_nil in H.
    + split; [lia |]. intros Hev. specialize (Ht1 Hev). lia.
  - intros ks Hks. apply copy_settles_outstanding. by rewrite Hlen.
Qed.

Lemma copy_scene_gets_built_witness :
  obliging quiet_host /\
  let evs := [LoadSettled 2; TimerFires 0; LoadSettled 0; LoadSettled 5; LoadSettled 0] in
  let st := run_events quiet_host evs (started quiet_host demo_db) in
  let n := settles quiet_host evs (started quiet_host demo_db) in
  (forall k, k ∈ Object_keys demo_db ->
     is_Some (celestialBodies st !! k) \/ k ∈ s_bodyName <$> awaiting st) /\
  length (awaiting st) + n = length demo_db /\
  length (hovers st) = n /\
  (forallb (fun ev => negb (is_hover ev)) evs = true -> length (timers st) = n) /\
  (n = length demo_db ->
   awaiting st = [] /\
   (forall k, k ∈ Object_keys demo_db -> is_Some (celestialBodies st !! k)) /\
   length (hovers st) = length demo_db /\
   (forallb (fun ev => negb (is_hover ev)) evs = true ->
    length (timers st) = length demo_db)) /\
  forall ks, outstanding (length demo_db) ks = true ->
    settles quiet_host (LoadSettled <$> ks) (started quiet_host demo_db) = length ks.
Proof.
  assert (Ho : obliging quiet_host).
  { split; [done |]. intros uri. by exists [("mesh", false); ("scene", true)], 
      {| asset_name := "scene"; source_uri := Some uri; is_prefab := true |}. }
  split; [exact Ho |]. exact (copy_scene_gets_built quiet_host demo_db _ Ho).
Defined.

(** The loads of the sample scene settling last first, with a tick and a
    stray event in between: all three settle and the scene is complete,
    with three bob loops.  After a pointer has entered a model one loop is
    gone: the count of loops holds for runs without a hover only. *)
Example copy_scene_built_out_of_order :
  let evs := [LoadSettled 2; TimerFires 0; LoadSettled 0; LoadSettled 5; LoadSettled 0] in
  let st := run_events quiet_host evs (started quiet_host demo_db) in
  let hovered := run_events quiet_host
                   [LoadSettled 1; LoadSettled 1; LoadSettled 0; HoverEnter 15]
                   (started quiet_host demo_db) in
  settles quiet_host evs (started quiet_host demo_db) = 3 /\
  forallb (fun ev => negb (is_hover ev)) evs = true /\
  outstanding 3 [2; 0; 0] = true /\
  awaiting st = [] /\
  (fun k => CelestialBody.model <$> celestialBodies st !! k) <$> Object_keys demo_db
    = [Some 16; Some 17; Some 15] /\
  length (timers st) = 3 /\ (hovers st).*1 = [15; 16; 17] /\
  awaiting hovered = [] /\ length (timers hovered) = 2 /\ length (hovers hovered) = 3.
Proof. cbv zeta. evaluate. Qed.

End CopyProofs.

(** * The two files side by side: proofs *)

(** ** Node creation, spelled out *)

Lemma create_nodes_explicit h bodyName facts st :
  let n := length (actors st) in
  create_nodes h bodyName facts st =
    match first_refused h (node_names bodyName) with
    | Some (k, msg) =>
        (set_actors (actors st ++ take k (five_nodes bodyName facts n)) st,
         inl (HostError msg))
    | None =>
        (set_actors (actors st ++ five_nodes bodyName facts n) st,
         inr (n, n + 1, n + 2, n + 3, n + 4))
    end.
Proof.
  cbv zeta. unfold create_nodes, bind, Actor_Create, node_names, five_nodes.
  cbn [actor_name with_app_rotation with_local_position with_local_rotation new_actor
       first_refused].
  destruct (Actor_Create_throws h (bodyName +:+ "-inclination")) as [m1 |].
  { simpl. by rewrite app_nil_r, set_actors_id. }
  cbn [actors set_actors].
  destruct (Actor_Create_throws h (bodyName +:+ "-position")) as [m2 |]; [done |].
  cbn [actors set_actors].
  destruct (Actor_Create_throws h (bodyName +:+ "-label")) as [m3 |].
  { simpl. by rewrite <- !app_assoc. }
  cbn [actors set_actors].
  destruct (Actor_Create_throws h (bodyName +:+ "-obliquity0")) as [m4 |].
  { simpl. rewrite <- !app_assoc, !length_app. simpl. done. }
  cbn [actors set_actors].
  destruct (Actor_Create_throws h (bodyName +:+ "-obliquity1")) as [m5 |].
  { simpl. rewrite <- !app_assoc, !length_app. simpl. done. }
  cbn [actors set_actors ret]. simpl.
  rewrite <- !app_assoc, !length_app. simpl.
  replace (length (actors st) + 1 + 1) with (length (actors st) + 2) by lia.
  replace (length (actors st) + 2 + 1) with (length (actors st) + 3) by lia.
  replace (length (actors st) + 3 + 1) with (length (actors st) + 4) by lia.
  done.
Qed.

Lemma copy_create_nodes_explicit h bodyName facts c :
  let n := length (Copy.actors c) in
  Copy.create_nodes h bodyName facts c =
    match first_refused h (node_names bodyName) with
    | Some (k, msg) =>
        (Copy.set_actors (Copy.actors c ++ take k (copy_five_nodes bodyName facts n)) c,
         inl (HostError msg))
    | None =>
        (Copy.set_actors (Copy.actors c ++ copy_five_nodes bodyName facts n) c,
         inr (n, n + 1, n + 2, n + 3, n + 4))
    end.
Proof.
  cbv zeta.
  unfold Copy.create_nodes, Copy.bind, Copy.Actor_Create, node_names, copy_five_nodes.
  cbn [actor_name with_app_rotation with_local_position with_local_rotation new_actor
       first_refused].
  destruct (Actor_Create_throws h (bodyName +:+ "-inclination")) as [m1 |].
  { simpl. rewrite app_nil_r. by destruct c. }
  cbn [Copy.actors Copy.set_actors].
  destruct (Actor_Create_throws h (bodyName +:+ "-position")) as [m2 |]; [done |].
  cbn [Copy.actors Copy.set_actors].
  destruct (Actor_Create_throws h (bodyName +:+ "-label")) as [m3 |].
  { simpl. by rewrite <- !app_assoc. }
  cbn [Copy.actors Copy.set_actors].
  destruct (Actor_Create_throws h (bodyName +:+ "-obliquity0")) as [m4 |].
  { simpl. rewrite <- !app_assoc, !length_app. simpl. done. }
  cbn [Copy.actors Copy.set_actors].
  destruct (Actor_Create_throws h (bodyName +:+ "-obliquity1")) as [m5 |].
  { simpl. rewrite <- !app_assoc, !length_app. simpl. done. }
  cbn [Copy.actors Copy.set_actors Copy.ret]. simpl.
  rewrite <- !app_assoc, !length_app. simpl.
  replace (length (Copy.actors c) + 1 + 1) with (length (Copy.actors c) + 2) by lia.
  replace (length (Copy.actors c) + 2 + 1) with (length (Copy.actors c) + 3) by lia.
  replace (length (Copy.actors c) + 3 + 1) with (length (Copy.actors c) + 4) by lia.
  done.
Qed.

(** ** The same scene, step by step *)

Lemma plain_five_nodes bodyName facts n :
  plain <$> five_nodes bodyName facts n = plain <$> copy_five_nodes bodyName facts n.
Proof. reflexivity. Qed.

Lemma same_scene_length st c : same_scene st c -> length (actors st) = length (Copy.actors c).
Proof.
  intros [Ha _ _ _ _]. apply (f_equal length) in Ha. by rewrite !length_fmap in Ha.
Qed.

Lemma model_uri_glb db bodyName facts :
  all_glb db -> db_get db bodyName = Some facts ->
  model_uri bodyName facts = Copy.model_uri bodyName.
Proof. intros Hg Hdb. unfold model_uri, Copy.model_uri. by rewrite (Hg _ _ Hdb). Qed.

Lemma plain_alter_text t (i : nat) (l : list Actor) :
  plain <$> alter (with_text t) i l = alter (with_text t) i (plain <$> l).
Proof. apply list_fmap_alter, Forall_forall. done. Qed.

Lemma plain_alter_button (i : nat) (l : list Actor) :
  plain <$> alter with_button i l = alter with_button i (plain <$> l).
Proof. apply list_fmap_alter, Forall_forall. done. Qed.

Lemma plain_alter_appearance v (i : nat) (l : list Actor) :
  plain <$> alter (with_appearance_enabled v) i l = plain <$> l.
Proof.
  rewrite (list_fmap_alter plain _ id); [| apply Forall_forall; done].
  by apply list_alter_id.
Qed.

(** The actors of a finished body are the same in both files. *)
Lemma plain_finished_actors h bodyName facts i p lb o0 o1 a l (c : Copy.State) :
  plain <$> l = plain <$> Copy.actors c ->
  plain <$> finished_actors h bodyName facts lb o1 a l =
  plain <$> Copy.actors (Copy.finished h bodyName facts i p lb o0 o1 a c).
Proof.
  intros Hl. unfold finished_actors, Copy.finished.
  cbn [Copy.actors Copy.set_animationLoopIterval Copy.set_next_timer Copy.set_timers
       Copy.set_celestialBodies Copy.set_actors Copy.set_hovers].
  assert (Hn : length l = length (Copy.actors c)).
  { apply (f_equal length) in Hl. by rewrite !length_fmap in Hl. }
  rewrite !plain_alter_text, !plain_alter_button, plain_alter_appearance.
  rewrite !fmap_app, Hl, Hn. reflexivity.
Qed.

Lemma same_scene_catch bodyName e st c :
  same_scene st c ->
  same_scene (createBody_catch bodyName e st) (Copy.createBody_catch bodyName e c).
Proof.
  intros [Ha Hb Hw Hl Hd]. split; try done.
  rewrite createBody_catch_run. simpl. by rewrite Hl.
Qed.

(** A [createBody] call before anything is loaded goes the same way in
    both files. *)
Lemma createBody_same_scene h db bodyName st c :
  all_glb db -> pristine st -> Copy.assets c = [] -> same_scene st c ->
  same_scene (createBody h db bodyName st).1 (Copy.createBody h db bodyName c).1 /\
  pristine (createBody h db bodyName st).1 /\
  Copy.assets (Copy.createBody h db bodyName c).1 = [].
Proof.
  intros Hg HP Hassets HS.
  destruct (db_get db bodyName) as [facts |] eqn:Hdb.
  2: { unfold createBody, Copy.createBody. by rewrite Hdb. }
  split; [| split; [apply (createBody_pristine h db bodyName facts st Hdb HP) |]].
  - rewrite (createBody_unfold h db bodyName facts st Hdb).
    rewrite (copy_createBody_unfold h db bodyName facts c Hdb).
    rewrite create_nodes_explicit, copy_create_nodes_explicit. cbv zeta.
    rewrite <- (same_scene_length st c HS).
    pose proof HS as [Ha Hb Hw Hl Hd].
    destruct (first_refused h (node_names bodyName)) as [[k msg] |].
    + cbn [fst]. apply same_scene_catch. split; try done. simpl.
      by rewrite !fmap_app, !fmap_take, Ha, plain_five_nodes.
    + assert (Hnone : find_prefab (model_uri bodyName facts)
                        (container_assets st (assets st)) = None).
      { destruct HP as (_ & _ & _ & _ & Hc & Has & _). unfold container_assets.
        by rewrite Hc, Has. }
      change (container_assets (set_actors ?l st) (assets (set_actors ?l st)))
        with (container_assets st (assets st)).
      rewrite Hnone. cbn [Copy.assets Copy.set_actors]. rewrite Hassets.
      cbn [find_prefab prefabs List.filter List.find fst].
      split; simpl.
      * by rewrite !fmap_app, Ha, plain_five_nodes.
      * done.
      * apply Forall2_app; [done |]. constructor; [| constructor].
        repeat split. simpl. by eapply model_uri_glb.
      * done.
      * by rewrite Hd, (model_uri_glb db bodyName facts Hg Hdb).
  - rewrite (copy_createBody_unfold h db bodyName facts c Hdb).
    rewrite copy_create_nodes_explicit. cbv zeta.
    destruct (first_refused h (node_names bodyName)) as [[k msg] |]; [done |].
    cbn [Copy.assets Copy.set_actors]. rewrite Hassets. done.
Qed.

Lemma started_same_scene h db :
  all_glb db -> same_scene (started h db) (Copy.started h db).
Proof.
  intros Hg. unfold started, Copy.started, createSolarSystem, Copy.createSolarSystem.
  assert (H : forall keys st c,
            pristine st -> Copy.assets c = [] -> same_scene st c ->
            same_scene
              (fold_left (fun s bodyName => (createBody h db bodyName s).1) keys st)
              (fold_left (fun s bodyName => (Copy.createBody h db bodyName s).1) keys c)).
  { induction keys as [| k keys IH]; intros st c HP Hassets HS; simpl; [done |].
    destruct (createBody_same_scene h db k st c Hg HP Hassets HS) as (HS1 & HP1 & Ha1).
    by apply IH. }
  apply H; [apply pristine_init | done |]. by split.
Qed.

(** The continuation after a load goes the same way in both files. *)
Lemma createBody_resume_same_scene h s cs st c :
  same_suspended s cs -> same_scene st c ->
  same_scene (createBody_resume h s st).1 (Copy.createBody_resume h cs c).1.
Proof.
  intros (Hn & Hf & Hi & Hp & Hlb & Ho0 & Ho1 & Hu) HS.
  rewrite copy_createBody_resume_unfold. rewrite <- Hu, <- Hn.
  destruct (loadGltf_reply h (s_uri s)) as [msg | units] eqn:Hr.
  { unfold createBody_resume, createBody_continue. rewrite Hr. cbn [throw fst].
    by apply same_scene_catch. }
  rewrite (createBody_resume_unfold h s st units Hr). cbv zeta.
  assert (HS1 : same_scene (add_assets (s_container s) (gltf_assets (s_uri s) units) st).1
                  (Copy.set_assets (Copy.assets c ++ gltf_assets (s_uri s) units) c)).
  { by destruct HS. }
  destruct (List.find is_prefab (gltf_assets (s_uri s) units)) as [a |].
  2: { cbn [fst]. by apply same_scene_catch. }
  destruct (Actor_Create_throws h (s_bodyName s +:+ "-body")) as [msg |] eqn:Hm.
  { rewrite (createBody_finish_throws _ _ _ _ _ _ _ _ _ _ _ Hm). cbn [fst].
    by apply same_scene_catch. }
  destruct (createBody_finish_returns h (s_bodyName s) (s_facts s) (s_inclination s)
              (s_position s) (s_label s) (s_obliquity0 s) (s_obliquity1 s) a
              (add_assets (s_container s) (gltf_assets (s_uri s) units) st).1 Hm)
    as (st2 & -> & Hfin).
  cbn [fst]. rewrite <- Hf, <- Hi, <- Hp, <- Hlb, <- Ho0, <- Ho1.
  destruct Hfin as (Eb & Ea & _ & _ & _ & _ & _ & _ & El & Ed & Ew & _).
  destruct HS1 as [Sa Sb Sw Sl Sd].
  split.
  - rewrite Ea. by apply plain_finished_actors.
  - rewrite Eb, Sb.
    apply (f_equal length) in Sa. rewrite !length_fmap in Sa. by rewrite Sa.
  - by rewrite Ew.
  - by rewrite El.
  - by rewrite Ed.
Qed.

Lemma same_scene_delete_awaiting k st c :
  same_scene st c ->
  same_scene (set_awaiting (delete k (awaiting st)) st)
    (Copy.set_awaiting (delete k (Copy.awaiting c)) c).
Proof. intros [Ha Hb Hw Hl Hd]. split; try done. simpl. by apply Forall2_delete. Qed.

Lemma step_LoadSettled_same_scene h k st c :
  same_scene st c ->
  same_scene (step h (LoadSettled k) st).1 (Copy.step h (Copy.LoadSettled k) c).1.
Proof.
  intros HS. cbn [step Copy.step].
  pose proof (same_awaiting st c HS) as Hw.
  destruct (awaiting st !! k) as [s |] eqn:Hs.
  - destruct (Forall2_lookup_l _ _ _ k s Hw Hs) as (cs & -> & Hsame). cbn [fst].
    apply createBody_resume_same_scene; [done |]. by apply same_scene_delete_awaiting.
  - destruct (Copy.awaiting c !! k) as [cs |] eqn:Hcs; [| done].
    destruct (Forall2_lookup_r _ _ _ k cs Hw Hcs) as (s & Hs1 & _). congruence.
Qed.

(** X19.  The two files build the same scene.  On a database whose records
    all name the glb format, and with the same host, start-up followed by
    the same loads settling in the same order leaves both with the same
    actors under the same handles (same name, parent, app rotation, scale,
    prefab, text and button behaviour; they differ only in local position
    and rotation, collider and visibility), the same registry, the same
    constructions suspended, the same log and the same loads requested. *)
Theorem variants_build_the_same_scene h db ks :
  all_glb db ->
  same_scene (run_events h (LoadSettled <$> ks) (started h db))
    (Copy.run_events h (Copy.LoadSettled <$> ks) (Copy.started h db)).
Proof.
  intros Hg.
  assert (H : forall st c, same_scene st c ->
            same_scene (run_events h (LoadSettled <$> ks) st)
              (Copy.run_events h (Copy.LoadSettled <$> ks) c)).
  { induction ks as [| k ks IH]; intros st c HS; simpl; [done |].
    by apply IH, step_LoadSettled_same_scene. }
  by apply H, started_same_scene.
Qed.

Lemma variants_build_the_same_scene_witness :
  all_glb demo_db /\
  same_scene (run_events quiet_host (LoadSettled <$> [1; 0; 0]) (started quiet_host demo_db))
    (Copy.run_events quiet_host (Copy.LoadSettled <$> [1; 0; 0])
       (Copy.started quiet_host demo_db)).
Proof.
  assert (Hg : all_glb demo_db).
  { intros k facts. unfold demo_db. cbn [db_get].
    repeat case_bool_decide; intros [= <-]; reflexivity. }
  split; [exact Hg |].
  exact (variants_build_the_same_scene quiet_host demo_db [1; 0; 0] Hg).
Defined.
